(** * b3 engine: frustum culling, node transforms and frame orchestration

    A shallow embedding of the b3 rendering engine's CPU-side logic
    (frustum_culling.cpp, node.hpp / node.cpp, engine.cpp) together with
    the properties its design document states about it.

    Conventions.
    - [float] values are modelled by the real numbers [R]: every
      arithmetic operation is the exact one, comparisons are the exact
      comparisons.  Rounding, infinities and NaN are outside the model.
    - [size_t] and [VkDeviceSize] are 64-bit, [uint32_t] is 32-bit; they
      are modelled by [Z] with the wrap-around written out.
    - loop counters and vector indices are [nat].
    - a call that can throw or run into undefined behaviour (a null
      handle or pointer, an index past the end of a vector) has a result
      type that says so: [option] where only the latter can happen, a
      three-way result for [update]. *)

From Stdlib Require Import Reals Lra Psatz ZArith Lia List Bool.
From stdpp Require Import base option list gmap.
Import ListNotations.

Set Warnings "-register-all".

(** ** GLM: vectors and column-major 4x4 matrices *)

Module Glm.

Local Open Scope R_scope.

Record vec3 := mkVec3 { vx : R; vy : R; vz : R }.
Record vec4 := mkVec4 { x4 : R; y4 : R; z4 : R; w4 : R }.

(** [glm::mat4] stores four columns; [m[c][r]] is row [r] of column [c]. *)
Record mat4 := mkMat4 { col0 : vec4; col1 : vec4; col2 : vec4; col3 : vec4 }.

Definition vec4_at (v : vec4) (r : nat) : R :=
  match r with
  | 0%nat => x4 v
  | 1%nat => y4 v
  | 2%nat => z4 v
  | _ => w4 v
  end.

Definition column (m : mat4) (c : nat) : vec4 :=
  match c with
  | 0%nat => col0 m
  | 1%nat => col1 m
  | 2%nat => col2 m
  | _ => col3 m
  end.

(** [m[c][r]] *)
Definition at_ (m : mat4) (c r : nat) : R := vec4_at (column m c) r.

Definition zero3 : vec3 := mkVec3 0 0 0.

Definition add3 (a b : vec3) : vec3 :=
  mkVec3 (vx a + vx b) (vy a + vy b) (vz a + vz b).

Definition sub3 (a b : vec3) : vec3 :=
  mkVec3 (vx a - vx b) (vy a - vy b) (vz a - vz b).

Definition scale3 (a : vec3) (s : R) : vec3 :=
  mkVec3 (vx a * s) (vy a * s) (vz a * s).

Definition div3 (a : vec3) (s : R) : vec3 :=
  mkVec3 (vx a / s) (vy a / s) (vz a / s).

Definition dot (a b : vec3) : R := vx a * vx b + vy a * vy b + vz a * vz b.

(** [glm::length] *)
Definition length (a : vec3) : R := sqrt (dot a a).

(** [glm::distance2] (squared distance) and [glm::distance] *)
Definition distance2 (a b : vec3) : R := dot (sub3 a b) (sub3 a b).
Definition distance (a b : vec3) : R := length (sub3 a b).

(** [glm::normalize]: the vector times the inverse of its length *)
Definition normalize (a : vec3) : vec3 := scale3 a (/ length a).

Definition dot4 (a b : vec4) : R :=
  x4 a * x4 b + y4 a * y4 b + z4 a * z4 b + w4 a * w4 b.

(** Row [r] of a matrix, as a vector. *)
Definition row (m : mat4) (r : nat) : vec4 :=
  mkVec4 (at_ m 0 r) (at_ m 1 r) (at_ m 2 r) (at_ m 3 r).

(** [a * b] for matrices: [(a * b)[c][r] = sum_k a[k][r] * b[c][k]]. *)
Definition mul_col (a : mat4) (v : vec4) : vec4 :=
  mkVec4 (dot4 (row a 0) v) (dot4 (row a 1) v)
         (dot4 (row a 2) v) (dot4 (row a 3) v).

Definition mul (a b : mat4) : mat4 :=
  mkMat4 (mul_col a (col0 b)) (mul_col a (col1 b))
         (mul_col a (col2 b)) (mul_col a (col3 b)).

(** A matrix whose last row is (0, 0, 0, 1) keeps the fourth coordinate of
    a point at one, so applying a product to a point is applying its
    factors in turn. *)
Definition affine (m : mat4) : Prop :=
  at_ m 0 3 = 0 /\ at_ m 1 3 = 0 /\ at_ m 2 3 = 0 /\ at_ m 3 3 = 1.

(** [vec3(m * vec4(p, 1))]: a point under a transform, as the vertex
    shader computes [worldPos]. *)
Definition transform_point (m : mat4) (p : vec3) : vec3 :=
  let q := mul_col m (mkVec4 (vx p) (vy p) (vz p) 1) in
  mkVec3 (x4 q) (y4 q) (z4 q).

End Glm.

(** ** frustum_culling.hpp / frustum_culling.cpp *)

Module FrustumCulling.

Import Glm.
Local Open Scope R_scope.

Record Plane := mkPlane { normal : vec3; d : R }.

(** [Plane::distance] *)
Definition plane_distance (pl : Plane) (p : vec3) : R := dot (normal pl) p + d pl.

(** [std::array<Plane, 6>]: 0 Left, 1 Right, 2 Bottom, 3 Top, 4 Near, 5 Far *)
Record Frustum := mkFrustum {
  pLeft : Plane; pRight : Plane; pBottom : Plane;
  pTop : Plane; pNear : Plane; pFar : Plane
}.

(** [f.planes[i]] *)
Definition planes (f : Frustum) (i : nat) : Plane :=
  match i with
  | 0%nat => pLeft f
  | 1%nat => pRight f
  | 2%nat => pBottom f
  | 3%nat => pTop f
  | 4%nat => pNear f
  | _ => pFar f
  end.

(** [f.planes[i] = p] *)
Definition set_plane (f : Frustum) (i : nat) (p : Plane) : Frustum :=
  match i with
  | 0%nat => mkFrustum p (pRight f) (pBottom f) (pTop f) (pNear f) (pFar f)
  | 1%nat => mkFrustum (pLeft f) p (pBottom f) (pTop f) (pNear f) (pFar f)
  | 2%nat => mkFrustum (pLeft f) (pRight f) p (pTop f) (pNear f) (pFar f)
  | 3%nat => mkFrustum (pLeft f) (pRight f) (pBottom f) p (pNear f) (pFar f)
  | 4%nat => mkFrustum (pLeft f) (pRight f) (pBottom f) (pTop f) p (pFar f)
  | _ => mkFrustum (pLeft f) (pRight f) (pBottom f) (pTop f) (pNear f) p
  end.

(** The six assignments at the head of [extractFrustum]. *)
Definition extract_raw (vp : mat4) : Frustum :=
  mkFrustum
    (mkPlane (mkVec3 (at_ vp 0 3 + at_ vp 0 0) (at_ vp 1 3 + at_ vp 1 0)
                     (at_ vp 2 3 + at_ vp 2 0)) (at_ vp 3 3 + at_ vp 3 0))
    (mkPlane (mkVec3 (at_ vp 0 3 - at_ vp 0 0) (at_ vp 1 3 - at_ vp 1 0)
                     (at_ vp 2 3 - at_ vp 2 0)) (at_ vp 3 3 - at_ vp 3 0))
    (mkPlane (mkVec3 (at_ vp 0 3 + at_ vp 0 1) (at_ vp 1 3 + at_ vp 1 1)
                     (at_ vp 2 3 + at_ vp 2 1)) (at_ vp 3 3 + at_ vp 3 1))
    (mkPlane (mkVec3 (at_ vp 0 3 - at_ vp 0 1) (at_ vp 1 3 - at_ vp 1 1)
                     (at_ vp 2 3 - at_ vp 2 1)) (at_ vp 3 3 - at_ vp 3 1))
    (mkPlane (mkVec3 (at_ vp 0 3 + at_ vp 0 2) (at_ vp 1 3 + at_ vp 1 2)
                     (at_ vp 2 3 + at_ vp 2 2)) (at_ vp 3 3 + at_ vp 3 2))
    (mkPlane (mkVec3 (at_ vp 0 3 - at_ vp 0 2) (at_ vp 1 3 - at_ vp 1 2)
                     (at_ vp 2 3 - at_ vp 2 2)) (at_ vp 3 3 - at_ vp 3 2)).

(** Body of the normalisation loop: [len = length(normal); normal /= len;
    d /= len]. *)
Definition normalize_plane (p : Plane) : Plane :=
  let len := length (normal p) in
  mkPlane (div3 (normal p) len) (d p / len).

(** [for (int i = 0; i < 6; i++)] normalising [f.planes[i]] in place;
    [n] counts the iterations still to run. *)
Fixpoint normalize_loop (f : Frustum) (i n : nat) : Frustum :=
  match n with
  | O => f
  | S k => normalize_loop (set_plane f i (normalize_plane (planes f i))) (S i) k
  end.

Definition extractFrustum (vp : mat4) : Frustum :=
  normalize_loop (extract_raw vp) 0 6.

(** [BoundingSphere] *)
Record BoundingSphere := mkSphere { center : vec3; radius : R }.

(** The struct's default member initialisers. *)
Definition default_sphere : BoundingSphere := mkSphere zero3 0.

(** [for (int i = 0; i < 6; i++)] with the early [return false]. *)
Fixpoint sphere_loop (f : Frustum) (bs : BoundingSphere) (i n : nat) : bool :=
  match n with
  | O => true
  | S k =>
      let dist := plane_distance (planes f i) (center bs) in
      if Rlt_dec dist (- radius bs) then false
      else sphere_loop f bs (S i) k
  end.

Definition sphereInFrustum (f : Frustum) (bs : BoundingSphere) : bool :=
  sphere_loop f bs 0 6.

(** The planes as the design document words them: [row_i] is
    [(M[0][i], M[1][i], M[2][i], M[3][i])], a plane is a sum or a
    difference of two rows, its first three components the normal and the
    fourth [d]. *)
Definition plane_of_vec4 (v : vec4) : Plane :=
  mkPlane (mkVec3 (x4 v) (y4 v) (z4 v)) (w4 v).

Definition spec_row (m : mat4) (i : nat) : vec4 :=
  mkVec4 (at_ m 0 i) (at_ m 1 i) (at_ m 2 i) (at_ m 3 i).

Definition add4 (a b : vec4) : vec4 :=
  mkVec4 (x4 a + x4 b) (y4 a + y4 b) (z4 a + z4 b) (w4 a + w4 b).

Definition sub4 (a b : vec4) : vec4 :=
  mkVec4 (x4 a - x4 b) (y4 a - y4 b) (z4 a - z4 b) (w4 a - w4 b).

Definition spec_plane (m : mat4) (i : nat) : Plane :=
  match i with
  | 0%nat => plane_of_vec4 (add4 (spec_row m 3) (spec_row m 0))
  | 1%nat => plane_of_vec4 (sub4 (spec_row m 3) (spec_row m 0))
  | 2%nat => plane_of_vec4 (add4 (spec_row m 3) (spec_row m 1))
  | 3%nat => plane_of_vec4 (sub4 (spec_row m 3) (spec_row m 1))
  | 4%nat => plane_of_vec4 (add4 (spec_row m 3) (spec_row m 2))
  | _ => plane_of_vec4 (sub4 (spec_row m 3) (spec_row m 2))
  end.

(** Both normal and [d] divided by the length of the normal. *)
Definition spec_normalized (p : Plane) : Plane :=
  mkPlane (mkVec3 (vx (normal p) / length (normal p))
                  (vy (normal p) / length (normal p))
                  (vz (normal p) / length (normal p)))
          (d p / length (normal p)).

(** [Vertex] of types.hpp; [texCoord] is a [glm::vec2]. *)
Record Vertex := mkVertex { position : vec3; vnormal : vec3; texCoord : R * R }.

Section Ritter.

(** The source has the same body twice, once over [std::vector<glm::vec3>]
    and once over [std::vector<Vertex>] reading [.position]; [pos] is the
    access path to the point. *)
Context {A : Type} (pos : A -> vec3).

(** [v[i]] (or [v[i].position]).  Indexing past the end is undefined in
    the source; the model reads the origin there. *)
Definition point_at (v : list A) (i : nat) : vec3 :=
  match nth_error v i with
  | Some x => pos x
  | None => zero3
  end.

(** The two scans for the farthest point from [q]:
    [for (i = 0; i < v.size(); i++) { d = distance2(v[i], q);
       if (d > maxDist) { maxDist = d; a = i; } }].
    The source keeps the index in an [int]; the model keeps it exact,
    which is the same for vectors of fewer than [2^31] elements. *)
Fixpoint farthest_loop (v : list A) (q : vec3) (i n : nat)
         (a : nat) (maxDist : R) : nat :=
  match n with
  | O => a
  | S k =>
      let d := distance2 (point_at v i) q in
      if Rgt_dec d maxDist
      then farthest_loop v q (S i) k i d
      else farthest_loop v q (S i) k a maxDist
  end.

Definition farthest (v : list A) (q : vec3) : nat :=
  farthest_loop v q 0 (List.length v) 0 0.

(** Step 2, growing the sphere over all vertices. *)
Fixpoint grow_loop (v : list A) (i n : nat) (c : vec3) (r : R)
  : BoundingSphere :=
  match n with
  | O => mkSphere c r
  | S k =>
      let d := distance (point_at v i) c in
      if Rgt_dec d r then
        let newRadius := (r + d) * / 2 in
        let dir := normalize (sub3 (point_at v i) c) in
        let newCenter := add3 c (scale3 dir (newRadius - r)) in
        grow_loop v (S i) k newCenter newRadius
      else grow_loop v (S i) k c r
  end.

(** The invariant of the growth loop: the radius is non-negative and the
    points with index below [i] are inside. *)
Definition holds_below (v : list A) (i : nat) (c : vec3) (r : R) : Prop :=
  0 <= r /\ forall j, (j < i)%nat -> distance (point_at v j) c <= r.

Definition computeBoundingSphere_gen (v : list A) : BoundingSphere :=
  let p := point_at v 0 in
  let a := farthest v p in
  let b := farthest v (point_at v a) in
  let center := scale3 (add3 (point_at v a) (point_at v b)) (/ 2) in
  let radius := distance (point_at v a) (point_at v b) * / 2 in
  grow_loop v 0 (List.length v) center radius.

End Ritter.

(** [computeBoundingSphere(const std::vector<glm::vec3> &)] *)
Definition computeBoundingSphere (v : list vec3) : BoundingSphere :=
  computeBoundingSphere_gen (fun p => p) v.

(** [computeBoundingSphere(const std::vector<Vertex> &)] *)
Definition computeBoundingSphereV (v : list Vertex) : BoundingSphere :=
  computeBoundingSphere_gen position v.

End FrustumCulling.

(** ** mesh.hpp, node.hpp / node.cpp *)

Module NodeModel.

Import Glm FrustumCulling.
Local Open Scope R_scope.

(** [Mesh]: vertices and 32-bit indices. *)
Record Mesh := mkMesh { m_vertices : list Vertex; m_indices : list Z }.

Definition vertices (m : Mesh) : list Vertex := m_vertices m.
Definition numberOfIndices (m : Mesh) : nat := List.length (m_indices m).

(** A non-null [std::shared_ptr<T>]: the address it holds (the key of the
    engine's maps) and the object it points to. *)
Record shared_ptr (T : Type) := mkShared { addr : positive; pointee : T }.
Arguments mkShared {T} _ _.
Arguments addr {T} _.
Arguments pointee {T} _.

(** [std::weak_ptr<T>]: default-constructed, expired, or still referring to
    a live object. *)
Inductive weak_ptr (T : Type) : Type :=
| weak_empty
| weak_expired
| weak_alive (target : T).
Arguments weak_empty {T}.
Arguments weak_expired {T}.
Arguments weak_alive {T} _.

(** [w.lock()]: the owner when the referent is alive, null otherwise. *)
Definition lock {T : Type} (w : weak_ptr T) : option T :=
  match w with
  | weak_alive t => Some t
  | _ => None
  end.

Record quat := mkQuat { qw : R; qx : R; qy : R; qz : R }.

(** [glm::quat(glm::vec3 eulerAngles)] *)
Definition quat_of_euler (e : vec3) : quat :=
  let cx := cos (vx e * / 2) in let sx := sin (vx e * / 2) in
  let cy := cos (vy e * / 2) in let sy := sin (vy e * / 2) in
  let cz := cos (vz e * / 2) in let sz := sin (vz e * / 2) in
  mkQuat (cx * cy * cz + sx * sy * sz)
         (sx * cy * cz - cx * sy * sz)
         (cx * sy * cz + sx * cy * sz)
         (cx * cy * sz - sx * sy * cz).

(** [glm::mat4_cast]: the rotation matrix of a quaternion, extended to 4x4
    by the identity. *)
Definition mat4_cast (q : quat) : mat4 :=
  let qxx := qx q * qx q in let qyy := qy q * qy q in
  let qzz := qz q * qz q in let qxz := qx q * qz q in
  let qxy := qx q * qy q in let qyz := qy q * qz q in
  let qwx := qw q * qx q in let qwy := qw q * qy q in
  let qwz := qw q * qz q in
  mkMat4
    (mkVec4 (1 - 2 * (qyy + qzz)) (2 * (qxy + qwz)) (2 * (qxz - qwy)) 0)
    (mkVec4 (2 * (qxy - qwz)) (1 - 2 * (qxx + qzz)) (2 * (qyz + qwx)) 0)
    (mkVec4 (2 * (qxz + qwy)) (2 * (qyz - qwx)) (1 - 2 * (qxx + qyy)) 0)
    (mkVec4 0 0 0 1).

(** The rotation a quaternion stands for, written from its definition
    rather than from the library's matrix: the vector part of
    [q * (0, v) * conj q] under the Hamilton product. *)
Definition quat_mul (a b : quat) : quat :=
  mkQuat (qw a * qw b - qx a * qx b - qy a * qy b - qz a * qz b)
         (qw a * qx b + qx a * qw b + qy a * qz b - qz a * qy b)
         (qw a * qy b - qx a * qz b + qy a * qw b + qz a * qx b)
         (qw a * qz b + qx a * qy b - qy a * qx b + qz a * qw b).

Definition quat_conj (q : quat) : quat :=
  mkQuat (qw q) (- qx q) (- qy q) (- qz q).

Definition rotate_by_quat (q : quat) (v : vec3) : vec3 :=
  let r := quat_mul (quat_mul q (mkQuat 0 (vx v) (vy v) (vz v))) (quat_conj q) in
  mkVec3 (qx r) (qy r) (qz r).

Definition unit_quat (q : quat) : Prop :=
  qw q * qw q + qx q * qx q + qy q * qy q + qz q * qz q = 1.

(** [class Texture], reduced to what the node logic reads. *)
Record Texture := mkTexture { m_width : Z; m_height : Z; m_sRGB : bool }.

(** [class Node].  [m_mesh] and [m_texture] are [None] for a null
    [shared_ptr]. *)
Inductive Node : Type := mkNode {
  m_parent : weak_ptr Node;
  m_pos : vec3;
  m_quat : quat;
  m_mesh : option (shared_ptr Mesh);
  m_texture : option (shared_ptr Texture);
  m_boundingSphere : BoundingSphere
}.

(** [Node() = default]: the default member initialisers. *)
Definition Node_default : Node :=
  mkNode weak_empty zero3 (quat_of_euler zero3) None None default_sphere.

(** [Node::Node(mesh, texture)]; dereferences [mesh]. *)
Definition Node_new (mesh : shared_ptr Mesh) (texture : option (shared_ptr Texture))
  : Node :=
  mkNode weak_empty zero3 (quat_of_euler zero3) (Some mesh) texture
         (computeBoundingSphereV (vertices (pointee mesh))).

Definition setPosition (n : Node) (p : vec3) : Node :=
  mkNode (m_parent n) p (m_quat n) (m_mesh n) (m_texture n) (m_boundingSphere n).

Definition setQuat (n : Node) (q : quat) : Node :=
  mkNode (m_parent n) (m_pos n) q (m_mesh n) (m_texture n) (m_boundingSphere n).

Definition setEulerAngle (n : Node) (angle : vec3) : Node :=
  mkNode (m_parent n) (m_pos n)
         (quat_of_euler (mkVec3 (vx angle) (vy angle) (vz angle)))
         (m_mesh n) (m_texture n) (m_boundingSphere n).

(** [Node::setMesh]; dereferences [mesh]. *)
Definition setMesh (n : Node) (mesh : shared_ptr Mesh) : Node :=
  mkNode (m_parent n) (m_pos n) (m_quat n) (Some mesh) (m_texture n)
         (computeBoundingSphereV (vertices (pointee mesh))).

Definition setTexture (n : Node) (t : option (shared_ptr Texture)) : Node :=
  mkNode (m_parent n) (m_pos n) (m_quat n) (m_mesh n) t (m_boundingSphere n).

(** [modelMatrix[3][r] = ...]: overwrite the last column. *)
Definition set_col3 (m : mat4) (c : vec4) : mat4 :=
  mkMat4 (col0 m) (col1 m) (col2 m) c.

Definition localMatrix (n : Node) : mat4 :=
  let modelMatrix := mat4_cast (m_quat n) in
  set_col3 modelMatrix (mkVec4 (vx (m_pos n)) (vy (m_pos n)) (vz (m_pos n)) 1).

Fixpoint worldMatrix (n : Node) : mat4 :=
  match n with
  | mkNode parent _ _ _ _ _ =>
      match parent with
      | weak_alive r => mul (worldMatrix r) (localMatrix n)
      | _ => localMatrix n
      end
  end.

(** [Node::boundingSphere() const]: works on a copy of the cached sphere. *)
Definition boundingSphere (n : Node) : BoundingSphere :=
  let bs := m_boundingSphere n in
  mkSphere (add3 (center bs) (m_pos n)) (radius bs).

(** The translation part of a transform: the first three entries of its
    last column. *)
Definition translation (m : mat4) : vec3 :=
  mkVec3 (at_ m 3 0) (at_ m 3 1) (at_ m 3 2).

(** The mesh is shared and mutable: [mesh()] hands out the pointer, and
    whoever holds it can call [Mesh::addVertex] and [Mesh::addIndex].  The
    node then sees the grown mesh, while its cached sphere stays as it
    was computed by the constructor or by [setMesh]. *)
Definition grow_mesh (n : Node) (f : Mesh -> Mesh) : Node :=
  mkNode (m_parent n) (m_pos n) (m_quat n)
         (option_map (fun sp => mkShared (addr sp) (f (pointee sp))) (m_mesh n))
         (m_texture n) (m_boundingSphere n).

Definition mesh_addVertex (n : Node) (v : Vertex) : Node :=
  grow_mesh n (fun m => mkMesh (m_vertices m ++ [v]) (m_indices m)).

Definition mesh_addIndex (n : Node) (index : Z) : Node :=
  grow_mesh n (fun m => mkMesh (m_vertices m) (m_indices m ++ [index])).

(** What client code can do with the class: the two constructors, the
    five setters, and additions to the mesh the node shares.  (Copying a
    node yields an equal value.) *)
Inductive NodeOp : Type :=
| OpSetPosition (p : vec3)
| OpSetQuat (q : quat)
| OpSetEulerAngle (angle : vec3)
| OpSetMesh (mesh : shared_ptr Mesh)
| OpSetTexture (t : option (shared_ptr Texture))
| OpMeshAddVertex (v : Vertex)
| OpMeshAddIndex (index : Z).

Definition apply_op (n : Node) (op : NodeOp) : Node :=
  match op with
  | OpSetPosition p => setPosition n p
  | OpSetQuat q => setQuat n q
  | OpSetEulerAngle a => setEulerAngle n a
  | OpSetMesh m => setMesh n m
  | OpSetTexture t => setTexture n t
  | OpMeshAddVertex v => mesh_addVertex n v
  | OpMeshAddIndex index => mesh_addIndex n index
  end.

Inductive public_node : Node -> Prop :=
| public_default : public_node Node_default
| public_new mesh texture : public_node (Node_new mesh texture)
| public_op n op : public_node n -> public_node (apply_op n op).

End NodeModel.

(** ** engine.hpp / engine.cpp *)

Module Engine.

Import Glm FrustumCulling NodeModel.

Local Open Scope Z_scope.

Definition wrap64 (z : Z) : Z := z mod 2 ^ 64.
Definition wrap32 (z : Z) : Z := z mod 2 ^ 32.

Definition MAX_NODES : Z := 32.

(** What the code takes from outside: the device limit
    [minUniformBufferOffsetAlignment] and the sizes the compiler gives to
    the uniform structs. *)
Record Platform := mkPlatform {
  minUniformBufferOffsetAlignment : Z;
  sizeof_ModelUBO : Z;
  sizeof_ShadowUniformBufferObject : Z;
  sizeof_SceneUBO_VS : Z;
  sizeof_SceneUBO_FS : Z
}.

(** [Engine::minDynamicUBOAlignment], in [size_t] arithmetic:
    [(uboSize + a - 1) & ~(a - 1)] when [a > 0]. *)
Definition minDynamicUBOAlignment (min_ubo_alignment uboSize : Z) : Z :=
  let uboBufferSizePerNode := uboSize in
  if 0 <? min_ubo_alignment then
    Z.land (wrap64 (wrap64 (uboBufferSizePerNode + min_ubo_alignment) - 1))
           (wrap64 (Z.lnot (wrap64 (min_ubo_alignment - 1))))
  else uboBufferSizePerNode.

(** [VkBuffer] handles; [0] is [VK_NULL_HANDLE]. *)
Record AllocatedBuffer := mkAllocatedBuffer { buffer : Z; allocation : Z }.
Record MeshData := mkMeshData {
  vertexBuffer : AllocatedBuffer;
  indexBuffer : AllocatedBuffer
}.
Definition default_MeshData : MeshData :=
  mkMeshData (mkAllocatedBuffer 0 0) (mkAllocatedBuffer 0 0).

(** The members of [Engine] and of its [Context] that the frame logic
    reads or writes.  [m_nodes] holds the current value of each node the
    scene list points to; the two buffer sizes are the [size] fields the
    per-frame uniform buffers were created with. *)
Record State := mkState {
  m_nodes : list Node;
  m_shadowCastingNodes : list bool;
  m_visibleNodes : list bool;
  meshBufferMap : gmap positive MeshData;
  modelUBOBufferSizePerNode : Z;
  shadowUBOBufferSizePerNode : Z;
  sceneUBOBufferSizeForVS : Z;
  modelUniformBufferSize : Z;
  shadowUniformBufferSize : Z;
  currentIndex : nat
}.

(** [Engine::initModelUB]: the stride and the size of each buffer. *)
Definition initModelUB (pf : Platform) (e : State) : State :=
  let perNode :=
    minDynamicUBOAlignment (minUniformBufferOffsetAlignment pf) (sizeof_ModelUBO pf) in
  let totalBufferSize := wrap64 (MAX_NODES * perNode) in
  mkState (m_nodes e) (m_shadowCastingNodes e) (m_visibleNodes e)
          (meshBufferMap e) perNode (shadowUBOBufferSizePerNode e)
          (sceneUBOBufferSizeForVS e) totalBufferSize
          (shadowUniformBufferSize e) (currentIndex e).

(** [Engine::initShadowUB] *)
Definition initShadowUB (pf : Platform) (e : State) : State :=
  let perNode :=
    minDynamicUBOAlignment (minUniformBufferOffsetAlignment pf)
                           (sizeof_ShadowUniformBufferObject pf) in
  let shadowTotalBufferSize := wrap64 (MAX_NODES * perNode) in
  mkState (m_nodes e) (m_shadowCastingNodes e) (m_visibleNodes e)
          (meshBufferMap e) (modelUBOBufferSizePerNode e) perNode
          (sceneUBOBufferSizeForVS e) (modelUniformBufferSize e)
          shadowTotalBufferSize (currentIndex e).

(** [Engine::addNode]: [m_nodes.push_back(node)]. *)
Definition addNode (e : State) (node : Node) : State :=
  mkState (m_nodes e ++ [node]) (m_shadowCastingNodes e) (m_visibleNodes e)
          (meshBufferMap e) (modelUBOBufferSizePerNode e)
          (shadowUBOBufferSizePerNode e) (sceneUBOBufferSizeForVS e)
          (modelUniformBufferSize e) (shadowUniformBufferSize e)
          (currentIndex e).

Definition set_flags (e : State) (shadow visible : list bool) : State :=
  mkState (m_nodes e) shadow visible
          (meshBufferMap e) (modelUBOBufferSizePerNode e)
          (shadowUBOBufferSizePerNode e) (sceneUBOBufferSizeForVS e)
          (modelUniformBufferSize e) (shadowUniformBufferSize e)
          (currentIndex e).

Definition set_meshBufferMap (e : State) (m : gmap positive MeshData) : State :=
  mkState (m_nodes e) (m_shadowCastingNodes e) (m_visibleNodes e)
          m (modelUBOBufferSizePerNode e)
          (shadowUBOBufferSizePerNode e) (sceneUBOBufferSizeForVS e)
          (modelUniformBufferSize e) (shadowUniformBufferSize e)
          (currentIndex e).

Definition set_currentIndex (e : State) (i : nat) : State :=
  mkState (m_nodes e) (m_shadowCastingNodes e) (m_visibleNodes e)
          (meshBufferMap e) (modelUBOBufferSizePerNode e)
          (shadowUBOBufferSizePerNode e) (sceneUBOBufferSizeForVS e)
          (modelUniformBufferSize e) (shadowUniformBufferSize e) i.

(** *** updateUBO *)

(** The matrices [updateUBO] builds with GLM before its loop, as they are
    when the two products are formed (after the Y flip), and the scene
    members it copies. *)
Record FrameInputs := mkFrameInputs {
  shadowView : mat4; shadowProj : mat4;
  view : mat4; proj : mat4;
  m_lightPos : vec3; m_lightColor : vec3;
  m_intensity : R; m_ambient : R
}.

Inductive UniformBuffer := SceneUB | ShadowUB | ModelUB.

Inductive UboData :=
| SceneVSData (view proj : mat4) (lightPos : vec3)
| SceneFSData (lightColor : vec3) (intensity ambient : R)
| ShadowData (depthMVP : mat4)
| ModelData (model shadowMatrix : mat4) (texIndex : Z).

(** One [vmaCopyMemoryToAllocation]: destination buffer of the per-frame
    set, byte offset, byte count, contents. *)
Record UboWrite := mkWrite {
  w_buffer : UniformBuffer;
  w_offset : Z;
  w_size : Z;
  w_data : UboData
}.

Definition bias : mat4 :=
  mkMat4 (mkVec4 (/ 2) 0 0 0) (mkVec4 0 (/ 2) 0 0)
         (mkVec4 0 0 1 0) (mkVec4 (/ 2) (/ 2) 0 1)%R.

(** The loop of [updateUBO]; [i] is the loop index, [n] the number of
    iterations left.  The state carries the flag vectors, [log] the
    copies issued so far. *)
Fixpoint updateUBO_loop (pf : Platform) (shadowVP sceneVP : mat4)
         (i n : nat) (e : State) (log : list UboWrite)
  : State * list UboWrite :=
  match n with
  | O => (e, log)
  | S k =>
      match m_nodes e !! i with
      | None => (e, log)
      | Some node =>
          let model := worldMatrix node in
          let depthMVP := mul shadowVP model in
          let shadowOffset := wrap64 (Z.of_nat i * shadowUBOBufferSizePerNode e) in
          let w1 := mkWrite ShadowUB shadowOffset
                            (sizeof_ShadowUniformBufferObject pf)
                            (ShadowData depthMVP) in
          let shadowFrustum := extractFrustum shadowVP in
          let sc := <[ i := sphereInFrustum shadowFrustum (boundingSphere node) ]>
                      (m_shadowCastingNodes e) in
          let offset := wrap64 (Z.of_nat i * modelUBOBufferSizePerNode e) in
          let w2 := mkWrite ModelUB offset (sizeof_ModelUBO pf)
                            (ModelData model (mul bias depthMVP)
                                       (wrap32 (Z.of_nat i))) in
          let sceneFrustum := extractFrustum sceneVP in
          let vis := <[ i := sphereInFrustum sceneFrustum (boundingSphere node) ]>
                       (m_visibleNodes e) in
          updateUBO_loop pf shadowVP sceneVP (S i) k (set_flags e sc vis)
                         (log ++ [w1; w2])
      end
  end.

Definition updateUBO (pf : Platform) (fi : FrameInputs) (e : State)
  : State * list UboWrite :=
  let shadowVP := mul (shadowProj fi) (shadowView fi) in
  let sceneVP := mul (proj fi) (view fi) in
  let s1 := mkWrite SceneUB 0 (sizeof_SceneUBO_VS pf)
                    (SceneVSData (view fi) (proj fi) (m_lightPos fi)) in
  let s2 := mkWrite SceneUB (sceneUBOBufferSizeForVS e) (sizeof_SceneUBO_FS pf)
                    (SceneFSData (m_lightColor fi) (m_intensity fi) (m_ambient fi)) in
  updateUBO_loop pf shadowVP sceneVP 0 (List.length (m_nodes e)) e [s1; s2].

(** A copy stays inside a buffer of [size] bytes. *)
Definition in_bounds (size : Z) (w : UboWrite) : Prop :=
  0 <= w_offset w /\ w_offset w + w_size w <= size.

(** The size the target buffer of a copy was created with; the scene
    buffer is not per-node and is left out of the per-node check. *)
Definition per_node_write_ok (e : State) (w : UboWrite) : Prop :=
  match w_buffer w with
  | SceneUB => True
  | ShadowUB => in_bounds (shadowUniformBufferSize e) w
  | ModelUB => in_bounds (modelUniformBufferSize e) w
  end.

(** *** Command recording: renderShadow and render *)

Inductive Pass := ShadowPass | ColorPass.

Inductive DescriptorSet :=
| SceneSet (frame : nat)
| ModelSet (frame : nat)
| ShadowSet (frame : nat)
| TextureSet.

Inductive Barrier :=
| ShadowToDepthWrite      (* UNDEFINED -> DEPTH_STENCIL_ATTACHMENT_OPTIMAL *)
| ShadowToShaderRead      (* DEPTH_STENCIL_ATTACHMENT_OPTIMAL -> SHADER_READ_ONLY_OPTIMAL *)
| ShadowBackToDepthWrite  (* SHADER_READ_ONLY_OPTIMAL -> DEPTH_STENCIL_ATTACHMENT_OPTIMAL *)
| ColorImageToAttachment    (* colorImages[i]: UNDEFINED -> COLOR_ATTACHMENT_OPTIMAL *)
| SwapchainToAttachment     (* swapchainImages[i]: UNDEFINED -> COLOR_ATTACHMENT_OPTIMAL *)
| SwapchainToPresent.       (* swapchainImages[i]: COLOR_ATTACHMENT_OPTIMAL -> PRESENT_SRC *)

Inductive Cmd :=
| CmdPipelineBarrier2 (b : Barrier)
| CmdBeginRendering (p : Pass)
| CmdBindPipeline (p : Pass)
| CmdSetViewport
| CmdSetScissor
| CmdSetCullMode (front : bool)
| CmdSetFrontFace
| CmdSetPrimitiveTopology
| CmdSetDepthBias
| CmdBindVertexBuffers (buf : Z)
| CmdBindIndexBuffer (buf : Z)
| CmdBindDescriptorSets (firstSet : nat) (set : DescriptorSet) (dynamicOffsets : list Z)
| CmdDrawIndexed (indexCount : Z)
| CmdEndRendering.

(** [meshBufferMap[key]]: [std::unordered_map::operator[]] inserts a
    value-initialised entry when the key is absent. *)
Definition map_index (m : gmap positive MeshData) (key : positive)
  : MeshData * gmap positive MeshData :=
  match m !! key with
  | Some v => (v, m)
  | None => (default_MeshData, <[ key := default_MeshData ]> m)
  end.

(** The recording state: the command buffer and the mesh map. *)
Record Recording := mkRecording {
  cmds : list Cmd;
  rec_map : gmap positive MeshData
}.

Definition record (r : Recording) (cs : list Cmd) : Recording :=
  mkRecording (cmds r ++ cs) (rec_map r).

(** The per-node stride and descriptor set of each pass. *)
Definition pass_stride (e : State) (p : Pass) : Z :=
  match p with
  | ShadowPass => shadowUBOBufferSizePerNode e
  | ColorPass => modelUBOBufferSizePerNode e
  end.

Definition pass_set (p : Pass) (frame : nat) : DescriptorSet :=
  match p with
  | ShadowPass => ShadowSet frame
  | ColorPass => ModelSet frame
  end.

Definition pass_firstSet (p : Pass) : nat :=
  match p with
  | ShadowPass => 0%nat
  | ColorPass => 1%nat
  end.

Definition pass_flags (e : State) (p : Pass) : list bool :=
  match p with
  | ShadowPass => m_shadowCastingNodes e
  | ColorPass => m_visibleNodes e
  end.

(** The four commands of one loop iteration that is not skipped.  A node
    without a mesh makes [node->mesh()->numberOfIndices()] dereference
    null: no result. *)
Definition draw_node (e : State) (p : Pass) (frame i : nat) (node : Node)
           (r : Recording) : option Recording :=
  match m_mesh node with
  | None => None
  | Some mesh =>
      let '(meshBuffer, m') := map_index (rec_map r) (addr mesh) in
      let dynamic_offset := wrap32 (wrap64 (Z.of_nat i * pass_stride e p)) in
      Some (mkRecording
              (cmds r ++
               [CmdBindVertexBuffers (buffer (vertexBuffer meshBuffer));
                CmdBindIndexBuffer (buffer (indexBuffer meshBuffer));
                CmdBindDescriptorSets (pass_firstSet p) (pass_set p frame)
                                      [dynamic_offset];
                CmdDrawIndexed
                  (wrap32 (Z.of_nat (numberOfIndices (pointee mesh))))])
              m')
  end.

(** [for (i = 0; i < m_nodes.size(); ++i) { if (!flags[i]) continue; ... }];
    reading a flag vector past its end is undefined: no result. *)
Fixpoint draw_loop (e : State) (p : Pass) (frame : nat) (i n : nat)
         (r : Recording) : option Recording :=
  match n with
  | O => Some r
  | S k =>
      match pass_flags e p !! i with
      | None => None
      | Some false => draw_loop e p frame (S i) k r
      | Some true =>
          match m_nodes e !! i with
          | None => None
          | Some node =>
              match draw_node e p frame i node r with
              | None => None
              | Some r' => draw_loop e p frame (S i) k r'
              end
          end
      end
  end.

Definition shadow_prologue : list Cmd :=
  [CmdBeginRendering ShadowPass; CmdBindPipeline ShadowPass; CmdSetViewport;
   CmdSetScissor; CmdSetCullMode true; CmdSetFrontFace;
   CmdSetPrimitiveTopology; CmdSetDepthBias].

Definition renderShadow (e : State) (swapchain_index : nat) (r : Recording)
  : option Recording :=
  match draw_loop e ShadowPass swapchain_index 0 (List.length (m_nodes e))
                  (record r shadow_prologue) with
  | None => None
  | Some r' => Some (record r' [CmdEndRendering])
  end.

Definition color_prologue (frame : nat) : list Cmd :=
  [CmdPipelineBarrier2 ColorImageToAttachment;
   CmdPipelineBarrier2 SwapchainToAttachment;
   CmdBeginRendering ColorPass; CmdBindPipeline ColorPass; CmdSetViewport;
   CmdSetScissor; CmdSetCullMode false; CmdSetFrontFace;
   CmdSetPrimitiveTopology;
   CmdBindDescriptorSets 0 (SceneSet frame) [];
   CmdBindDescriptorSets 2 TextureSet []].

Definition color_epilogue : list Cmd :=
  [CmdEndRendering; CmdPipelineBarrier2 SwapchainToPresent;
   CmdPipelineBarrier2 ShadowBackToDepthWrite].

(** [Engine::render]: the command buffer handed to [vkQueueSubmit] and the
    mesh map afterwards. *)
Definition render (e : State) (swapchain_index : nat) : option Recording :=
  let r0 := mkRecording [CmdPipelineBarrier2 ShadowToDepthWrite] (meshBufferMap e) in
  match renderShadow e swapchain_index r0 with
  | None => None
  | Some r1 =>
      let r2 := record r1 (CmdPipelineBarrier2 ShadowToShaderRead
                           :: color_prologue swapchain_index) in
      match draw_loop e ColorPass swapchain_index 0 (List.length (m_nodes e)) r2 with
      | None => None
      | Some r3 => Some (record r3 color_epilogue)
      end
  end.

(** *** The frame: update *)

Inductive VkResult :=
| VK_SUCCESS
| VK_SUBOPTIMAL_KHR
| VK_ERROR_OUT_OF_DATE_KHR
| VK_OTHER (code : Z).

(** [res == VK_SUBOPTIMAL_KHR || res == VK_ERROR_OUT_OF_DATE_KHR] *)
Definition is_stale (res : VkResult) : bool :=
  match res with
  | VK_SUBOPTIMAL_KHR | VK_ERROR_OUT_OF_DATE_KHR => true
  | _ => false
  end.

Definition is_success (res : VkResult) : bool :=
  match res with
  | VK_SUCCESS => true
  | _ => false
  end.

(** What one call of [update] does, in order.  [EvResize ret] is a call
    of [resize] that returned [ret]. *)
Inductive Event :=
| EvAcquire (res : VkResult)
| EvResize (ret : bool)
| EvLogInfo (msg : nat)
| EvLogError (msg : nat)
| EvQueueWaitIdle
| EvResizeFlags (n : nat)
| EvUpdateUBO (writes : list UboWrite)
| EvSubmit (commands : list Cmd)
| EvPresent (res : VkResult).

(** The two log lines of [update]. *)
Definition msg_resize_failed : nat := 0.
Definition msg_present_failed : nat := 1.

(** [if (!resize(...)) { LOGI("Resize failed"); }]: what the trace
    shows of a [resize] call that returned [ret]. *)
Definition resize_events (ret : bool) : list Event :=
  if ret then [EvResize true] else [EvResize false; EvLogInfo msg_resize_failed].

(** [m_shadowCastingNodes.resize(m_nodes.size());
     m_visibleNodes.resize(m_nodes.size());] *)
Definition resize_flags (e : State) : State :=
  let n := List.length (m_nodes e) in
  set_flags e (resize n false (m_shadowCastingNodes e))
              (resize n false (m_visibleNodes e)).

(** *** What a frame is expected to record *)

(** The entry [meshBufferMap[key]] yields. *)
Definition mesh_entry (m : gmap positive MeshData) (key : positive) : MeshData :=
  fst (map_index m key).

(** The two per-node tests of a frame. *)
Definition casts_shadow (fi : FrameInputs) (node : Node) : bool :=
  sphereInFrustum (extractFrustum (mul (shadowProj fi) (shadowView fi)))
                  (boundingSphere node).

Definition visible (fi : FrameInputs) (node : Node) : bool :=
  sphereInFrustum (extractFrustum (mul (proj fi) (view fi)))
                  (boundingSphere node).

Definition pass_test (fi : FrameInputs) (p : Pass) (node : Node) : bool :=
  match p with
  | ShadowPass => casts_shadow fi node
  | ColorPass => visible fi node
  end.

(** The binding of node [i]'s slice of a pass's per-node uniform buffer:
    dynamic offset [i] times the stride. *)
Definition bind_node (e : State) (p : Pass) (frame i : nat) : Cmd :=
  CmdBindDescriptorSets (pass_firstSet p) (pass_set p frame)
                        [Z.of_nat i * pass_stride e p].

(** A draw of node [i]: its mesh's vertex and index buffers, its uniform
    slice, an indexed draw over its indices. *)
Definition node_draw (e : State) (p : Pass) (frame i : nat)
           (mesh : shared_ptr Mesh) : list Cmd :=
  [CmdBindVertexBuffers
     (buffer (vertexBuffer (mesh_entry (meshBufferMap e) (addr mesh))));
   CmdBindIndexBuffer
     (buffer (indexBuffer (mesh_entry (meshBufferMap e) (addr mesh))));
   bind_node e p frame i;
   CmdDrawIndexed (wrap32 (Z.of_nat (numberOfIndices (pointee mesh))))].

(** The draw of node [i] with the buffers of a given entry of the mesh
    map. *)
Definition draw_with (entry : MeshData) (e : State) (p : Pass) (frame i : nat)
           (mesh : shared_ptr Mesh) : list Cmd :=
  [CmdBindVertexBuffers (buffer (vertexBuffer entry));
   CmdBindIndexBuffer (buffer (indexBuffer entry));
   bind_node e p frame i;
   CmdDrawIndexed (wrap32 (Z.of_nat (numberOfIndices (pointee mesh))))].

(** The draws of the nodes with index in [[i, i + k)] that pass the test,
    in index order. *)
Definition pass_draws (e : State) (fi : FrameInputs) (p : Pass)
           (frame i k : nat) : list Cmd :=
  flat_map
    (fun j =>
       match m_nodes e !! j with
       | Some node =>
           match m_mesh node with
           | Some mesh =>
               if pass_test fi p node then node_draw e p frame j mesh else []
           | None => []
           end
       | None => []
       end)
    (seq i k).

(** The whole command buffer of a frame. *)
Definition frame_commands (e : State) (fi : FrameInputs) (frame : nat) : list Cmd :=
  let n := List.length (m_nodes e) in
  [CmdPipelineBarrier2 ShadowToDepthWrite]
  ++ shadow_prologue
  ++ pass_draws e fi ShadowPass frame 0 n
  ++ [CmdEndRendering]
  ++ [CmdPipelineBarrier2 ShadowToShaderRead]
  ++ color_prologue frame
  ++ pass_draws e fi ColorPass frame 0 n
  ++ color_epilogue.

(** What [updateUBO] and the recording never touch. *)
Definition same_scene (e e' : State) : Prop :=
  m_nodes e' = m_nodes e
  /\ meshBufferMap e' = meshBufferMap e
  /\ modelUBOBufferSizePerNode e' = modelUBOBufferSizePerNode e
  /\ shadowUBOBufferSizePerNode e' = shadowUBOBufferSizePerNode e
  /\ modelUniformBufferSize e' = modelUniformBufferSize e
  /\ shadowUniformBufferSize e' = shadowUniformBufferSize e
  /\ currentIndex e' = currentIndex e.

(** A command buffer records a draw when the draw's commands occur in it
    as one contiguous run. *)
Definition records_draw (cs group : list Cmd) : Prop :=
  exists pre post, cs = pre ++ group ++ post.

(** The two copies of iteration [i] of the loop of [updateUBO]. *)
Definition shadow_write (pf : Platform) (shadowVP : mat4) (e : State)
           (i : nat) (node : Node) : UboWrite :=
  mkWrite ShadowUB (wrap64 (Z.of_nat i * shadowUBOBufferSizePerNode e))
          (sizeof_ShadowUniformBufferObject pf)
          (ShadowData (mul shadowVP (worldMatrix node))).

Definition model_write (pf : Platform) (shadowVP : mat4) (e : State)
           (i : nat) (node : Node) : UboWrite :=
  mkWrite ModelUB (wrap64 (Z.of_nat i * modelUBOBufferSizePerNode e))
          (sizeof_ModelUBO pf)
          (ModelData (worldMatrix node)
                     (mul bias (mul shadowVP (worldMatrix node)))
                     (wrap32 (Z.of_nat i))).

(** How often an operation occurs in a trace. *)
Definition is_acquire (ev : Event) : bool :=
  match ev with EvAcquire _ => true | _ => false end.
Definition is_present (ev : Event) : bool :=
  match ev with EvPresent _ => true | _ => false end.
Definition is_resize (ev : Event) : bool :=
  match ev with EvResize _ => true | _ => false end.
Definition is_frame_work (ev : Event) : bool :=
  match ev with
  | EvResizeFlags _ | EvUpdateUBO _ | EvSubmit _ | EvPresent _ => true
  | _ => false
  end.

Definition is_wait_idle (ev : Event) : bool :=
  match ev with EvQueueWaitIdle => true | _ => false end.

Definition count (f : Event -> bool) (tr : list Event) : nat :=
  List.length (List.filter f tr).

End Engine.

(** ** Sample inputs *)

Module Samples.

Import Glm FrustumCulling NodeModel.
Local Open Scope R_scope.

(** An axis-aligned box frustum [-1,1]^3 with unit normals pointing
    inwards, and a sphere of radius one touching the right plane from
    outside. *)
Definition box_frustum : Frustum :=
  mkFrustum (mkPlane (mkVec3 1 0 0) 1) (mkPlane (mkVec3 (-1) 0 0) 1)
            (mkPlane (mkVec3 0 1 0) 1) (mkPlane (mkVec3 0 (-1) 0) 1)
            (mkPlane (mkVec3 0 0 1) 1) (mkPlane (mkVec3 0 0 (-1)) 1).

Definition tangent_sphere : BoundingSphere := mkSphere (mkVec3 2 0 0) 1.

Definition identity4 : mat4 :=
  mkMat4 (mkVec4 1 0 0 0) (mkVec4 0 1 0 0) (mkVec4 0 0 1 0) (mkVec4 0 0 0 1).

(** A parent at (1,0,0), a child holding a live reference to it, and a
    node whose parent has been released. *)
Definition sample_parent : Node := setPosition Node_default (mkVec3 1 0 0).

Definition sample_child : Node :=
  mkNode (weak_alive sample_parent) (mkVec3 0 2 0) (quat_of_euler zero3)
         None None default_sphere.

Definition sample_orphan : Node :=
  mkNode weak_expired (mkVec3 0 2 0) (quat_of_euler zero3)
         None None default_sphere.

(** A parent at (1,0,0) turned half a turn about the z axis, and a child
    of it at (0,2,0) turned half a turn about the x axis. *)
Definition turned_parent : Node :=
  setPosition (setQuat Node_default (mkQuat 0 0 0 1)) (mkVec3 1 0 0).

Definition turned_child : Node :=
  mkNode (weak_alive turned_parent) (mkVec3 0 2 0) (mkQuat 0 1 0 0)
         None None default_sphere.

(** Three points, a triangle mesh over them, and a node made from the
    mesh through the public interface and moved to (1,0,0). *)
Definition sample_points : list vec3 :=
  [mkVec3 0 0 0; mkVec3 1 0 0; mkVec3 0 3 0].

Definition sample_vertices : list Vertex :=
  map (fun p => mkVertex p (mkVec3 0 0 1) (0, 0)) sample_points.

Definition sample_mesh : shared_ptr Mesh :=
  mkShared 1%positive (mkMesh sample_vertices [0; 1; 2]%Z).

Definition sample_public : Node :=
  setPosition (Node_new sample_mesh None) (mkVec3 1 0 0).

(** A device with alignment 256, the struct sizes of a 64-bit build, and
    a scene of one node. *)
Definition sample_platform : Engine.Platform :=
  Engine.mkPlatform 256 132 64 140 20.

Definition sample_state : Engine.State :=
  Engine.mkState [sample_public] [] [] ∅ 256 256 256 8192 8192 0.

Definition sample_inputs : Engine.FrameInputs :=
  Engine.mkFrameInputs identity4 identity4 identity4 identity4
                       (mkVec3 1 1 1) (mkVec3 1 1 1) 1 (/ 10).

End Samples.

(** ** Loops *)

Module Loops.

(** [for (i = start; ...; ++i) body], run for [n] iterations from index
    [i] on a state. *)
Fixpoint for_range {St : Type} (i n : nat) (body : nat -> St -> St) (s : St) : St :=
  match n with
  | O => s
  | S k => for_range (S i) k body (body i s)
  end.

End Loops.

(** ** mesh.cpp and the primitive generators *)

Module Primitives.

Import Glm FrustumCulling NodeModel Loops.
Local Open Scope R_scope.

(** Conversions to [uint32_t] ([IndexType]) and to [int]. *)
Definition to_u32 (z : Z) : Z := (z mod 2 ^ 32)%Z.
Definition to_int (z : Z) : Z := ((z + 2 ^ 31) mod 2 ^ 32 - 2 ^ 31)%Z.
Definition to_u64 (z : Z) : Z := (z mod 2 ^ 64)%Z.

(** [Mesh::addVertex]: appends and returns the new vertex's index. *)
Definition addVertex (m : Mesh) (v : Vertex) : Mesh * Z :=
  let m' := mkMesh (m_vertices m ++ [v]) (m_indices m) in
  (m', to_u32 (Z.of_nat (List.length (m_vertices m')) - 1)).

(** [Mesh::addIndex] *)
Definition addIndex (m : Mesh) (index : Z) : Mesh :=
  mkMesh (m_vertices m) (m_indices m ++ [to_u32 index]).

(** [Mesh::vertex(i)], [Mesh::index(i)]: unchecked in the source, no
    result past the end. *)
Definition vertex (m : Mesh) (i : nat) : option Vertex := nth_error (m_vertices m) i.
Definition index (m : Mesh) (i : nat) : option Z := nth_error (m_indices m) i.
Definition numberOfVertices (m : Mesh) : nat := List.length (m_vertices m).

Definition empty_mesh : Mesh := mkMesh [] [].

(** [glm::vec2] arithmetic on texture coordinates. *)
Definition add2 (a b : R * R) : R * R := (fst a + fst b, snd a + snd b).
Definition sub2 (a b : R * R) : R * R := (fst a - fst b, snd a - snd b).
Definition scale2 (s : R) (a : R * R) : R * R := (s * fst a, s * snd a).

Inductive UpAxis := UpX | UpY | UpZ.

Record UVMap := mkUVMap { uv_a : R * R; uv_b : R * R; uv_c : R * R }.
Definition default_UVMap : UVMap := mkUVMap (0, 0) (1, 0) (0, 1).

(** *** PlaneMesh::generate *)

(** The vertex pushed for grid position [(i, j)]. *)
Definition plane_vertex (width height : R) (nx ny : Z) (uvMap : UVMap)
           (i j : nat) : Vertex :=
  let ab := sub2 (uv_b uvMap) (uv_a uvMap) in
  let ac := sub2 (uv_c uvMap) (uv_a uvMap) in
  let x := - (width / 2) + INR i * (width / IZR nx) in
  let iRatio := INR i / IZR nx in
  let uvX := add2 (uv_a uvMap) (scale2 iRatio ab) in
  let y := - (height / 2) + INR j * (height / IZR ny) in
  let jRatio := 1 - INR j / IZR ny in
  let uXY := add2 uvX (scale2 jRatio ac) in
  mkVertex (mkVec3 x y 0) (mkVec3 0 0 1) uXY.

(** The six indices pushed for cell [(i, j)], computed in [int]. *)
Definition plane_cell (ny : Z) (i j : nat) (mesh : Mesh) : Mesh :=
  let first := to_int (Z.of_nat i * (ny + 1) + Z.of_nat j) in
  let second := to_int (first + (ny + 1)) in
  let third := to_int (first + 1) in
  let fourth := to_int (second + 1) in
  let mesh := addIndex mesh first in
  let mesh := addIndex mesh second in
  let mesh := addIndex mesh third in
  let mesh := addIndex mesh third in
  let mesh := addIndex mesh second in
  addIndex mesh fourth.

(** [PlaneMesh::generate(width, height, up, nx, ny, uvMap)]; the loop
    bounds are [int]s, a negative bound gives no iteration. *)
Definition PlaneMesh_generate (width height : R) (up : UpAxis) (nx ny : Z)
           (uvMap : UVMap) : Mesh :=
  let mesh := empty_mesh in
  let mesh :=
    for_range 0 (Z.to_nat (nx + 1))
      (fun i mesh =>
         for_range 0 (Z.to_nat (ny + 1))
           (fun j mesh =>
              fst (addVertex mesh (plane_vertex width height nx ny uvMap i j)))
           mesh)
      mesh in
  for_range 0 (Z.to_nat nx)
    (fun i mesh =>
       for_range 0 (Z.to_nat ny) (fun j mesh => plane_cell ny i j mesh) mesh)
    mesh.

(** *** CubeMesh: buildPlane and generate *)

(** The vertex [buildPlane] pushes for grid position [(i, j)]; the branch
    is chosen by the first non-zero normal component, Z before Y. *)
Definition face_vertex (width height translateX translateY translateZ
                        normalX normalY normalZ : R) (nx ny : nat)
           (i j : nat) : Vertex :=
  let x := - (width * / 2) + INR i * (width / INR nx) in
  let u := 1 - (1 * INR i / INR nx) in
  let y := - (height * / 2) + INR j * (height / INR ny) in
  let v := 1 * INR j / INR ny in
  let position :=
    if Req_dec_T normalZ 0 then
      if Req_dec_T normalY 0 then
        mkVec3 translateX (translateY + x) (translateZ + y)
      else mkVec3 (translateX + y) translateY (translateZ + x)
    else mkVec3 (translateX + x) (translateY + y) translateZ in
  mkVertex position (mkVec3 normalX normalY normalZ) (u, v).

(** The six indices [buildPlane] pushes for cell [(i, j)]. *)
Definition face_cell (startingIndice : Z) (clockwise : bool) (nx : nat)
           (i j : nat) (mesh : Mesh) : Mesh :=
  let first :=
    to_int (to_u64 (startingIndice + Z.of_nat j * (Z.of_nat nx + 1) + Z.of_nat i)) in
  let second := to_int (to_u64 (first + (Z.of_nat nx + 1))) in
  let third := to_int (first + 1) in
  let fourth := to_int (second + 1) in
  if clockwise then
    let mesh := addIndex mesh first in
    let mesh := addIndex mesh third in
    let mesh := addIndex mesh second in
    let mesh := addIndex mesh third in
    let mesh := addIndex mesh fourth in
    addIndex mesh second
  else
    let mesh := addIndex mesh first in
    let mesh := addIndex mesh second in
    let mesh := addIndex mesh third in
    let mesh := addIndex mesh third in
    let mesh := addIndex mesh second in
    addIndex mesh fourth.

(** [buildPlane]: the mesh afterwards and the returned next index. *)
Definition buildPlane (startingIndice : Z)
           (width height translateX translateY translateZ
            normalX normalY normalZ : R) (clockwise : bool) (nx ny : nat)
           (mesh : Mesh) : Mesh * Z :=
  let mesh :=
    for_range 0 (nx + 1)
      (fun i mesh =>
         for_range 0 (ny + 1)
           (fun j mesh =>
              fst (addVertex mesh
                     (face_vertex width height translateX translateY translateZ
                                  normalX normalY normalZ nx ny i j)))
           mesh)
      mesh in
  let mesh :=
    for_range 0 nx
      (fun i mesh =>
         for_range 0 ny
           (fun j mesh => face_cell startingIndice clockwise nx i j mesh) mesh)
      mesh in
  (mesh, to_u32 (to_u64 (startingIndice
                         + (Z.of_nat nx + 1) * (Z.of_nat ny + 1)))).

(** [CubeMesh::generate(width, height, depth, nx, ny)] *)
Definition CubeMesh_generate (width height depth : R) (nx ny : nat) : Mesh :=
  let mesh := empty_mesh in
  let '(mesh, indice) :=
    buildPlane 0 width height 0 0 (depth * / 2) 0 0 1 false nx ny mesh in
  let '(mesh, indice) :=
    buildPlane indice width height 0 0 (- depth * / 2) 0 0 (-1) true nx ny mesh in
  let '(mesh, indice) :=
    buildPlane indice height depth (width * / 2) 0 0 1 0 0 false nx ny mesh in
  let '(mesh, indice) :=
    buildPlane indice height depth (- width * / 2) 0 0 (-1) 0 0 true nx ny mesh in
  let '(mesh, indice) :=
    buildPlane indice depth width 0 (height * / 2) 0 0 1 0 false nx ny mesh in
  let '(mesh, indice) :=
    buildPlane indice depth width 0 (- height * / 2) 0 0 (-1) 0 true nx ny mesh in
  mesh.

(** *** SphereMesh::generate *)

(** The vertex pushed for latitude [latNumber] and longitude
    [longNumber]; [pi] is the constant [std::numbers::pi_v<float>]. *)
Definition sphere_vertex (pi radius : R) (longs lats : nat)
           (latNumber longNumber : nat) : Vertex :=
  let theta := INR latNumber * pi / INR lats in
  let phi := INR longNumber * 2 * pi / INR longs in
  let sinTheta := sin theta in
  let sinPhi := sin phi in
  let cosTheta := cos theta in
  let cosPhi := cos phi in
  let x := cosPhi * sinTheta in
  let y := cosTheta in
  let z := sinPhi * sinTheta in
  let u := 1 - (1 * INR longNumber / INR longs) in
  let v := 1 * INR latNumber / INR lats in
  mkVertex (mkVec3 (radius * x) (radius * y) (radius * z)) (mkVec3 x y z) (u, v).

Definition sphere_cell (longs : nat) (latNumber longNumber : nat) (mesh : Mesh)
  : Mesh :=
  let first :=
    to_int (to_u64 (Z.of_nat latNumber * (Z.of_nat longs + 1)
                    + Z.of_nat longNumber)) in
  let second := to_int (to_u64 (first + (Z.of_nat longs + 1))) in
  let third := to_int (first + 1) in
  let fourth := to_int (second + 1) in
  let mesh := addIndex mesh first in
  let mesh := addIndex mesh third in
  let mesh := addIndex mesh second in
  let mesh := addIndex mesh second in
  let mesh := addIndex mesh third in
  addIndex mesh fourth.

Definition SphereMesh_generate (pi radius : R) (longs lats : nat) : Mesh :=
  let mesh := empty_mesh in
  let mesh :=
    for_range 0 (lats + 1)
      (fun latNumber mesh =>
         for_range 0 (longs + 1)
           (fun longNumber mesh =>
              fst (addVertex mesh
                     (sphere_vertex pi radius longs lats latNumber longNumber)))
           mesh)
      mesh in
  for_range 0 lats
    (fun latNumber mesh =>
       for_range 0 longs
         (fun longNumber mesh => sphere_cell longs latNumber longNumber mesh) mesh)
    mesh.

(** The six indices of a cell, in the order they are pushed. *)
Definition plane_cell_indices (ny : Z) (i j : nat) : list Z :=
  let first := to_int (Z.of_nat i * (ny + 1) + Z.of_nat j) in
  let second := to_int (first + (ny + 1)) in
  let third := to_int (first + 1) in
  let fourth := to_int (second + 1) in
  map to_u32 [first; second; third; third; second; fourth].

Definition face_cell_indices (startingIndice : Z) (clockwise : bool) (nx : nat)
           (i j : nat) : list Z :=
  let first :=
    to_int (to_u64 (startingIndice + Z.of_nat j * (Z.of_nat nx + 1) + Z.of_nat i)) in
  let second := to_int (to_u64 (first + (Z.of_nat nx + 1))) in
  let third := to_int (first + 1) in
  let fourth := to_int (second + 1) in
  map to_u32 (if clockwise then [first; third; second; third; fourth; second]
              else [first; second; third; third; second; fourth]).

Definition sphere_cell_indices (longs : nat) (latNumber longNumber : nat)
  : list Z :=
  let first :=
    to_int (to_u64 (Z.of_nat latNumber * (Z.of_nat longs + 1)
                    + Z.of_nat longNumber)) in
  let second := to_int (to_u64 (first + (Z.of_nat longs + 1))) in
  let third := to_int (first + 1) in
  let fourth := to_int (second + 1) in
  map to_u32 [first; third; second; second; third; fourth].

(** The index lists of all cells, row by row. *)
Definition cells (c : nat -> nat -> list Z) (ni nj : nat) : list Z :=
  flat_map (fun i => flat_map (c i) (seq 0 nj)) (seq 0 ni).

(** The grid of vertices the three generators lay down: row [i] holds the
    vertices of [j = 0 .. nj - 1]. *)
Definition grid (vtx : nat -> nat -> Vertex) (ni nj : nat) : list Vertex :=
  flat_map (fun i => map (vtx i) (seq 0 nj)) (seq 0 ni).

(** Every index of a mesh addresses one of its vertices. *)
Definition indices_in_range (m : Mesh) : Prop :=
  Forall (fun idx => (0 <= idx < Z.of_nat (List.length (m_vertices m)))%Z)
         (m_indices m).

(** A point of the axis-aligned box of the given extents around the
    origin, and a point of its surface. *)
Definition in_box (width height depth : R) (p : vec3) : Prop :=
  Rabs (vx p) <= width / 2 /\ Rabs (vy p) <= height / 2
  /\ Rabs (vz p) <= depth / 2.

Definition on_box_surface (width height depth : R) (p : vec3) : Prop :=
  in_box width height depth p
  /\ (Rabs (vx p) = width / 2 \/ Rabs (vy p) = height / 2
      \/ Rabs (vz p) = depth / 2).


End Primitives.

(** ** Points under a node's transform *)

Module Scene.

Import Glm FrustumCulling NodeModel.
Local Open Scope R_scope.

Definition identity : mat4 :=
  mkMat4 (mkVec4 1 0 0 0) (mkVec4 0 1 0 0) (mkVec4 0 0 1 0) (mkVec4 0 0 0 1).

(** The cached sphere is the one computed from the attached mesh as it is
    now: no vertex was added to the mesh since the node was constructed
    or [setMesh] was called. *)
Definition sphere_fresh (n : Node) : Prop :=
  forall mesh, m_mesh n = Some mesh ->
               m_boundingSphere n = computeBoundingSphereV (vertices (pointee mesh)).

(** The operations that leave the vertices of the shared mesh alone. *)
Definition keeps_vertices (op : NodeOp) : Prop :=
  match op with
  | OpMeshAddVertex _ => False
  | _ => True
  end.

End Scene.

(** ** camera.hpp / camera.cpp *)

Module CameraModel.

Import Glm.
Local Open Scope R_scope.

Record Camera := mkCamera {
  m_position : vec3;
  m_yaw : R;          (* degrees *)
  m_pitch : R;        (* degrees *)
  m_speed : R;
  m_sensitivity : R
}.

(** The default member initialisers. *)
Definition default_camera : Camera := mkCamera zero3 0 0 1 (/ 10).

(** What [handleMouseEvent] distinguishes in an [SDL_Event]. *)
Inductive SDL_Event :=
| MouseMotion (xrel yrel : R)
| OtherEvent.

(** [Camera::handleMouseEvent] *)
Definition handleMouseEvent (c : Camera) (e : SDL_Event) : Camera :=
  match e with
  | MouseMotion xrel yrel =>
      let dx := xrel * m_sensitivity c in
      let dy := yrel * m_sensitivity c in
      let yaw := m_yaw c + - dx in
      let pitch := m_pitch c - dy in
      let pitch := if Rgt_dec pitch 89 then 89 else pitch in
      let pitch := if Rlt_dec pitch (-89) then -89 else pitch in
      mkCamera (m_position c) yaw pitch (m_speed c) (m_sensitivity c)
  | OtherEvent => c
  end.

(** [glm::radians] *)
Definition radians (degrees : R) : R := degrees * (PI / 180).

(** [glm::cross] *)
Definition cross (a b : vec3) : vec3 :=
  mkVec3 (vy a * vz b - vy b * vz a)
         (vz a * vx b - vz b * vx a)
         (vx a * vy b - vx b * vy a).

(** The keys [updateCameraMovement] reads from the keyboard state. *)
Record Keys := mkKeys { key_W : bool; key_S : bool; key_A : bool; key_D : bool }.

(** The forward vector built from yaw and pitch, before normalisation. *)
Definition front_of (c : Camera) : vec3 :=
  mkVec3 (cos (radians (m_yaw c)) * cos (radians (m_pitch c)))
         (sin (radians (m_yaw c)) * cos (radians (m_pitch c)))
         (sin (radians (m_pitch c))).

Definition set_position (c : Camera) (p : vec3) : Camera :=
  mkCamera p (m_yaw c) (m_pitch c) (m_speed c) (m_sensitivity c).

(** [Camera::updateCameraMovement(dt)] under the keyboard state [k]. *)
Definition updateCameraMovement (c : Camera) (k : Keys) (dt : R) : Camera :=
  let front := normalize (front_of c) in
  let up := mkVec3 0 0 1 in
  let right := normalize (cross front up) in
  let c := if key_W k
           then set_position c (add3 (m_position c)
                                     (scale3 (scale3 front (m_speed c)) dt))
           else c in
  let c := if key_S k
           then set_position c (sub3 (m_position c)
                                     (scale3 (scale3 front (m_speed c)) dt))
           else c in
  let c := if key_A k
           then set_position c (sub3 (m_position c)
                                     (scale3 (scale3 right (m_speed c)) dt))
           else c in
  let c := if key_D k
           then set_position c (add3 (m_position c)
                                     (scale3 (scale3 right (m_speed c)) dt))
           else c in
  c.

(** A run of mouse events. *)
Definition handleMouseEvents (c : Camera) (es : list SDL_Event) : Camera :=
  fold_left handleMouseEvent es c.

Definition pitch_in_range (c : Camera) : Prop := -89 <= m_pitch c <= 89.

End CameraModel.

(** ** engine.cpp: per-frame resources and the swapchain *)

Module Resources.

Import Engine.
Local Open Scope Z_scope.

(** [VK_NULL_HANDLE] *)
Definition VK_NULL_HANDLE : Z := 0.

(** [Engine::PerFrame], without the unused matrix member. *)
Record PerFrame := mkPerFrame {
  queue_submit_fence : Z;
  primary_command_pool : Z;
  primary_command_buffer : Z;
  swapchain_acquire_semaphore : Z;
  swapchain_release_semaphore : Z;
  sceneDescriptorSet : Z;
  sceneUniformBuffer : Z;
  sceneUniformBufferAllocation : Z;
  modelDescriptorSet : Z;
  modelUniformBuffer : Z;
  modelUniformBufferAllocation : Z;
  shadowDescriptorSet : Z;
  shadowUniformBuffer : Z;
  shadowUniformBufferAllocation : Z
}.

(** The default member initialisers. *)
Definition default_PerFrame : PerFrame :=
  mkPerFrame 0 0 0 0 0 0 0 0 0 0 0 0 0 0.

(** Calls into Vulkan and VMA, in the order they are made. *)
Inductive Call :=
| CreateSemaphore (h : Z)
| AcquireNextImage (semaphore : Z)
| WaitForFences (fence : Z)
| ResetFences (fence : Z)
| ResetCommandPool (pool : Z)
| DestroyFence (fence : Z)
| FreeCommandBuffers (pool buffer : Z)
| DestroyCommandPool (pool : Z)
| DestroySemaphore (h : Z)
| DestroyBuffer (buffer allocation : Z)
| CreateFence (h : Z)
| CreateCommandPool (h : Z)
| AllocateCommandBuffers (pool h : Z)
| DeviceWaitIdle
| BuildSwapchain
| DestroySwapchain (h : Z)
| LogError.

(** The part of [Context] the acquire step works on. *)
Record Frames := mkFrames {
  recycledSemaphores : list Z;
  perFrame : list PerFrame
}.

Definition set_acquire_semaphore (pf : PerFrame) (s : Z) : PerFrame :=
  mkPerFrame (queue_submit_fence pf) (primary_command_pool pf)
             (primary_command_buffer pf) s (swapchain_release_semaphore pf)
             (sceneDescriptorSet pf) (sceneUniformBuffer pf)
             (sceneUniformBufferAllocation pf) (modelDescriptorSet pf)
             (modelUniformBuffer pf) (modelUniformBufferAllocation pf)
             (shadowDescriptorSet pf) (shadowUniformBuffer pf)
             (shadowUniformBufferAllocation pf).

(** [Engine::acquireNextSwapchainImage].  [fresh] is the handle
    [vkCreateSemaphore] returns if it is called, [res] and [image] what
    [vkAcquireNextImageKHR] answers.  [None] when [image] is past the end
    of [perFrame]. *)
Definition acquireNextSwapchainImage (ctx : Frames) (fresh : Z)
           (res : VkResult) (image : nat)
  : option (VkResult * Frames * list Call) :=
  let '(acquire_semaphore, recycled, calls) :=
    match recycledSemaphores ctx with
    | [] => (fresh, [], [CreateSemaphore fresh])
    | _ :: _ => (List.last (recycledSemaphores ctx) 0,
                 removelast (recycledSemaphores ctx), [])
    end in
  let calls := calls ++ [AcquireNextImage acquire_semaphore] in
  if negb (is_success res) then
    Some (res, mkFrames (recycled ++ [acquire_semaphore]) (perFrame ctx), calls)
  else
    match perFrame ctx !! image with
    | None => None
    | Some pf =>
        let calls :=
          if queue_submit_fence pf =? VK_NULL_HANDLE then calls
          else calls ++ [WaitForFences (queue_submit_fence pf);
                         ResetFences (queue_submit_fence pf)] in
        let calls :=
          if primary_command_pool pf =? VK_NULL_HANDLE then calls
          else calls ++ [ResetCommandPool (primary_command_pool pf)] in
        let old_semaphore := swapchain_acquire_semaphore pf in
        let recycled :=
          if old_semaphore =? VK_NULL_HANDLE then recycled
          else recycled ++ [old_semaphore] in
        Some (VK_SUCCESS,
              mkFrames recycled
                       (<[ image := set_acquire_semaphore pf acquire_semaphore ]>
                          (perFrame ctx)),
              calls)
    end.

(** The acquire semaphores the frames hold, and all semaphores the
    acquire step owns. *)
Definition frame_semaphores (fs : list PerFrame) : list Z :=
  List.filter (fun s => negb (s =? VK_NULL_HANDLE))
              (map swapchain_acquire_semaphore fs).

Definition owned_semaphores (ctx : Frames) : list Z :=
  recycledSemaphores ctx ++ frame_semaphores (perFrame ctx).

(** One [if (handle != VK_NULL_HANDLE) { destroy; handle = VK_NULL_HANDLE; }]:
    the handle afterwards and the call made. *)
Definition release (handle : Z) (call : Call) : Z * list Call :=
  if handle =? VK_NULL_HANDLE then (handle, []) else (VK_NULL_HANDLE, [call]).

(** The same for a buffer, whose allocation is reset with it. *)
Definition release_buffer (buffer allocation : Z) : Z * Z * list Call :=
  if buffer =? VK_NULL_HANDLE then (buffer, allocation, [])
  else (VK_NULL_HANDLE, VK_NULL_HANDLE, [DestroyBuffer buffer allocation]).

(** [Engine::teardownPerFrame]: the slot afterwards and the destroy calls
    made. *)
Definition teardownPerFrame (pf : PerFrame) : PerFrame * list Call :=
  let fence := release (queue_submit_fence pf)
                       (DestroyFence (queue_submit_fence pf)) in
  let cmd := release (primary_command_buffer pf)
                     (FreeCommandBuffers (primary_command_pool pf)
                                         (primary_command_buffer pf)) in
  let pool := release (primary_command_pool pf)
                      (DestroyCommandPool (primary_command_pool pf)) in
  let acq := release (swapchain_acquire_semaphore pf)
                     (DestroySemaphore (swapchain_acquire_semaphore pf)) in
  let rel := release (swapchain_release_semaphore pf)
                     (DestroySemaphore (swapchain_release_semaphore pf)) in
  let scene := release_buffer (sceneUniformBuffer pf)
                              (sceneUniformBufferAllocation pf) in
  let model := release_buffer (modelUniformBuffer pf)
                              (modelUniformBufferAllocation pf) in
  let shadow := release_buffer (shadowUniformBuffer pf)
                               (shadowUniformBufferAllocation pf) in
  (mkPerFrame (fst fence) (fst pool) (fst cmd) (fst acq) (fst rel)
              (sceneDescriptorSet pf) (fst (fst scene)) (snd (fst scene))
              (modelDescriptorSet pf) (fst (fst model)) (snd (fst model))
              (shadowDescriptorSet pf) (fst (fst shadow)) (snd (fst shadow)),
   snd fence ++ snd cmd ++ snd pool ++ snd acq ++ snd rel
   ++ snd scene ++ snd model ++ snd shadow).

(** The handles [initPerFrame] receives for one slot. *)
Record FrameHandles := mkFrameHandles { h_fence : Z; h_pool : Z; h_cmd : Z }.

(** [Engine::initPerFrame] *)
Definition initPerFrame (pf : PerFrame) (h : FrameHandles) : PerFrame * list Call :=
  (mkPerFrame (h_fence h) (h_pool h) (h_cmd h)
              (swapchain_acquire_semaphore pf) (swapchain_release_semaphore pf)
              (sceneDescriptorSet pf) (sceneUniformBuffer pf)
              (sceneUniformBufferAllocation pf) (modelDescriptorSet pf)
              (modelUniformBuffer pf) (modelUniformBufferAllocation pf)
              (shadowDescriptorSet pf) (shadowUniformBuffer pf)
              (shadowUniformBufferAllocation pf),
   [CreateFence (h_fence h); CreateCommandPool (h_pool h);
    AllocateCommandBuffers (h_pool h) (h_cmd h)]).

(** The swapchain side of [Context]. *)
Record SwapchainDimensions := mkDims { dim_width : Z; dim_height : Z; dim_format : Z }.

Record Swap := mkSwap {
  device : Z;
  swapchain : Z;
  swapchainDimensions : SwapchainDimensions;
  swapchainImages : list Z;
  swapchainImageViews : list Z;
  swap_perFrame : list PerFrame
}.

(** What the swapchain builder delivers when it succeeds. *)
Record BuiltSwapchain := mkBuilt {
  built_handle : Z;
  built_image_count : nat;
  built_width : Z;
  built_height : Z;
  built_format : Z;
  built_images : list Z;
  built_views : list Z
}.

(** [for (i = 0; i < image_count; i++) initPerFrame(perFrame[i])] with
    the handles of slot [i] given by [hs]. *)
Fixpoint initPerFrames (fs : list PerFrame) (i n : nat) (hs : nat -> FrameHandles)
  : list PerFrame * list Call :=
  match n with
  | O => (fs, [])
  | S k =>
      match fs !! i with
      | None => (fs, [])
      | Some pf =>
          let '(pf', c) := initPerFrame pf (hs i) in
          let '(fs', cs) := initPerFrames (<[ i := pf' ]> fs) (S i) k hs in
          (fs', c ++ cs)
      end
  end.

(** [Engine::initSwapchain]; [built] is the builder's answer ([None] for
    a failed build), [image_count] the number of images of the new
    swapchain. *)
Definition initSwapchain (s : Swap) (built : option BuiltSwapchain)
           (hs : nat -> FrameHandles) : Swap * list Call :=
  match built with
  | None => (s, [BuildSwapchain; LogError])
  | Some b =>
      let image_count := built_image_count b in
      let frames := resize image_count default_PerFrame [] in
      let '(frames, calls) := initPerFrames frames 0 image_count hs in
      (mkSwap (device s) (built_handle b)
              (mkDims (built_width b) (built_height b) (built_format b))
              (built_images b) (built_views b) frames,
       [BuildSwapchain; DestroySwapchain (swapchain s)] ++ calls)
  end.

(** [Engine::resize]; [extent] is the surface's current extent. *)
Definition resize (s : Swap) (extent : Z * Z) (built : option BuiltSwapchain)
           (hs : nat -> FrameHandles) : bool * Swap * list Call :=
  if device s =? VK_NULL_HANDLE then (false, s, [])
  else if (fst extent =? dim_width (swapchainDimensions s))
          && (snd extent =? dim_height (swapchainDimensions s))
       then (false, s, [])
       else
         let '(s', calls) := initSwapchain s built hs in
         (true, s', DeviceWaitIdle :: calls).

(** A per-frame slot with nothing in it to destroy: the eight handles
    [teardownPerFrame] tests are null. *)
Definition torn_down (pf : PerFrame) : Prop :=
  queue_submit_fence pf = 0 /\ primary_command_pool pf = 0
  /\ primary_command_buffer pf = 0
  /\ swapchain_acquire_semaphore pf = 0 /\ swapchain_release_semaphore pf = 0
  /\ sceneUniformBuffer pf = 0 /\ modelUniformBuffer pf = 0
  /\ shadowUniformBuffer pf = 0.

(** The non-null ones among those eight handles, in the order
    [teardownPerFrame] visits them. *)
Definition live (handle : Z) : list Z :=
  if handle =? VK_NULL_HANDLE then [] else [handle].

Definition live_handles (pf : PerFrame) : list Z :=
  live (queue_submit_fence pf) ++ live (primary_command_buffer pf)
  ++ live (primary_command_pool pf) ++ live (swapchain_acquire_semaphore pf)
  ++ live (swapchain_release_semaphore pf) ++ live (sceneUniformBuffer pf)
  ++ live (modelUniformBuffer pf) ++ live (shadowUniformBuffer pf).

(** The handle a destroy call releases. *)
Definition released (c : Call) : option Z :=
  match c with
  | DestroyFence h | DestroyCommandPool h | DestroySemaphore h => Some h
  | FreeCommandBuffers _ h => Some h
  | DestroyBuffer h _ => Some h
  | _ => None
  end.

(** A fresh slot as [initSwapchain] leaves it: only fence, pool and
    command buffer are set. *)
Definition bare_slot (pf : PerFrame) (h : FrameHandles) : Prop :=
  pf = mkPerFrame (h_fence h) (h_pool h) (h_cmd h) 0 0 0 0 0 0 0 0 0 0 0.

End Resources.

(** Concrete per-frame data used in the examples. *)
Module ResourceSamples.

Import Engine Resources.
Local Open Scope Z_scope.

Definition used_slot : PerFrame :=
  mkPerFrame 11 12 13 5 0 0 21 22 0 23 24 0 0 26.

Definition sample_frames : Frames :=
  mkFrames [7] [used_slot; default_PerFrame].

Definition sample_handles (i : nat) : FrameHandles :=
  mkFrameHandles (100 + Z.of_nat i) (200 + Z.of_nat i) (300 + Z.of_nat i).

Definition sample_swap : Swap :=
  mkSwap 1 2 (mkDims 800 600 44) [31; 32] [41; 42] [used_slot; default_PerFrame].

Definition sample_built : BuiltSwapchain :=
  mkBuilt 3 3 1024 768 44 [51; 52; 53] [61; 62; 63].

End ResourceSamples.

(** ** engine.cpp: device queries and resource set-up *)

Module Setup.

Import NodeModel Engine.
Local Open Scope Z_scope.

(** [VkSampleCountFlagBits] *)
Definition VK_SAMPLE_COUNT_1_BIT : Z := 1.
Definition VK_SAMPLE_COUNT_2_BIT : Z := 2.
Definition VK_SAMPLE_COUNT_4_BIT : Z := 4.
Definition VK_SAMPLE_COUNT_8_BIT : Z := 8.
Definition VK_SAMPLE_COUNT_16_BIT : Z := 16.
Definition VK_SAMPLE_COUNT_32_BIT : Z := 32.
Definition VK_SAMPLE_COUNT_64_BIT : Z := 64.

(** [if (counts & BIT)] *)
Definition has_flag (counts bit : Z) : bool := negb (Z.land counts bit =? 0).

(** [Engine::getMaxUsableSampleCount] on the two device limits. *)
Definition getMaxUsableSampleCount
           (framebufferColorSampleCounts framebufferDepthSampleCounts : Z) : Z :=
  let counts := Z.land framebufferColorSampleCounts framebufferDepthSampleCounts in
  if has_flag counts VK_SAMPLE_COUNT_64_BIT then VK_SAMPLE_COUNT_4_BIT
  else if has_flag counts VK_SAMPLE_COUNT_32_BIT then VK_SAMPLE_COUNT_4_BIT
  else if has_flag counts VK_SAMPLE_COUNT_16_BIT then VK_SAMPLE_COUNT_4_BIT
  else if has_flag counts VK_SAMPLE_COUNT_8_BIT then VK_SAMPLE_COUNT_4_BIT
  else if has_flag counts VK_SAMPLE_COUNT_4_BIT then VK_SAMPLE_COUNT_4_BIT
  else if has_flag counts VK_SAMPLE_COUNT_2_BIT then VK_SAMPLE_COUNT_2_BIT
  else VK_SAMPLE_COUNT_1_BIT.

Inductive VkImageTiling :=
| VK_IMAGE_TILING_OPTIMAL
| VK_IMAGE_TILING_LINEAR
| VK_IMAGE_TILING_DRM_FORMAT_MODIFIER_EXT.

(** The two members of [VkFormatProperties] the code reads. *)
Record VkFormatProperties := mkFormatProperties {
  linearTilingFeatures : Z;
  optimalTilingFeatures : Z
}.

(** The test in the loop body of [findSupportedFormat]. *)
Definition format_supported (props : VkFormatProperties) (tiling : VkImageTiling)
           (features : Z) : bool :=
  match tiling with
  | VK_IMAGE_TILING_LINEAR =>
      Z.land (linearTilingFeatures props) features =? features
  | VK_IMAGE_TILING_OPTIMAL =>
      Z.land (optimalTilingFeatures props) features =? features
  | VK_IMAGE_TILING_DRM_FORMAT_MODIFIER_EXT => false
  end.

(** [Engine::findSupportedFormat]; [props] is what
    [vkGetPhysicalDeviceFormatProperties] answers for a format, [None] the
    [std::runtime_error]. *)
Fixpoint findSupportedFormat (props : Z -> VkFormatProperties)
         (candidates : list Z) (tiling : VkImageTiling) (features : Z)
  : option Z :=
  match candidates with
  | [] => None
  | format :: rest =>
      if format_supported (props format) tiling features then Some format
      else findSupportedFormat props rest tiling features
  end.

Definition VK_FORMAT_D32_SFLOAT : Z := 126.
Definition VK_FORMAT_D24_UNORM_S8_UINT : Z := 129.
Definition VK_FORMAT_D32_SFLOAT_S8_UINT : Z := 130.
Definition VK_FORMAT_FEATURE_DEPTH_STENCIL_ATTACHMENT_BIT : Z := 512.

(** [Engine::findDepthFormat] *)
Definition findDepthFormat (props : Z -> VkFormatProperties) : option Z :=
  findSupportedFormat props
    [VK_FORMAT_D32_SFLOAT; VK_FORMAT_D32_SFLOAT_S8_UINT;
     VK_FORMAT_D24_UNORM_S8_UINT]
    VK_IMAGE_TILING_OPTIMAL VK_FORMAT_FEATURE_DEPTH_STENCIL_ATTACHMENT_BIT.

Record VkSurfaceFormatKHR := mkSurfaceFormat { sf_format : Z; sf_colorSpace : Z }.

(** The predicate handed to [std::ranges::find_if]. *)
Definition is_preferred (preferred_formats : list Z) (surface_format : VkSurfaceFormatKHR)
  : bool :=
  existsb (fun format => format =? sf_format surface_format) preferred_formats.

(** [Engine::selectSurfaceFormat] on the formats the surface reports;
    [supported_surface_formats[0]] of an empty vector has no result. *)
Definition selectSurfaceFormat (supported_surface_formats : list VkSurfaceFormatKHR)
           (preferred_formats : list Z) : option VkSurfaceFormatKHR :=
  match List.find (is_preferred preferred_formats) supported_surface_formats with
  | Some it => Some it
  | None => head supported_surface_formats
  end.

(** [sizeof(Vertex)] (eight floats) and [sizeof(IndexType)]. *)
Definition sizeof_Vertex : Z := 32.
Definition sizeof_IndexType : Z := 4.

(** One [uploadBuffer] call: the mesh it reads and the byte count. *)
Inductive Upload :=
| UploadVertices (mesh : positive) (bytes : Z)
| UploadIndices (mesh : positive) (bytes : Z).

(** The loop of [Engine::initVertexBuffer]; [upload k] is the buffer the
    [k]-th [uploadBuffer] call returns.  A node without a mesh makes
    [mesh->vertices()] dereference null: no result. *)
Fixpoint initVertexBuffer_loop (upload : nat -> AllocatedBuffer)
         (nodes : list Node) (m : gmap positive MeshData) (log : list Upload)
  : option (gmap positive MeshData * list Upload) :=
  match nodes with
  | [] => Some (m, log)
  | node :: rest =>
      match m_mesh node with
      | None => None
      | Some mesh =>
          match m !! addr mesh with
          | Some _ => initVertexBuffer_loop upload rest m log
          | None =>
              let vertex := upload (List.length log) in
              let index := upload (S (List.length log)) in
              initVertexBuffer_loop upload rest
                (<[ addr mesh := mkMeshData vertex index ]> m)
                (log ++ [UploadVertices (addr mesh)
                           (wrap64 (Z.of_nat (List.length
                                                (m_vertices (pointee mesh)))
                                    * sizeof_Vertex));
                         UploadIndices (addr mesh)
                           (wrap64 (Z.of_nat (List.length
                                                (m_indices (pointee mesh)))
                                    * sizeof_IndexType))])
          end
      end
  end.

Definition initVertexBuffer (upload : nat -> AllocatedBuffer) (e : State)
  : option (State * list Upload) :=
  match initVertexBuffer_loop upload (m_nodes e) (meshBufferMap e) [] with
  | None => None
  | Some (m, log) => Some (set_meshBufferMap e m, log)
  end.

(** Every node has a mesh and the mesh has an entry in the map. *)
Definition meshes_uploaded (nodes : list Node) (m : gmap positive MeshData) : Prop :=
  forall node, In node nodes ->
    exists mesh, m_mesh node = Some mesh /\ is_Some (m !! addr mesh).

(** A buffer-binding command binds the stored vertex (index) buffer of
    the mesh of one of the nodes; other commands are not constrained. *)
Definition binds_stored (e : State) (c : Cmd) : Prop :=
  match c with
  | CmdBindVertexBuffers b =>
      exists node mesh entry,
        In node (m_nodes e) /\ m_mesh node = Some mesh
        /\ meshBufferMap e !! addr mesh = Some entry
        /\ b = buffer (vertexBuffer entry)
  | CmdBindIndexBuffer b =>
      exists node mesh entry,
        In node (m_nodes e) /\ m_mesh node = Some mesh
        /\ meshBufferMap e !! addr mesh = Some entry
        /\ b = buffer (indexBuffer entry)
  | _ => True
  end.

(** A buffer-binding command binds a buffer returned by one of the first
    [n] [uploadBuffer] calls: vertex buffers come from the even calls,
    index buffers from the call that follows. *)
Definition binds_uploaded (upload : nat -> AllocatedBuffer) (n : nat) (c : Cmd)
  : Prop :=
  match c with
  | CmdBindVertexBuffers b =>
      exists k, (S k < n)%nat /\ Nat.Even k /\ b = buffer (upload k)
  | CmdBindIndexBuffer b =>
      exists k, (S k < n)%nat /\ Nat.Even k /\ b = buffer (upload (S k))
  | _ => True
  end.

(** [TextureData] and the image [initTexture] creates for one node. *)
Record TextureData := mkTextureData {
  image : Z; tex_allocation : Z; imageView : Z
}.

Definition VK_FORMAT_R8G8B8A8_UNORM : Z := 37.
Definition VK_FORMAT_R8G8B8A8_SRGB : Z := 43.

Record ImageCreate := mkImageCreate {
  staging_size : Z;
  image_format : Z;
  image_width : Z;
  image_height : Z;
  view_format : Z
}.

(** [VkDeviceSize size = texture->width() * texture->height() * 4], in
    [uint32_t] arithmetic. *)
Definition staging_bytes (t : Texture) : Z :=
  wrap32 (wrap32 (m_width t * m_height t) * 4).

(** The loop of [Engine::initTexture]; [fresh k] are the image,
    allocation and view created in iteration [k].  A node without a
    texture makes [texture->width()] dereference null. *)
Fixpoint initTexture_loop (fresh : nat -> TextureData) (nodes : list Node)
         (k : nat) (m : gmap positive TextureData) (log : list ImageCreate)
  : option (gmap positive TextureData * list ImageCreate) :=
  match nodes with
  | [] => Some (m, log)
  | node :: rest =>
      match m_texture node with
      | None => None
      | Some texture =>
          let t := pointee texture in
          let size := staging_bytes t in
          let format := if m_sRGB t then VK_FORMAT_R8G8B8A8_SRGB
                        else VK_FORMAT_R8G8B8A8_UNORM in
          initTexture_loop fresh rest (S k)
            (<[ addr texture := fresh k ]> m)
            (log ++ [mkImageCreate size format (m_width t) (m_height t) format])
      end
  end.

Definition initTexture (fresh : nat -> TextureData) (nodes : list Node)
           (m : gmap positive TextureData)
  : option (gmap positive TextureData * list ImageCreate) :=
  initTexture_loop fresh nodes 0 m [].

(** One image write of [bindTextureDescriptorSet]:
    [dstArrayElement] and [imageView] at binding 1. *)
Record ImageWrite := mkImageWrite { dstArrayElement : Z; write_imageView : Z }.

Definition default_TextureData : TextureData := mkTextureData 0 0 0.

(** The loop of [Engine::bindTextureDescriptorSet], with its two
    assertions: no result when a node has no texture or the view found in
    the map is null.  [textureMap[texture]] inserts a value-initialised
    entry for a missing key, whose view is null. *)
Fixpoint bindTexture_loop (nodes : list Node) (i : nat)
         (m : gmap positive TextureData) (writes : list ImageWrite)
  : option (list ImageWrite) :=
  match nodes with
  | [] => Some writes
  | node :: rest =>
      match m_texture node with
      | None => None
      | Some texture =>
          let textureData := default default_TextureData (m !! addr texture) in
          if imageView textureData =? 0 then None
          else bindTexture_loop rest (S i) m
                 (writes ++ [mkImageWrite (wrap32 (Z.of_nat i))
                                          (imageView textureData)])
      end
  end.

Definition bindTextureDescriptorSet (nodes : list Node)
           (m : gmap positive TextureData) : option (list ImageWrite) :=
  bindTexture_loop nodes 0 m [].

(** The texture address of node [j], when it has one. *)
Definition texture_addr (nodes : list Node) (j : nat) : option positive :=
  match nodes !! j with
  | Some node => option_map addr (m_texture node)
  | None => None
  end.

End Setup.

(** ** engine.cpp: one call of update *)

Module Frame.

Import Glm FrustumCulling NodeModel Engine Resources Setup.
Local Open Scope Z_scope.

(** The calls [update] reaches that are wrapped in [VK_CHECK], which
    throws [std::runtime_error] when the call returns anything but
    [VK_SUCCESS]. *)
Inductive CheckedCall :=
| CreateAcquireSemaphore   (* acquireNextSwapchainImage: vkCreateSemaphore *)
| GetSurfaceCapabilities   (* resize: vkGetPhysicalDeviceSurfaceCapabilitiesKHR *)
| CreateFrameObjects       (* initPerFrame: fence, command pool, command buffer *)
| CopyMemoryToAllocation   (* updateUBO: vmaCopyMemoryToAllocation *)
| BeginCommandBuffer       (* render *)
| EndCommandBuffer         (* render *)
| CreateReleaseSemaphore   (* render: vkCreateSemaphore *)
| QueueSubmit.             (* render *)

(** How a call ends: it returns, an exception leaves it, or it runs into
    undefined behaviour (a null handle or allocation handed to Vulkan or
    VMA, an index past the end of a vector, a null mesh pointer). *)
Inductive Result (A : Type) : Type :=
| Ok (a : A)
| Thrown (call : CheckedCall)
| Undefined.
Arguments Ok {A} _.
Arguments Thrown {A} _.
Arguments Undefined {A}.

Definition bind {A B : Type} (m : Result A) (k : A -> Result B) : Result B :=
  match m with
  | Ok a => k a
  | Thrown call => Thrown call
  | Undefined => Undefined
  end.

Local Notation "x <- m ;; k" := (bind m (fun x => k))
  (at level 100, m at next level, right associativity).

(** The members of [Context] the frame logic works on, besides those of
    [Engine.State]. *)
Record Context := mkContext {
  ctx_swap : Swap;
  ctx_recycled : list Z;       (* recycledSemaphores *)
  colorImages : list Z;
  colorImageViews : list Z
}.

Definition frames_of (c : Context) : Frames :=
  mkFrames (ctx_recycled c) (swap_perFrame (ctx_swap c)).

Definition set_perFrame (s : Swap) (fs : list PerFrame) : Swap :=
  mkSwap (device s) (swapchain s) (swapchainDimensions s)
         (swapchainImages s) (swapchainImageViews s) fs.

Definition with_frames (c : Context) (f : Frames) : Context :=
  mkContext (set_perFrame (ctx_swap c) (perFrame f)) (recycledSemaphores f)
            (colorImages c) (colorImageViews c).

Definition with_swap (c : Context) (s : Swap) : Context :=
  mkContext s (ctx_recycled c) (colorImages c) (colorImageViews c).

(** What the surroundings answer during one call of [update]: the result
    and image index of the k-th [vkAcquireNextImageKHR], the handle the
    k-th [vkCreateSemaphore] returns, the surface extent, the swapchain
    builder's answer and the per-slot handles at the k-th [resize], the
    result of each call made under [VK_CHECK], and the result of
    [vkQueuePresentKHR]. *)
Record Env := mkEnv {
  env_acquire : nat -> VkResult * nat;
  env_semaphore : nat -> Z;
  env_extent : nat -> Z * Z;
  env_build : nat -> option BuiltSwapchain;
  env_handles : nat -> nat -> FrameHandles;
  env_checked : CheckedCall -> VkResult;
  env_present : VkResult
}.

(** [VK_CHECK(call)] *)
Definition checked (env : Env) (call : CheckedCall) : Result unit :=
  if is_success (env_checked env call) then Ok tt else Thrown call.

(** [acquireNextSwapchainImage(&m_context.currentIndex)] as the [k]-th
    call: the result, the image index written, the context afterwards. *)
Definition acquire (env : Env) (k : nat) (c : Context)
  : Result (VkResult * nat * Context) :=
  _ <- match ctx_recycled c with
       | [] => checked env CreateAcquireSemaphore
       | _ :: _ => Ok tt
       end ;;
  let '(res, image) := env_acquire env k in
  match acquireNextSwapchainImage (frames_of c) (env_semaphore env k) res image with
  | None => Undefined
  | Some (res', fs, _) => Ok (res', image, with_frames c fs)
  end.

(** Whether the new swapchain has slots for [initPerFrame] to fill. *)
Definition creates_frames (built : option BuiltSwapchain) : bool :=
  match built with
  | Some b => negb (built_image_count b =? 0)%nat
  | None => false
  end.

(** [Engine::resize] as the [k]-th call, with its checked query and the
    checked creations of [initPerFrame]. *)
Definition resize_surface (env : Env) (k : nat) (c : Context)
  : Result (bool * Context) :=
  if device (ctx_swap c) =? VK_NULL_HANDLE then Ok (false, c)
  else
    _ <- checked env GetSurfaceCapabilities ;;
    let '(ret, s, _) := Resources.resize (ctx_swap c) (env_extent env k)
                                         (env_build env k) (env_handles env k) in
    _ <- (if ret && creates_frames (env_build env k)
          then checked env CreateFrameObjects else Ok tt) ;;
    Ok (ret, with_swap c s).

(** The head of [update]: acquire, and on a stale surface resize and
    acquire a second time.  Yields the last result, the image index, the
    context, the number of [resize] calls made and what was done. *)
Definition acquire_with_retry (env : Env) (c : Context)
  : Result (VkResult * nat * Context * nat * list Event) :=
  first <- acquire env 0 c ;;
  let '(res0, img0, c0) := first in
  if is_stale res0 then
    resized <- resize_surface env 0 c0 ;;
    let '(ret, c1) := resized in
    second <- acquire env 1 c1 ;;
    let '(res1, img1, c2) := second in
    Ok (res1, img1, c2, 1%nat,
        [EvAcquire res0] ++ resize_events ret ++ [EvAcquire res1])
  else Ok (res0, img0, c0, 0%nat, [EvAcquire res0]).

(** [Engine::updateUBO(per_frame)]: the copies go to the allocations of
    the slot; a null allocation is undefined.  The two scene copies come
    first, the copies of the loop only when there is a node. *)
Definition updateUBO (pf : Platform) (env : Env) (fi : FrameInputs) (e : State)
           (per_frame : PerFrame) : Result (State * list UboWrite) :=
  if sceneUniformBufferAllocation per_frame =? VK_NULL_HANDLE then Undefined
  else
    _ <- checked env CopyMemoryToAllocation ;;
    match m_nodes e with
    | [] => Ok (Engine.updateUBO pf fi e)
    | _ :: _ =>
        if (shadowUniformBufferAllocation per_frame =? VK_NULL_HANDLE)
           || (modelUniformBufferAllocation per_frame =? VK_NULL_HANDLE)
        then Undefined
        else Ok (Engine.updateUBO pf fi e)
    end.

(** A recorded binding of a descriptor set of the slot that is null. *)
Definition binds_null (slot : PerFrame) (c : Cmd) : bool :=
  match c with
  | CmdBindDescriptorSets _ (SceneSet _) _ =>
      sceneDescriptorSet slot =? VK_NULL_HANDLE
  | CmdBindDescriptorSets _ (ModelSet _) _ =>
      modelDescriptorSet slot =? VK_NULL_HANDLE
  | CmdBindDescriptorSets _ (ShadowSet _) _ =>
      shadowDescriptorSet slot =? VK_NULL_HANDLE
  | _ => false
  end.

(** [colorImages[i]], [swapchainImages[i]], [colorImageViews[i]] and
    [swapchainImageViews[i]] exist. *)
Definition images_ready (c : Context) (i : nat) : bool :=
  bool_decide (is_Some (colorImages c !! i))
  && bool_decide (is_Some (swapchainImages (ctx_swap c) !! i))
  && bool_decide (is_Some (colorImageViews c !! i))
  && bool_decide (is_Some (swapchainImageViews (ctx_swap c) !! i)).

Definition set_release_semaphore (pf : PerFrame) (s : Z) : PerFrame :=
  mkPerFrame (queue_submit_fence pf) (primary_command_pool pf)
             (primary_command_buffer pf) (swapchain_acquire_semaphore pf) s
             (sceneDescriptorSet pf) (sceneUniformBuffer pf)
             (sceneUniformBufferAllocation pf) (modelDescriptorSet pf)
             (modelUniformBuffer pf) (modelUniformBufferAllocation pf)
             (shadowDescriptorSet pf) (shadowUniformBuffer pf)
             (shadowUniformBufferAllocation pf).

(** The release semaphore of the slot, created on first use; the new
    handle is the third the surroundings hand out. *)
Definition ensure_release_semaphore (env : Env) (slot : PerFrame)
  : Result PerFrame :=
  if swapchain_release_semaphore slot =? VK_NULL_HANDLE then
    _ <- checked env CreateReleaseSemaphore ;;
    Ok (set_release_semaphore slot (env_semaphore env 2))
  else Ok slot.

(** [Engine::render(swapchain_index)]: begin the slot's command buffer,
    record ([Engine.render]), end, submit. *)
Definition render (env : Env) (e : State) (swapchain_index : nat) (c : Context)
  : Result (Recording * Context) :=
  match swap_perFrame (ctx_swap c) !! swapchain_index with
  | None => Undefined
  | Some slot =>
      if primary_command_buffer slot =? VK_NULL_HANDLE then Undefined
      else
        _ <- checked env BeginCommandBuffer ;;
        if negb (images_ready c swapchain_index) then Undefined
        else
          match Engine.render e swapchain_index with
          | None => Undefined
          | Some r =>
              if existsb (binds_null slot) (cmds r) then Undefined
              else
                _ <- checked env EndCommandBuffer ;;
                slot' <- ensure_release_semaphore env slot ;;
                _ <- checked env QueueSubmit ;;
                Ok (r, with_frames c
                         (mkFrames (ctx_recycled c)
                                   (<[ swapchain_index := slot' ]>
                                      (swap_perFrame (ctx_swap c)))))
          end
  end.

(** The tail of [update], after [presentImage] returned [res]: resize on a
    stale surface, log any other failure. *)
Definition after_present (env : Env) (res : VkResult) (resizes : nat)
           (c : Context) : Result (Context * list Event) :=
  if is_stale res then
    resized <- resize_surface env resizes c ;;
    let '(ret, c') := resized in
    Ok (c', resize_events ret)
  else if negb (is_success res) then Ok (c, [EvLogError msg_present_failed])
  else Ok (c, []).

(** [Engine::update].  The result is the engine state and the context
    after the call and what the call did, in order. *)
Definition update (pf : Platform) (env : Env) (fi : FrameInputs) (e : State)
           (c : Context) : Result (State * Context * list Event) :=
  acquired <- acquire_with_retry env c ;;
  let '(res, img, c1, resizes, tr) := acquired in
  let e0 := set_currentIndex e img in
  if negb (is_success res) then Ok (e0, c1, tr ++ [EvQueueWaitIdle])
  else
    let e1 := resize_flags e0 in
    match swap_perFrame (ctx_swap c1) !! currentIndex e1 with
    | None => Undefined
    | Some per_frame =>
        updated <- updateUBO pf env fi e1 per_frame ;;
        let '(e2, writes) := updated in
        rendered <- render env e2 (currentIndex e2) c1 ;;
        let '(r, c2) := rendered in
        let e3 := set_meshBufferMap e2 (rec_map r) in
        let pres := env_present env in
        presented <- after_present env pres resizes c2 ;;
        let '(c3, tail) := presented in
        Ok (e3, c3,
            tr ++ [EvResizeFlags (List.length (m_nodes e0));
                   EvUpdateUBO writes; EvSubmit (cmds r); EvPresent pres]
               ++ tail)
    end.

(** *** Conditions under which a frame is carried through *)

(** Every call made under [VK_CHECK] succeeds. *)
Definition checks_pass (env : Env) : Prop :=
  forall call, env_checked env call = VK_SUCCESS.

Definition nonnull (h : Z) : bool := negb (h =? VK_NULL_HANDLE).

(** The slot has its command buffer, its three uniform allocations and
    its three descriptor sets, as after [initPerFrame], the three uniform
    buffer initialisers and the descriptor set initialisers. *)
Definition slot_ready (slot : PerFrame) : bool :=
  nonnull (primary_command_buffer slot)
  && nonnull (sceneUniformBufferAllocation slot)
  && nonnull (shadowUniformBufferAllocation slot)
  && nonnull (modelUniformBufferAllocation slot)
  && nonnull (sceneDescriptorSet slot)
  && nonnull (modelDescriptorSet slot)
  && nonnull (shadowDescriptorSet slot).

Definition frame_ready (c : Context) (i : nat) : bool :=
  match swap_perFrame (ctx_swap c) !! i with
  | None => false
  | Some slot => slot_ready slot && images_ready c i
  end.

(** Whether [resize] goes on to rebuild: there is a device and the
    surface extent differs from the stored dimensions. *)
Definition resize_rebuilds (c : Context) (extent : Z * Z) : bool :=
  negb (device (ctx_swap c) =? VK_NULL_HANDLE)
  && negb ((fst extent =? dim_width (swapchainDimensions (ctx_swap c)))
           && (snd extent =? dim_height (swapchainDimensions (ctx_swap c)))).

(** What follows the present in the trace. *)
Definition present_tail (env : Env) (c : Context) (resizes : nat) : list Event :=
  if is_stale (env_present env) then
    resize_events (resize_rebuilds c (env_extent env resizes))
  else if negb (is_success (env_present env)) then [EvLogError msg_present_failed]
  else [].

(** *** The stale-surface rule in the design document's words *)

(** "Whenever acquire reports the surface outdated or suboptimal, the
    orchestrator rebuilds the size-dependent resources ..." *)
Definition rebuilds_on_stale (pf : Platform) (env : Env) (fi : FrameInputs)
           (e : State) (c : Context) : Prop :=
  is_stale (fst (env_acquire env 0)) = true ->
  exists e' c' tr, update pf env fi e c = Ok (e', c', tr)
                   /\ In (EvResize true) tr.

(** "... and retries that operation exactly once; ... the loop continues
    rather than crashing": for acquire ... *)
Definition retries_stale_acquire (pf : Platform) (env : Env) (fi : FrameInputs)
           (e : State) (c : Context) : Prop :=
  is_stale (fst (env_acquire env 0)) = true ->
  exists e' c' tr, update pf env fi e c = Ok (e', c', tr)
                   /\ count is_acquire tr = 2%nat.

(** ... and for present. *)
Definition retries_stale_present (pf : Platform) (env : Env) (fi : FrameInputs)
           (e : State) (c : Context) : Prop :=
  forall e' c' tr,
    update pf env fi e c = Ok (e', c', tr) ->
    In (EvPresent (env_present env)) tr ->
    is_stale (env_present env) = true ->
    count is_present tr = 2%nat.

End Frame.

(** Sample contexts, surroundings and the three-node scene. *)
Module FrameSamples.

Import Glm FrustumCulling NodeModel Engine Resources Frame.
Local Open Scope Z_scope.

(** Two slots as the initialisers leave them, in a context of two
    images. *)
Definition ready_slot (i : Z) : PerFrame :=
  mkPerFrame (100 + i) (110 + i) (120 + i) 0 0
             (130 + i) (140 + i) (150 + i)
             (160 + i) (170 + i) (180 + i)
             (190 + i) (200 + i) (210 + i).

Definition sample_context : Context :=
  mkContext (mkSwap 1 2 (mkDims 800 600 44) [31; 32] [41; 42]
                    [ready_slot 0; ready_slot 1])
            [7] [51; 52] [61; 62].

Definition all_succeed (call : CheckedCall) : VkResult := VK_SUCCESS.

(** Surroundings in which every call succeeds and the surface keeps its
    extent. *)
Definition sample_env : Env :=
  mkEnv (fun _ => (VK_SUCCESS, 0%nat)) (fun k => 70 + Z.of_nat k)
        (fun _ => (800, 600)) (fun _ => Some ResourceSamples.sample_built)
        (fun _ => ResourceSamples.sample_handles) all_succeed VK_SUCCESS.

(** Every acquire reports a surface out of date; the surface has a new
    extent. *)
Definition stale_acquire_env : Env :=
  mkEnv (fun _ => (VK_ERROR_OUT_OF_DATE_KHR, 0%nat)) (fun k => 70 + Z.of_nat k)
        (fun _ => (1024, 768)) (fun _ => Some ResourceSamples.sample_built)
        (fun _ => ResourceSamples.sample_handles) all_succeed VK_SUCCESS.

(** The first acquire reports a suboptimal surface whose extent is the
    stored one; the second acquire succeeds. *)
Definition same_extent_env : Env :=
  mkEnv (fun k => match k with
                  | O => (VK_SUBOPTIMAL_KHR, 0%nat)
                  | _ => (VK_SUCCESS, 0%nat)
                  end)
        (fun k => 70 + Z.of_nat k)
        (fun _ => (800, 600)) (fun _ => Some ResourceSamples.sample_built)
        (fun _ => ResourceSamples.sample_handles) all_succeed VK_SUCCESS.

(** Present reports a surface out of date. *)
Definition stale_present_env : Env :=
  mkEnv (fun _ => (VK_SUCCESS, 0%nat)) (fun k => 70 + Z.of_nat k)
        (fun _ => (1024, 768)) (fun _ => Some ResourceSamples.sample_built)
        (fun _ => ResourceSamples.sample_handles) all_succeed
        VK_ERROR_OUT_OF_DATE_KHR.

(** The first acquire reports a surface out of date and the query of the
    surface capabilities fails (the surface is lost). *)
Definition lost_surface_env : Env :=
  mkEnv (fun _ => (VK_ERROR_OUT_OF_DATE_KHR, 0%nat)) (fun k => 70 + Z.of_nat k)
        (fun _ => (1024, 768)) (fun _ => Some ResourceSamples.sample_built)
        (fun _ => ResourceSamples.sample_handles)
        (fun call => match call with
                     | GetSurfaceCapabilities => VK_OTHER (-1000000000)
                     | _ => VK_SUCCESS
                     end)
        VK_SUCCESS.

(** The first acquire reports a surface out of date, the surface has a
    new extent, the swapchain is rebuilt and the second acquire
    succeeds. *)
Definition rebuilt_env : Env :=
  mkEnv (fun k => match k with
                  | O => (VK_ERROR_OUT_OF_DATE_KHR, 0%nat)
                  | _ => (VK_SUCCESS, 0%nat)
                  end)
        (fun k => 70 + Z.of_nat k)
        (fun _ => (1024, 768)) (fun _ => Some ResourceSamples.sample_built)
        (fun _ => ResourceSamples.sample_handles) all_succeed VK_SUCCESS.

Local Open Scope R_scope.

(** A view-projection that only moves the scene: the frustum is the box
    [-1,1]^3 shifted back by the translation. *)
Definition translate4 (t : vec3) : mat4 :=
  mkMat4 (mkVec4 1 0 0 0) (mkVec4 0 1 0 0) (mkVec4 0 0 1 0)
         (mkVec4 (vx t) (vy t) (vz t) 1).

(** Three nodes with unit spheres on the x axis, two meshes, and a camera
    whose box is the light's box moved by two: node 0 is seen by the
    camera only, node 1 by both, node 2 by the light only. *)
Definition mesh_a : shared_ptr Mesh :=
  mkShared 1%positive (mkMesh Samples.sample_vertices [0; 1; 2]%Z).

Definition mesh_b : shared_ptr Mesh :=
  mkShared 2%positive (mkMesh Samples.sample_vertices [0; 1; 2; 2; 1; 0]%Z).

Definition scene_node (x : R) (mesh : shared_ptr Mesh) : Node :=
  mkNode weak_empty (mkVec3 x 0 0) (mkQuat 1 0 0 0) (Some mesh) None
         (mkSphere zero3 1).

Definition scene_nodes : list Node :=
  [scene_node 3 mesh_a; scene_node 1 mesh_b; scene_node (-1) mesh_a].

Definition scene_map : gmap positive MeshData :=
  {[ 1%positive := mkMeshData (mkAllocatedBuffer 10 1) (mkAllocatedBuffer 11 2);
     2%positive := mkMeshData (mkAllocatedBuffer 20 3) (mkAllocatedBuffer 21 4) ]}.

Definition scene_state : State :=
  mkState scene_nodes [] [] scene_map 256 256 256 8192 8192 0.

Definition scene_inputs : FrameInputs :=
  mkFrameInputs (translate4 zero3) Samples.identity4
                (translate4 (mkVec3 (-2) 0 0)) Samples.identity4
                (mkVec3 1 1 1) (mkVec3 1 1 1) 1 (/ 10).

End FrameSamples.

(** Concrete matrices used in the examples. *)
Module CullingSamples.

Import Glm.
Local Open Scope R_scope.

Definition doubled_identity : mat4 :=
  mkMat4 (mkVec4 2 0 0 0) (mkVec4 0 2 0 0) (mkVec4 0 0 2 0) (mkVec4 0 0 0 2).

End CullingSamples.

(** A one-node scene after [initVertexBuffer], with both flags set. *)
Module SetupSamples.

Import Engine.
Local Open Scope Z_scope.

Definition uploaded_state : State :=
  mkState [Samples.sample_public] [true] [true]
          {[ 1%positive := mkMeshData (mkAllocatedBuffer 10 1)
                                      (mkAllocatedBuffer 11 1) ]}
          256 256 256 8192 8192 0.

End SetupSamples.

(** Three nodes, the first and the last sharing one texture. *)
Module TextureSamples.

Import NodeModel Setup.
Local Open Scope Z_scope.

Definition brick : shared_ptr Texture := mkShared 5%positive (mkTexture 4 4 true).
Definition plain : shared_ptr Texture := mkShared 6%positive (mkTexture 4 4 false).

Definition textured_nodes : list Node :=
  [Node_new Samples.sample_mesh (Some brick);
   Node_new Samples.sample_mesh (Some plain);
   Node_new Samples.sample_mesh (Some brick)].

Definition fresh_texture (k : nat) : TextureData :=
  mkTextureData (100 + Z.of_nat k) (200 + Z.of_nat k) (300 + Z.of_nat k).

End TextureSamples.

(** ** The fragment shader *)

Module Shader.

Import Glm.
Local Open Scope R_scope.










End Shader.

(** A lit, half-shadowed fragment. *)
Module ShaderSamples.

Import Glm Shader.
Local Open Scope R_scope.



End ShaderSamples.

(** ** engine.cpp: the main loop *)

Module MainLoop.

Import Glm CameraModel.
Local Open Scope Z_scope.

(** What [mainLoop] and the camera distinguish in an [SDL_Event]. *)
Inductive LoopEvent :=
| EvQuit
| EvKeyDown (key : Z)
| EvWindowResized
| EvMouseMotion (xrel yrel : R)
| EvOther.

Definition SDLK_ESCAPE : Z := 27.

Definition camera_event (e : LoopEvent) : SDL_Event :=
  match e with
  | EvMouseMotion xrel yrel => MouseMotion xrel yrel
  | _ => OtherEvent
  end.

(** One pass of the outer loop sees the tick count, the events queued at
    that time and the keyboard state. *)
Record Tick := mkTick { ticks : Z; events : list LoopEvent; keys : Keys }.

Record LoopState := mkLoop { running : bool; lastTicks : Z; m_camera : Camera }.

Inductive LoopCall :=
| CallUpdate (camera : Camera)
| CallDeviceWaitIdle.

(** [while (SDL_PollEvent(&event)) { ... }] *)
Fixpoint poll (evs : list LoopEvent) (running : bool) (cam : Camera)
  : bool * Camera :=
  match evs with
  | [] => (running, cam)
  | event :: rest =>
      let running := match event with EvQuit => false | _ => running end in
      let running := match event with
                     | EvKeyDown key => if key =? SDLK_ESCAPE then false
                                        else running
                     | _ => running
                     end in
      poll rest running (handleMouseEvent cam (camera_event event))
  end.

(** The body of [while (running)]. *)
Definition iteration (t : Tick) (s : LoopState) : LoopState * list LoopCall :=
  let '(running, cam) := poll (events t) (running s) (m_camera s) in
  let cam :=
    if negb (lastTicks s =? 0) then
      let df := (IZR (Engine.wrap64 (ticks t - lastTicks s)) / 1000)%R in
      updateCameraMovement cam (keys t) df
    else cam in
  (mkLoop running (ticks t) cam, [CallUpdate cam]).

(** [Engine::mainLoop] fed with the passes in [input]; [None] when the
    loop is still running after the last of them. *)
Fixpoint mainLoop_from (input : list Tick) (s : LoopState)
         (trace : list LoopCall) : option (LoopState * list LoopCall) :=
  if running s then
    match input with
    | [] => None
    | t :: rest =>
        let '(s', calls) := iteration t s in
        mainLoop_from rest s' (trace ++ calls)
    end
  else Some (s, trace ++ [CallDeviceWaitIdle]).

Definition mainLoop (input : list Tick) (cam : Camera)
  : option (LoopState * list LoopCall) :=
  mainLoop_from input (mkLoop true 0 cam) [].

(** The loop state after a run of passes. *)
Definition run_passes (passes : list Tick) (s : LoopState) : LoopState :=
  fold_left (fun s t => fst (iteration t s)) passes s.

(** The calls made by a run of passes. *)
Fixpoint run_calls (passes : list Tick) (s : LoopState) : list LoopCall :=
  match passes with
  | [] => []
  | t :: rest => snd (iteration t s) ++ run_calls rest (fst (iteration t s))
  end.

Definition requests_quit (e : LoopEvent) : bool :=
  match e with
  | EvQuit => true
  | EvKeyDown key => key =? SDLK_ESCAPE
  | _ => false
  end.

Definition is_update (c : LoopCall) : Prop :=
  match c with CallUpdate _ => True | CallDeviceWaitIdle => False end.

End MainLoop.

(** Two passes, the second holding a quit event followed by a mouse
    motion, and a pass that is never reached. *)
Module LoopSamples.

Import CameraModel MainLoop.
Local Open Scope Z_scope.

Definition no_keys : Keys := mkKeys false false false false.

Definition quiet_pass : Tick := mkTick 16 [EvMouseMotion 1 1; EvKeyDown 32] no_keys.
Definition quit_pass : Tick := mkTick 33 [EvQuit; EvMouseMotion 2 0] no_keys.
Definition late_pass : Tick := mkTick 50 [EvMouseMotion 5 5] no_keys.

End LoopSamples.

(** ** texture.cpp *)

Module TextureModel.

Import NodeModel Primitives.
Local Open Scope Z_scope.

(** What [stbi_load] hands back: the out-parameters and the buffer.
    [nComponents] reports the channels of the file; the buffer itself
    has the number of channels that was asked for (see [stbi_rgba]). *)
Record Loaded := mkLoaded {
  ld_width : Z; ld_height : Z; ld_nComponents : Z; ld_data : list Z
}.

(** The answers [stbi_load(..., STBI_rgb_alpha)] can give: the sizes are
    those of an image and the buffer holds four bytes per pixel, whatever
    [nComponents] reports. *)
Definition stbi_rgba (l : Loaded) : Prop :=
  0 <= ld_width l < 2 ^ 31 /\ 0 <= ld_height l < 2 ^ 31
  /\ Z.of_nat (List.length (ld_data l)) = 4 * (ld_width l * ld_height l).

(** A [Texture] object with its pixel vector. *)
Record TextureObj := mkTextureObj {
  t_width : Z; t_height : Z; t_sRGB : bool; m_pixels : list Z
}.

Inductive Outcome :=
| Ok (t : TextureObj)
| Thrown
| Undefined.

(** An [int] result that does not overflow. *)
Definition int_ok (z : Z) : bool := (- 2 ^ 31 <=? z) && (z <? 2 ^ 31).

(** [data[i]] and [m_pixels[i] = v]; out of range there is no result. *)
Definition load (data : list Z) (i : Z) : option Z := data !! Z.to_nat i.

Definition store (pixels : list Z) (i v : Z) : option (list Z) :=
  if i <? Z.of_nat (List.length pixels) then Some (<[ Z.to_nat i := v ]> pixels)
  else None.

(** The body of the inner loop of the three-component branch. *)
Definition expand_pixel (data : list Z) (width x y : Z) (pixels : list Z)
  : option (list Z) :=
  if negb (int_ok ((x + y * width) * 4)) then None
  else
    let src := to_u64 ((x + y * width) * 3) in
    let dst := to_u64 ((x + y * width) * 4) in
    if negb (dst <? Z.of_nat (List.length pixels)) then None
    else
      r ← load data (src + 0);
      p ← store pixels (dst + 0) r;
      g ← load data (src + 1);
      p ← store p (dst + 1) g;
      b ← load data (src + 2);
      p ← store p (dst + 2) b;
      store p (dst + 3) 255.

(** [for (int x = 0; x < width; ++x)], [n] iterations from [x]. *)
Fixpoint row_loop (data : list Z) (width y x : Z) (n : nat) (pixels : list Z)
  : option (list Z) :=
  match n with
  | O => Some pixels
  | S k =>
      match expand_pixel data width x y pixels with
      | None => None
      | Some p => row_loop data width y (x + 1) k p
      end
  end.

(** [for (int y = 0; y < height; ++y)], [n] iterations from [y]. *)
Fixpoint rows_loop (data : list Z) (width y : Z) (n : nat) (pixels : list Z)
  : option (list Z) :=
  match n with
  | O => Some pixels
  | S k =>
      match row_loop data width y 0 (Z.to_nat width) pixels with
      | None => None
      | Some p => rows_loop data width (y + 1) k p
      end
  end.

(** [Texture::Texture(filename, sRGB)] on the answer of [stbi_load]
    ([None] for a null pointer).  [width * height * 4] is an [int]
    product; a negative size makes [resize] throw. *)
Definition Texture_from_file (loaded : option Loaded) (sRGB : bool) : Outcome :=
  match loaded with
  | None => Thrown
  | Some l =>
      let width := ld_width l in
      let height := ld_height l in
      let len := width * height * 4 in
      if ld_nComponents l =? 3 then
        if negb (int_ok (width * height) && int_ok len) then Undefined
        else if len <? 0 then Thrown
        else
          match rows_loop (ld_data l) width 0 (Z.to_nat height)
                          (replicate (Z.to_nat len) 0) with
          | None => Undefined
          | Some pixels =>
              Ok (mkTextureObj (to_u32 width) (to_u32 height) sRGB pixels)
          end
      else if ld_nComponents l =? 4 then
        if negb (int_ok (width * height) && int_ok len) then Undefined
        else if len <? 0 then Thrown
        else if Z.of_nat (List.length (ld_data l)) <? len then Undefined
        else Ok (mkTextureObj (to_u32 width) (to_u32 height) sRGB
                              (take (Z.to_nat len) (ld_data l)))
      else Thrown
  end.

(** The view of a texture the engine works with. *)
Definition as_texture (t : TextureObj) : Texture :=
  mkTexture (t_width t) (t_height t) (t_sRGB t).

(** Byte [c] of pixel [p] in a buffer of [n] bytes per pixel. *)
Definition channel (bytes : list Z) (n p c : Z) : option Z :=
  bytes !! Z.to_nat (n * p + c).

(** The first [done] pixels of [pixels] are those of [data] with an
    opaque alpha byte added. *)
Definition expanded (data pixels : list Z) (done : Z) : Prop :=
  forall p, 0 <= p < done ->
    channel pixels 4 p 0 = channel data 3 p 0
    /\ channel pixels 4 p 1 = channel data 3 p 1
    /\ channel pixels 4 p 2 = channel data 3 p 2
    /\ channel pixels 4 p 3 = Some 255.

End TextureModel.

(** A two-by-one image whose file has three components per pixel, as
    [stbi_load] returns it: two opaque pixels of four bytes. *)
Module TextureFileSamples.

Import TextureModel.
Local Open Scope Z_scope.

Definition rgb_file : Loaded :=
  mkLoaded 2 1 3 [10; 20; 30; 255; 40; 50; 60; 255].

End TextureFileSamples.

(** * Properties *)

(** ** Frustum extraction and the sphere test *)

Section CullingFacts.

Import Glm FrustumCulling.
Local Open Scope R_scope.

Lemma dot_self_nonneg (a : vec3) : 0 <= dot a a.
Proof. unfold dot. nra. Qed.

Lemma length_nonneg (a : vec3) : 0 <= length a.
Proof. apply sqrt_pos. Qed.

Lemma length_sqr (a : vec3) : length a * length a = dot a a.
Proof. apply sqrt_sqrt, dot_self_nonneg. Qed.

Lemma length_zero_inv (a : vec3) : length a = 0 -> a = zero3.
Proof.
  intros H. apply sqrt_eq_0 in H; [|apply dot_self_nonneg].
  destruct a as [x y z]. unfold dot in H. simpl in H.
  assert (x = 0) by nra. assert (y = 0) by nra. assert (z = 0) by nra.
  subst. reflexivity.
Qed.

Lemma length_pos (a : vec3) : a <> zero3 -> 0 < length a.
Proof.
  intros Ha. destruct (length_nonneg a) as [H|H]; [exact H|].
  exfalso. apply Ha, length_zero_inv. symmetry. exact H.
Qed.

Lemma normalized_unit (p : Plane) :
  normal p <> zero3 -> length (normal (normalize_plane p)) = 1.
Proof.
  intros Hn. pose proof (length_pos _ Hn) as Hl.
  pose proof (length_sqr (normal p)) as Hs.
  unfold normalize_plane. cbn [normal].
  set (l := length (normal p)) in *.
  unfold length at 1. unfold div3, dot. cbn [vx vy vz].
  replace (_ + _ + _) with (dot (normal p) (normal p) / (l * l)).
  - rewrite <- Hs. rewrite <- sqrt_1. f_equal. field. lra.
  - unfold dot. field. lra.
Qed.

Lemma extractFrustum_planes (vp : mat4) (i : nat) :
  planes (extractFrustum vp) i = normalize_plane (planes (extract_raw vp) i).
Proof.
  do 6 (destruct i as [|i]; [reflexivity|]). reflexivity.
Qed.

Lemma extract_raw_spec (vp : mat4) (i : nat) :
  planes (extract_raw vp) i = spec_plane vp i.
Proof.
  do 6 (destruct i as [|i]; [reflexivity|]). reflexivity.
Qed.

Lemma normalize_plane_spec (p : Plane) : normalize_plane p = spec_normalized p.
Proof. reflexivity. Qed.

Lemma sphere_loop_false (f : Frustum) (bs : BoundingSphere) (n i : nat) :
  sphere_loop f bs i n = false <->
  exists j, (i <= j < i + n)%nat /\
            plane_distance (planes f j) (center bs) < - radius bs.
Proof.
  revert i. induction n as [|n IH]; intros i; simpl.
  - split; [discriminate|]. intros (j & Hj & _). lia.
  - destruct (Rlt_dec _ _) as [Hlt|Hge].
    + split; [|reflexivity]. intros _. exists i. split; [lia|exact Hlt].
    + rewrite IH. split.
      * intros (j & Hj & Hd). exists j. split; [lia|exact Hd].
      * intros (j & Hj & Hd). exists j. split; [|exact Hd].
        destruct (Nat.eq_dec j i) as [->|Hne]; [contradiction|lia].
Qed.

End CullingFacts.

Section CullingTheorems.

Import Glm FrustumCulling Samples.
Local Open Scope R_scope.

(** C2. [sphereInFrustum] returns false exactly when one of the six planes
    has the sphere centre at signed distance strictly below [-radius].
    Hence a plane the sphere is tangent to (distance equal to [-radius])
    does not reject it: the sphere is reported visible as long as no other
    plane rejects it; and a sphere (radius non-negative) whose centre is at
    distance at least [radius] from every plane is reported visible. *)
Theorem sphereInFrustum_spec (f : Frustum) (bs : BoundingSphere) :
  (sphereInFrustum f bs = false <->
   exists i, (i < 6)%nat /\
             plane_distance (planes f i) (center bs) < - radius bs)
  /\ (forall j, (j < 6)%nat ->
        plane_distance (planes f j) (center bs) = - radius bs ->
        (forall i, (i < 6)%nat -> i <> j ->
           ~ plane_distance (planes f i) (center bs) < - radius bs) ->
        sphereInFrustum f bs = true)
  /\ (0 <= radius bs ->
      (forall i, (i < 6)%nat ->
         radius bs <= plane_distance (planes f i) (center bs)) ->
      sphereInFrustum f bs = true).
Proof.
  assert (Hiff : sphereInFrustum f bs = false <->
                 exists i, (i < 6)%nat /\
                   plane_distance (planes f i) (center bs) < - radius bs).
  { unfold sphereInFrustum. rewrite sphere_loop_false. split.
    - intros (j & Hj & Hd). exists j. split; [lia|exact Hd].
    - intros (j & Hj & Hd). exists j. split; [lia|exact Hd]. }
  split; [exact Hiff|]. split.
  - intros j Hj Htan Hothers.
    destruct (sphereInFrustum f bs) eqn:E; [reflexivity|].
    destruct (proj1 Hiff eq_refl) as (i & Hi & Hd).
    destruct (Nat.eq_dec i j) as [->|Hne].
    + lra.
    + exfalso. exact (Hothers i Hi Hne Hd).
  - intros Hr Hall.
    destruct (sphereInFrustum f bs) eqn:E; [reflexivity|].
    destruct (proj1 Hiff eq_refl) as (i & Hi & Hd).
    specialize (Hall i Hi). lra.
Qed.

Lemma sphereInFrustum_spec_witness :
  sphereInFrustum box_frustum tangent_sphere = true.
Proof.
  apply (proj1 (proj2 (sphereInFrustum_spec box_frustum tangent_sphere)) 1%nat).
  - lia.
  - unfold plane_distance, dot. simpl. lra.
  - intros i Hi Hne.
    do 6 (destruct i as [|i];
          [try congruence; unfold plane_distance, dot; simpl; lra|]).
    lia.
Defined.

(** C3. [extractFrustum] returns the six planes in the order left, right,
    bottom, top, near, far; before normalisation plane [i] is the stated
    sum or difference of matrix rows, and each returned plane is that
    plane with normal and [d] divided by the length of the normal, so that
    whenever the six normals are non-zero the returned normals have length
    one. *)
Theorem extractFrustum_spec (vp : mat4) :
  (forall i, (i < 6)%nat -> planes (extract_raw vp) i = spec_plane vp i)
  /\ extractFrustum vp =
     mkFrustum (spec_normalized (spec_plane vp 0))
               (spec_normalized (spec_plane vp 1))
               (spec_normalized (spec_plane vp 2))
               (spec_normalized (spec_plane vp 3))
               (spec_normalized (spec_plane vp 4))
               (spec_normalized (spec_plane vp 5))
  /\ ((forall i, (i < 6)%nat -> normal (spec_plane vp i) <> zero3) ->
      forall i, (i < 6)%nat ->
        length (normal (planes (extractFrustum vp) i)) = 1).
Proof.
  split; [|split].
  - intros i _. apply extract_raw_spec.
  - reflexivity.
  - intros Hnz i Hi.
    rewrite extractFrustum_planes. apply normalized_unit.
    rewrite extract_raw_spec. exact (Hnz i Hi).
Qed.

Lemma extractFrustum_spec_witness :
  length (normal (pLeft (extractFrustum identity4))) = 1
  /\ length (normal (pRight (extractFrustum identity4))) = 1
  /\ length (normal (pBottom (extractFrustum identity4))) = 1
  /\ length (normal (pTop (extractFrustum identity4))) = 1
  /\ length (normal (pNear (extractFrustum identity4))) = 1
  /\ length (normal (pFar (extractFrustum identity4))) = 1.
Proof.
  assert (Hnz : forall i, (i < 6)%nat -> normal (spec_plane identity4 i) <> zero3).
  { intros i Hi.
    do 6 (destruct i as [|i];
          [intros H; apply (f_equal (fun v => vx v + vy v + vz v)) in H;
           simpl in H; lra|]).
    lia. }
  pose proof (proj2 (proj2 (extractFrustum_spec identity4)) Hnz) as Hunit.
  repeat split.
  - exact (Hunit 0%nat ltac:(lia)).
  - exact (Hunit 1%nat ltac:(lia)).
  - exact (Hunit 2%nat ltac:(lia)).
  - exact (Hunit 3%nat ltac:(lia)).
  - exact (Hunit 4%nat ltac:(lia)).
  - exact (Hunit 5%nat ltac:(lia)).
Defined.

End CullingTheorems.

(** ** The per-node uniform stride *)

Section StrideFacts.

Import Engine.
Local Open Scope Z_scope.

Lemma wrap64_small (z : Z) : 0 <= z < 2 ^ 64 -> wrap64 z = z.
Proof. intros H. unfold wrap64. apply Z.mod_small. exact H. Qed.

Lemma wrap32_small (z : Z) : 0 <= z < 2 ^ 32 -> wrap32 z = z.
Proof. intros H. unfold wrap32. apply Z.mod_small. exact H. Qed.

(** Masking with the 64-bit complement of [2^k - 1] clears the low [k]
    bits. *)
Lemma land_not_ones (x k : Z) :
  0 <= x < 2 ^ 64 -> 0 <= k ->
  Z.land x (wrap64 (Z.lnot (2 ^ k - 1))) = x / 2 ^ k * 2 ^ k.
Proof.
  intros Hx Hk. unfold wrap64.
  rewrite <- Z.land_ones by lia.
  rewrite (Z.land_comm (Z.lnot _)), Z.land_assoc.
  rewrite (Z.land_ones x 64) by lia.
  rewrite (Z.mod_small x) by exact Hx.
  rewrite <- Z.ldiff_land.
  replace (2 ^ k - 1) with (Z.ones k) by (rewrite Z.ones_equiv; lia).
  rewrite Z.ldiff_ones_r by exact Hk.
  rewrite Z.shiftr_div_pow2, Z.shiftl_mul_pow2 by exact Hk.
  reflexivity.
Qed.

(** A multiple of [2^k] below [2^64] leaves room for one more [2^k]. *)
Lemma multiple_room (q k : Z) :
  0 <= k < 64 -> q * 2 ^ k < 2 ^ 64 -> q * 2 ^ k + 2 ^ k <= 2 ^ 64.
Proof.
  intros Hk Hq.
  assert (Hp : 0 < 2 ^ k) by (apply Z.pow_pos_nonneg; lia).
  replace (2 ^ 64) with (2 ^ (64 - k) * 2 ^ k) in *
    by (rewrite <- Z.pow_add_r by lia; f_equal; lia).
  assert (q < 2 ^ (64 - k)) by nia.
  nia.
Qed.

Lemma aligned_value (s k : Z) :
  0 <= s < 2 ^ 64 -> 0 <= k < 64 ->
  (s + 2 ^ k - 1) / 2 ^ k * 2 ^ k < 2 ^ 64 ->
  minDynamicUBOAlignment (2 ^ k) s = (s + 2 ^ k - 1) / 2 ^ k * 2 ^ k.
Proof.
  intros Hs Hk Hrep.
  assert (Hp : 0 < 2 ^ k) by (apply Z.pow_pos_nonneg; lia).
  assert (Hpk : 2 ^ k < 2 ^ 64) by (apply Z.pow_lt_mono_r; lia).
  pose proof (multiple_room _ _ Hk Hrep) as Hroom.
  pose proof (Z.mul_div_le (s + 2 ^ k - 1) (2 ^ k) Hp) as Hle.
  pose proof (Z.mul_succ_div_gt (s + 2 ^ k - 1) (2 ^ k) Hp) as Hgt.
  unfold minDynamicUBOAlignment.
  destruct (Z.ltb_spec 0 (2 ^ k)) as [_|Hbad]; [|lia].
  assert (Hsum : wrap64 (wrap64 (s + 2 ^ k) - 1) = s + 2 ^ k - 1).
  { unfold wrap64. rewrite Zminus_mod_idemp_l.
    apply Z.mod_small. nia. }
  rewrite Hsum.
  rewrite (wrap64_small (2 ^ k - 1)) by lia.
  apply land_not_ones; [nia|lia].
Qed.

End StrideFacts.

Section StrideTheorems.

Import Engine.
Local Open Scope Z_scope.

(** C7. For a struct size [s] and a device alignment [a = 2^k], the stride
    computed by [minDynamicUBOAlignment] is [ceil(s / a) * a], the least
    multiple of [a] that is at least [s] (whenever that multiple is a
    [size_t] value); for a reported alignment of zero the stride is [s]. *)
Theorem minDynamicUBOAlignment_spec (s k : Z) :
  0 <= s < 2 ^ 64 -> 0 <= k < 64 ->
  (s + 2 ^ k - 1) / 2 ^ k * 2 ^ k < 2 ^ 64 ->
  let a := 2 ^ k in
  let stride := minDynamicUBOAlignment a s in
  minDynamicUBOAlignment 0 s = s
  /\ stride = (s + a - 1) / a * a
  /\ (a | stride)
  /\ s <= stride
  /\ (forall m, (a | m) -> s <= m -> stride <= m).
Proof.
  intros Hs Hk Hrep a stride.
  assert (Hp : 0 < a) by (apply Z.pow_pos_nonneg; lia).
  assert (Hv : stride = (s + a - 1) / a * a) by (apply aligned_value; assumption).
  pose proof (Z.mul_div_le (s + a - 1) a Hp) as Hle.
  pose proof (Z.mul_succ_div_gt (s + a - 1) a Hp) as Hgt.
  split; [reflexivity|]. split; [exact Hv|]. rewrite Hv. split; [|split].
  - exists ((s + a - 1) / a). reflexivity.
  - nia.
  - intros m [j ->] Hm.
    assert ((s + a - 1) / a < j + 1); [|nia].
    apply Z.div_lt_upper_bound; [exact Hp|]. nia.
Qed.

Lemma minDynamicUBOAlignment_spec_witness :
  minDynamicUBOAlignment 0 132 = 132
  /\ minDynamicUBOAlignment 256 132 = 256
  /\ (256 | minDynamicUBOAlignment 256 132)
  /\ 132 <= minDynamicUBOAlignment 256 132
  /\ (forall m, (256 | m) -> 132 <= m -> minDynamicUBOAlignment 256 132 <= m).
Proof.
  pose proof (minDynamicUBOAlignment_spec 132 8) as H.
  cbv zeta in H. change (2 ^ 8) with 256 in H.
  change ((132 + 256 - 1) / 256 * 256) with 256 in H.
  apply H; lia.
Defined.

End StrideTheorems.

(** ** Node transforms *)

Section NodeFacts.

Import Glm FrustumCulling NodeModel.
Local Open Scope R_scope.

Lemma apply_op_parent (n : Node) (op : NodeOp) :
  m_parent (apply_op n op) = m_parent n.
Proof. destruct op; reflexivity. Qed.

Lemma public_parent_empty (n : Node) : public_node n -> m_parent n = weak_empty.
Proof.
  induction 1 as [| |n op _ IH]; [reflexivity|reflexivity|].
  rewrite apply_op_parent. exact IH.
Qed.

Lemma worldMatrix_unfold (n : Node) :
  worldMatrix n =
  match lock (m_parent n) with
  | Some r => mul (worldMatrix r) (localMatrix n)
  | None => localMatrix n
  end.
Proof. destruct n as [[| |r] p q ms t bs]; reflexivity. Qed.

Lemma translation_localMatrix (n : Node) : translation (localMatrix n) = m_pos n.
Proof. destruct n as [w [x y z] q ms t bs]. reflexivity. Qed.

(** Entry by entry, [mul] is the matrix product. *)
Lemma mul_entry (a b : mat4) (c r : nat) :
  (c < 4)%nat -> (r < 4)%nat ->
  at_ (mul a b) c r
  = at_ a 0 r * at_ b c 0 + at_ a 1 r * at_ b c 1
    + at_ a 2 r * at_ b c 2 + at_ a 3 r * at_ b c 3.
Proof.
  intros Hc Hr.
  do 4 (destruct c as [|c];
        [do 4 (destruct r as [|r]; [reflexivity|]); lia|]).
  lia.
Qed.

Lemma localMatrix_affine (n : Node) : affine (localMatrix n).
Proof. repeat split; reflexivity. Qed.

Lemma transform_point_mul (a b : mat4) (p : vec3) :
  affine b ->
  transform_point (mul a b) p = transform_point a (transform_point b p).
Proof.
  destruct b as [[b00 b01 b02 b03] [b10 b11 b12 b13]
                 [b20 b21 b22 b23] [b30 b31 b32 b33]].
  unfold affine, at_. simpl. intros (-> & -> & -> & ->).
  unfold transform_point, mul, mul_col, row, dot4, at_. simpl.
  f_equal; ring.
Qed.

Lemma mat4_cast_rotates (q : quat) (p : vec3) :
  unit_quat q -> transform_point (mat4_cast q) p = rotate_by_quat q p.
Proof.
  unfold unit_quat. intros Hq.
  set (s := qw q * qw q + qx q * qx q + qy q * qy q + qz q * qz q) in Hq.
  unfold transform_point, mat4_cast, rotate_by_quat, quat_mul, quat_conj,
    mul_col, row, dot4, at_. simpl.
  f_equal; apply Rminus_diag_uniq.
  - transitivity (vx p * (1 - s)); [unfold s; ring|rewrite Hq; ring].
  - transitivity (vy p * (1 - s)); [unfold s; ring|rewrite Hq; ring].
  - transitivity (vz p * (1 - s)); [unfold s; ring|rewrite Hq; ring].
Qed.

Lemma updateUBO_loop_nodes pf svp cvp (n i : nat) (e : Engine.State) log :
  Engine.m_nodes (fst (Engine.updateUBO_loop pf svp cvp i n e log)) = Engine.m_nodes e.
Proof.
  revert i e log. induction n as [|n IH]; intros i e log; simpl; [reflexivity|].
  destruct (Engine.m_nodes e !! i) as [node|]; [|reflexivity].
  rewrite IH. reflexivity.
Qed.

Lemma updateUBO_nodes pf fi (e : Engine.State) :
  Engine.m_nodes (fst (Engine.updateUBO pf fi e)) = Engine.m_nodes e.
Proof. apply updateUBO_loop_nodes. Qed.

End NodeFacts.

Section NodeTheorems.

Import Glm FrustumCulling NodeModel Samples.
Local Open Scope R_scope.

(** C5. [localMatrix()] is the rotation matrix of the orientation
    quaternion with the position (and a final 1) written into the last
    column: it sends a point to its rotated image moved by the position,
    and for a unit quaternion [q] the rotated image of [v] is the vector
    part of [q * (0, v) * conj q].  [worldMatrix()] is the parent's world
    matrix times the local matrix when the weak parent reference locks,
    and the local matrix alone when it is empty or expired; it is a total
    function, no error arises.  In particular a child of a live parent
    has [worldMatrix child = worldMatrix parent * localMatrix child]:
    entry (row r, column c) of the child's world matrix is the sum over k
    of the parent's entry (r, k) times the local entry (k, c), and
    transforming a point by the child's world matrix is transforming it
    by the local matrix and then by the parent's world matrix. *)
Theorem worldMatrix_spec (n : Node) :
  (forall c r, (c < 3)%nat ->
     at_ (localMatrix n) c r = at_ (mat4_cast (m_quat n)) c r)
  /\ col3 (localMatrix n) = mkVec4 (vx (m_pos n)) (vy (m_pos n)) (vz (m_pos n)) 1
  /\ (forall parent, lock (m_parent n) = Some parent ->
        worldMatrix n = mul (worldMatrix parent) (localMatrix n))
  /\ (lock (m_parent n) = None -> worldMatrix n = localMatrix n)
  /\ (m_parent n = weak_empty \/ m_parent n = weak_expired ->
      worldMatrix n = localMatrix n)
  /\ (forall parent, lock (m_parent n) = Some parent ->
      forall c r, (c < 4)%nat -> (r < 4)%nat ->
        at_ (worldMatrix n) c r
        = at_ (worldMatrix parent) 0 r * at_ (localMatrix n) c 0
          + at_ (worldMatrix parent) 1 r * at_ (localMatrix n) c 1
          + at_ (worldMatrix parent) 2 r * at_ (localMatrix n) c 2
          + at_ (worldMatrix parent) 3 r * at_ (localMatrix n) c 3)
  /\ (forall parent, lock (m_parent n) = Some parent ->
      forall p, transform_point (worldMatrix n) p
                = transform_point (worldMatrix parent)
                                  (transform_point (localMatrix n) p))
  /\ (forall p, transform_point (localMatrix n) p
                = add3 (transform_point (mat4_cast (m_quat n)) p) (m_pos n))
  /\ (unit_quat (m_quat n) ->
      forall p, transform_point (mat4_cast (m_quat n)) p
                = rotate_by_quat (m_quat n) p).
Proof.
  split; [|split; [|split; [|split; [|split; [|split; [|split; [|split]]]]]]].
  - intros c r Hc.
    do 3 (destruct c as [|c]; [reflexivity|]). lia.
  - reflexivity.
  - intros parent Hp. rewrite worldMatrix_unfold, Hp. reflexivity.
  - intros Hp. rewrite worldMatrix_unfold, Hp. reflexivity.
  - intros [Hp|Hp]; rewrite worldMatrix_unfold, Hp; reflexivity.
  - intros parent Hp c r Hc Hr. rewrite worldMatrix_unfold, Hp.
    apply mul_entry; assumption.
  - intros parent Hp p. rewrite worldMatrix_unfold, Hp.
    apply transform_point_mul. apply localMatrix_affine.
  - intros p. unfold transform_point, localMatrix, set_col3, mul_col, row,
      dot4, at_, add3. cbn. f_equal; ring.
  - intros Hq p. apply mat4_cast_rotates. exact Hq.
Qed.

Lemma worldMatrix_spec_witness :
  worldMatrix sample_child = mul (worldMatrix sample_parent) (localMatrix sample_child)
  /\ worldMatrix sample_orphan = localMatrix sample_orphan
  /\ transform_point (worldMatrix turned_child) (mkVec3 1 1 1) = mkVec3 0 (-1) (-1)
  /\ at_ (worldMatrix turned_child) 0 0 = -1
  /\ at_ (worldMatrix turned_child) 3 1 = -2.
Proof.
  split; [|split; [|split; [|split]]].
  - apply (proj1 (proj2 (proj2 (worldMatrix_spec sample_child)))). reflexivity.
  - apply (proj2 (proj2 (proj2 (proj2 (worldMatrix_spec sample_orphan))))).
    right. reflexivity.
  - destruct (worldMatrix_spec turned_child)
      as (_ & _ & _ & _ & _ & _ & Hpoint & Hlocal & Hrot).
    destruct (worldMatrix_spec turned_parent)
      as (_ & _ & _ & _ & Hroot & _ & _ & Hlocal' & Hrot').
    rewrite (Hpoint turned_parent eq_refl).
    rewrite Hlocal, Hrot by (cbv [unit_quat turned_child m_quat qw qx qy qz]; lra).
    rewrite (Hroot (or_introl eq_refl)).
    rewrite Hlocal', Hrot'
      by (cbv [unit_quat turned_parent setPosition setQuat m_quat qw qx qy qz];
          lra).
    cbv [rotate_by_quat quat_mul quat_conj add3 turned_child turned_parent
         setPosition setQuat Node_default m_quat m_pos qw qx qy qz vx vy vz].
    f_equal; lra.
  - destruct (worldMatrix_spec turned_child)
      as (_ & _ & _ & _ & _ & Hentry & _).
    rewrite (Hentry turned_parent eq_refl 0%nat 0%nat) by lia.
    cbv [at_ column vec4_at worldMatrix localMatrix set_col3 mat4_cast
         turned_child turned_parent setPosition setQuat Node_default
         m_parent m_quat m_pos qw qx qy qz vx vy vz
         col0 col1 col2 col3 x4 y4 z4 w4].
    lra.
  - destruct (worldMatrix_spec turned_child)
      as (_ & _ & _ & _ & _ & Hentry & _).
    rewrite (Hentry turned_parent eq_refl 3%nat 1%nat) by lia.
    cbv [at_ column vec4_at worldMatrix localMatrix set_col3 mat4_cast
         turned_child turned_parent setPosition setQuat Node_default
         m_parent m_quat m_pos qw qx qy qz vx vy vz
         col0 col1 col2 col3 x4 y4 z4 w4].
    lra.
Defined.

(** C6. For a node built through the class's interface, [boundingSphere()]
    returns the cached radius and the cached centre moved by the node's
    world position, the translation part of [worldMatrix()]; the query
    returns a fresh value, and the per-frame pass that issues the queries
    leaves the nodes, hence their cached spheres, as they were. *)
Theorem boundingSphere_spec (n : Node) :
  public_node n ->
  radius (boundingSphere n) = radius (m_boundingSphere n)
  /\ center (boundingSphere n) =
     add3 (center (m_boundingSphere n)) (translation (worldMatrix n))
  /\ center (boundingSphere n) = add3 (center (m_boundingSphere n)) (m_pos n)
  /\ (forall pf fi e, Engine.m_nodes (fst (Engine.updateUBO pf fi e)) = Engine.m_nodes e).
Proof.
  intros Hn. split; [reflexivity|]. split; [|split; [reflexivity|]].
  - rewrite worldMatrix_unfold, (public_parent_empty n Hn). simpl lock. cbv iota.
    rewrite translation_localMatrix. reflexivity.
  - intros pf fi e. apply updateUBO_nodes.
Qed.

End NodeTheorems.

(** ** The bounding sphere *)

Section SphereFacts.

Import Glm FrustumCulling.
Local Open Scope R_scope.

(** A non-negative number is the length of [a] once its square is
    [dot a a]. *)
Lemma length_unique (a : vec3) (x : R) : 0 <= x -> x * x = dot a a -> length a = x.
Proof.
  intros Hx Hsq. unfold length. rewrite <- Hsq. apply sqrt_square. exact Hx.
Qed.

Lemma cauchy_schwarz (a b : vec3) : dot a b <= length a * length b.
Proof.
  pose proof (length_nonneg a) as Ha. pose proof (length_nonneg b) as Hb.
  pose proof (length_sqr a) as Ha2. pose proof (length_sqr b) as Hb2.
  assert (Hcs : dot a b * dot a b <= dot a a * dot b b).
  { destruct a as [a1 a2 a3], b as [b1 b2 b3]. unfold dot. simpl.
    pose proof (Rle_0_sqr (a1 * b2 - a2 * b1)).
    pose proof (Rle_0_sqr (a1 * b3 - a3 * b1)).
    pose proof (Rle_0_sqr (a2 * b3 - a3 * b2)).
    unfold Rsqr in *. nra. }
  destruct (Rle_lt_dec (dot a b) (length a * length b)) as [H|H]; [exact H|].
  exfalso.
  assert (0 <= length a * length b) by nra.
  assert (length a * length b * (length a * length b) < dot a b * dot a b) by nra.
  replace (length a * length b * (length a * length b))
    with ((length a * length a) * (length b * length b)) in * by ring.
  rewrite Ha2, Hb2 in *. lra.
Qed.

Lemma length_triangle (a b : vec3) : length (add3 a b) <= length a + length b.
Proof.
  pose proof (length_nonneg a) as Ha. pose proof (length_nonneg b) as Hb.
  pose proof (length_nonneg (add3 a b)) as Hc.
  pose proof (length_sqr a) as Ha2. pose proof (length_sqr b) as Hb2.
  pose proof (length_sqr (add3 a b)) as Hc2.
  pose proof (cauchy_schwarz a b) as Hcs.
  assert (Hexp : dot (add3 a b) (add3 a b) = dot a a + 2 * dot a b + dot b b).
  { destruct a, b. unfold dot, add3. simpl. ring. }
  destruct (Rle_lt_dec (length (add3 a b)) (length a + length b)) as [H|H];
    [exact H|].
  exfalso.
  assert ((length a + length b) * (length a + length b)
          < length (add3 a b) * length (add3 a b)) by nra.
  rewrite Hc2, Hexp in *. nra.
Qed.

Lemma length_scale (a : vec3) (s : R) : 0 <= s -> length (scale3 a s) = s * length a.
Proof.
  intros Hs. apply length_unique.
  - pose proof (length_nonneg a). nra.
  - replace (s * length a * (s * length a)) with (s * s * (length a * length a))
      by ring.
    rewrite length_sqr. destruct a. unfold dot, scale3. simpl. ring.
Qed.

Lemma length_sub_sym (a b : vec3) : length (sub3 a b) = length (sub3 b a).
Proof.
  unfold length. f_equal. destruct a, b. unfold dot, sub3. simpl. ring.
Qed.

(** One growth step of Ritter's algorithm: the new sphere has a larger
    radius, still holds every point the old one held, and holds the point
    that triggered the step. *)
Lemma grow_step (c p : vec3) (r : R) :
  0 <= r -> distance p c > r ->
  let d := distance p c in
  let newRadius := (r + d) * / 2 in
  let newCenter := add3 c (scale3 (normalize (sub3 p c)) (newRadius - r)) in
  r < newRadius
  /\ distance p newCenter <= newRadius
  /\ (forall q, distance q c <= r -> distance q newCenter <= newRadius).
Proof.
  intros Hr Hd d newRadius newCenter.
  assert (Hdpos : 0 < d) by (unfold d; lra).
  assert (Hnr : newRadius - r = (d - r) * / 2) by (unfold newRadius; field).
  split; [unfold newRadius; fold d in Hd; lra|]. split.
  - unfold distance at 1.
    replace (sub3 p newCenter)
      with (scale3 (sub3 p c) (1 - (newRadius - r) * / d)).
    + rewrite length_scale.
      * fold (distance p c). fold d.
        replace ((1 - (newRadius - r) * / d) * d) with (d - (newRadius - r))
          by (field; lra).
        rewrite Hnr. unfold newRadius. lra.
      * rewrite Hnr.
        assert ((d - r) * / 2 * / d <= 1); [|lra].
        apply (Rmult_le_reg_r d); [exact Hdpos|].
        replace ((d - r) * / 2 * / d * d) with ((d - r) * / 2) by (field; lra).
        lra.
    + unfold newCenter, normalize. fold (distance p c). fold d.
      destruct p, c. unfold scale3, sub3, add3. simpl. f_equal; ring.
  - intros q Hq. unfold distance at 1.
    replace (sub3 q newCenter)
      with (add3 (sub3 q c) (scale3 (sub3 c p) ((newRadius - r) * / d))).
    + eapply Rle_trans; [apply length_triangle|].
      rewrite length_scale.
      * rewrite (length_sub_sym c p). fold (distance p c). fold d.
        fold (distance q c).
        replace ((newRadius - r) * / d * d) with (newRadius - r) by (field; lra).
        lra.
      * rewrite Hnr. apply Rmult_le_pos; [|left; apply Rinv_0_lt_compat; lra].
        fold d in Hd. lra.
    + unfold newCenter, normalize. fold (distance p c). fold d.
      destruct p, c, q. unfold scale3, sub3, add3. simpl. f_equal; ring.
Qed.

Section Generic.

Context {A : Type} (pos : A -> vec3).

Lemma grow_loop_invariant (v : list A) (n i : nat) (c : vec3) (r : R) :
  holds_below pos v i c r ->
  let bs := grow_loop pos v i n c r in
  holds_below pos v (i + n) (center bs) (radius bs).
Proof.
  revert i c r. induction n as [|n IH]; intros i c r [Hr Hin]; simpl.
  - split; [exact Hr|]. intros j Hj. apply Hin. lia.
  - replace (i + S n)%nat with (S i + n)%nat by lia.
    destruct (Rgt_dec (distance (point_at pos v i) c) r) as [Hgt|Hle].
    + destruct (grow_step c (point_at pos v i) r Hr Hgt) as (Hnew & Hp & Hq).
      apply IH. split; [lra|].
      intros j Hj. destruct (Nat.eq_dec j i) as [->|Hne].
      * exact Hp.
      * apply Hq, Hin. lia.
    + apply IH. split; [exact Hr|].
      intros j Hj. destruct (Nat.eq_dec j i) as [->|Hne].
      * lra.
      * apply Hin. lia.
Qed.

Lemma ritter_contains (v : list A) :
  let bs := computeBoundingSphere_gen pos v in
  0 <= radius bs
  /\ forall x, In x v -> distance (pos x) (center bs) <= radius bs.
Proof.
  intros bs.
  destruct (grow_loop_invariant v (List.length v) 0
              (scale3 (add3 (point_at pos v (farthest pos v (point_at pos v 0)))
                            (point_at pos v
                               (farthest pos v
                                  (point_at pos v
                                     (farthest pos v (point_at pos v 0))))))
                      (/ 2))
              (distance (point_at pos v (farthest pos v (point_at pos v 0)))
                        (point_at pos v
                           (farthest pos v
                              (point_at pos v
                                 (farthest pos v (point_at pos v 0)))))
               * / 2))
    as [Hr Hall].
  - split; [|intros j Hj; lia].
    apply Rmult_le_pos; [apply length_nonneg|lra].
  - split; [exact Hr|].
    intros x Hx. apply In_nth_error in Hx. destruct Hx as [j Hj].
    assert (Hlt : (j < List.length v)%nat)
      by (apply nth_error_Some; rewrite Hj; discriminate).
    specialize (Hall j Hlt). unfold point_at at 1 in Hall.
    rewrite Hj in Hall. exact Hall.
Qed.

End Generic.

End SphereFacts.

Section SphereTheorems.

Import Glm FrustumCulling NodeModel Samples.
Local Open Scope R_scope.

(** C1. For a non-empty sequence of points, the sphere returned by
    [computeBoundingSphere] has a non-negative radius and every input
    point lies within that radius of the returned centre (in exact
    arithmetic); the same holds for the overload over vertex records. *)
Theorem computeBoundingSphere_contains (v : list vec3) :
  v <> [] ->
  0 <= radius (computeBoundingSphere v)
  /\ (forall p, In p v ->
        distance p (center (computeBoundingSphere v))
        <= radius (computeBoundingSphere v))
  /\ (forall w : list Vertex, w <> [] ->
        0 <= radius (computeBoundingSphereV w)
        /\ forall x, In x w ->
             distance (position x) (center (computeBoundingSphereV w))
             <= radius (computeBoundingSphereV w)).
Proof.
  intros _.
  destruct (ritter_contains (fun p : vec3 => p) v) as [Hr Hall].
  split; [exact Hr|]. split; [exact Hall|].
  intros w _. exact (ritter_contains position w).
Qed.

Lemma computeBoundingSphere_contains_witness :
  0 <= radius (computeBoundingSphere sample_points)
  /\ distance (mkVec3 0 3 0) (center (computeBoundingSphere sample_points))
     <= radius (computeBoundingSphere sample_points).
Proof.
  assert (Hne : sample_points <> []) by discriminate.
  destruct (computeBoundingSphere_contains sample_points Hne) as (Hr & Hall & _).
  split; [exact Hr|].
  apply Hall. simpl. right. right. left. reflexivity.
Defined.

End SphereTheorems.

Section NodeReachTheorems.

Import Glm FrustumCulling NodeModel Samples.
Local Open Scope R_scope.

Lemma boundingSphere_spec_witness :
  radius (boundingSphere sample_public) = radius (m_boundingSphere sample_public)
  /\ center (boundingSphere sample_public) =
     add3 (center (m_boundingSphere sample_public))
          (translation (worldMatrix sample_public)).
Proof.
  assert (Hp : public_node sample_public).
  { apply (public_op (Node_new sample_mesh None) (OpSetPosition (mkVec3 1 0 0))).
    apply public_new. }
  destruct (boundingSphere_spec sample_public Hp) as (H1 & H2 & _).
  split; [exact H1|exact H2].
Defined.

(** With a live parent the two positions differ: the query adds the
    node's own position, whatever the parent's transform is. *)
Remark boundingSphere_adds_local_position :
  center (boundingSphere sample_child) = mkVec3 (0 + 0) (0 + 2) (0 + 0)
  /\ translation (worldMatrix sample_child) <> m_pos sample_child.
Proof.
  split; [reflexivity|].
  intros H. apply (f_equal vx) in H.
  unfold sample_child, sample_parent, translation, at_, worldMatrix in H.
  simpl in H. unfold dot4 in H. simpl in H.
  rewrite !Rmult_0_l in H. rewrite cos_0, sin_0 in H. lra.
Qed.

(** C9. No operation of the class changes [m_parent], and both
    constructors leave it empty; so for every node built and modified
    through the public interface the parent reference never locks,
    [worldMatrix()] is [localMatrix()], and every setter keeps it so. *)
Theorem public_node_worldMatrix (n : Node) :
  public_node n ->
  (forall (n' : Node) (op : NodeOp), m_parent (apply_op n' op) = m_parent n')
  /\ m_parent Node_default = weak_empty
  /\ (forall mesh texture, m_parent (Node_new mesh texture) = weak_empty)
  /\ m_parent n = weak_empty
  /\ lock (m_parent n) = None
  /\ worldMatrix n = localMatrix n
  /\ (forall op, public_node (apply_op n op)
                 /\ lock (m_parent (apply_op n op)) = None
                 /\ worldMatrix (apply_op n op) = localMatrix (apply_op n op)).
Proof.
  intros Hn.
  assert (Hw : forall m, public_node m ->
                 lock (m_parent m) = None /\ worldMatrix m = localMatrix m).
  { intros m Hm. rewrite worldMatrix_unfold, (public_parent_empty m Hm).
    split; reflexivity. }
  split; [exact apply_op_parent|].
  split; [reflexivity|]. split; [reflexivity|].
  split; [exact (public_parent_empty n Hn)|].
  split; [exact (proj1 (Hw n Hn))|]. split; [exact (proj2 (Hw n Hn))|].
  intros op. pose proof (public_op n op Hn) as Hop.
  split; [exact Hop|]. exact (Hw _ Hop).
Qed.

Lemma public_node_worldMatrix_witness :
  worldMatrix sample_public = localMatrix sample_public.
Proof.
  assert (Hp : public_node sample_public).
  { apply (public_op (Node_new sample_mesh None) (OpSetPosition (mkVec3 1 0 0))).
    apply public_new. }
  exact (proj1 (proj2 (proj2 (proj2 (proj2 (proj2
           (public_node_worldMatrix sample_public Hp))))))).
Defined.

End NodeReachTheorems.

(** ** The frame: flags, uniform writes and recorded draws *)

Section FrameFacts.

Import Glm FrustumCulling NodeModel Engine.
Local Open Scope Z_scope.

Lemma same_scene_refl (e : State) : same_scene e e.
Proof. repeat split. Qed.

Lemma same_scene_trans (e1 e2 e3 : State) :
  same_scene e1 e2 -> same_scene e2 e3 -> same_scene e1 e3.
Proof.
  unfold same_scene. intros (a1 & a2 & a3 & a4 & a5 & a6 & a7)
                            (b1 & b2 & b3 & b4 & b5 & b6 & b7).
  repeat split; congruence.
Qed.

Lemma same_scene_set_flags (e : State) (sc vis : list bool) :
  same_scene e (set_flags e sc vis).
Proof. repeat split. Qed.

(** The flags after the loop of [updateUBO] has run from index [i] for [k]
    more iterations. *)
Lemma updateUBO_loop_flags pf (fi : FrameInputs) (k i : nat) (e : State)
      (log : list UboWrite) :
  (i + k <= List.length (m_nodes e))%nat ->
  List.length (m_shadowCastingNodes e) = List.length (m_nodes e) ->
  List.length (m_visibleNodes e) = List.length (m_nodes e) ->
  let e' := fst (updateUBO_loop pf (mul (shadowProj fi) (shadowView fi))
                                (mul (proj fi) (view fi)) i k e log) in
  same_scene e e'
  /\ (forall j, (j < i)%nat ->
        m_shadowCastingNodes e' !! j = m_shadowCastingNodes e !! j
        /\ m_visibleNodes e' !! j = m_visibleNodes e !! j)
  /\ (forall j node, (i <= j < i + k)%nat -> m_nodes e !! j = Some node ->
        m_shadowCastingNodes e' !! j = Some (casts_shadow fi node)
        /\ m_visibleNodes e' !! j = Some (visible fi node)).
Proof.
  revert i e log. induction k as [|k IH]; intros i e log Hik Hsc Hvis; simpl.
  - split; [apply same_scene_refl|]. split; [intros; split; reflexivity|].
    intros j node Hj. lia.
  - destruct (lookup_lt_is_Some_2 (m_nodes e) i ltac:(lia)) as [node Hnode].
    rewrite Hnode.
    set (sc := <[i:=sphereInFrustum _ (boundingSphere node)]> (m_shadowCastingNodes e)).
    set (vis := <[i:=sphereInFrustum _ (boundingSphere node)]> (m_visibleNodes e)).
    set (e1 := set_flags e sc vis).
    match goal with
    | |- context [updateUBO_loop _ _ _ (S i) k _ ?l] =>
        destruct (IH (S i) e1 l) as (Hsame & Hlow & Hhigh)
    end.
    + simpl. lia.
    + simpl. unfold sc. rewrite length_insert. exact Hsc.
    + simpl. unfold vis. rewrite length_insert. exact Hvis.
    + split; [|split].
      * eapply same_scene_trans; [apply (same_scene_set_flags e sc vis)|exact Hsame].
      * intros j Hj. destruct (Hlow j ltac:(lia)) as [H1 H2].
        rewrite H1, H2. simpl. unfold sc, vis.
        rewrite !list_lookup_insert_ne by lia. split; reflexivity.
      * intros j nd Hj Hnd. destruct (Nat.eq_dec j i) as [->|Hne].
        -- destruct (Hlow i ltac:(lia)) as [H1 H2]. rewrite H1, H2.
           simpl. unfold sc, vis.
           rewrite !list_lookup_insert_eq by lia.
           assert (nd = node) by congruence. subst nd. split; reflexivity.
        -- apply Hhigh; [lia|exact Hnd].
Qed.

(** After the flag vectors are resized and [updateUBO] has run, node [j]'s
    two flags are the two frustum tests of its bounding sphere. *)
Lemma frame_flags pf (fi : FrameInputs) (e : State) :
  let e' := fst (updateUBO pf fi (resize_flags e)) in
  same_scene e e'
  /\ (forall j node, m_nodes e !! j = Some node ->
        m_shadowCastingNodes e' !! j = Some (casts_shadow fi node)
        /\ m_visibleNodes e' !! j = Some (visible fi node)).
Proof.
  intros e'.
  destruct (updateUBO_loop_flags pf fi (List.length (m_nodes e)) 0
              (resize_flags e)
              [mkWrite SceneUB 0 (sizeof_SceneUBO_VS pf)
                 (SceneVSData (view fi) (proj fi) (m_lightPos fi));
               mkWrite SceneUB (sceneUBOBufferSizeForVS (resize_flags e))
                 (sizeof_SceneUBO_FS pf)
                 (SceneFSData (m_lightColor fi) (m_intensity fi) (m_ambient fi))])
    as (Hsame & _ & Hhigh).
  - simpl. lia.
  - simpl. apply length_resize.
  - simpl. apply length_resize.
  - split.
    + eapply same_scene_trans; [|exact Hsame]. apply same_scene_set_flags.
    + intros j node Hj. apply Hhigh; [|exact Hj].
      apply lookup_lt_Some in Hj. simpl. lia.
Qed.

Lemma mesh_entry_map_index (m : gmap positive MeshData) (key key' : positive) :
  mesh_entry (snd (map_index m key)) key' = mesh_entry m key'.
Proof.
  unfold mesh_entry, map_index.
  destruct (m !! key) as [v|] eqn:E; simpl; [reflexivity|].
  destruct (decide (key = key')) as [->|Hne].
  - rewrite lookup_insert_eq, E. reflexivity.
  - rewrite lookup_insert_ne by exact Hne.
    destruct (m !! key'); reflexivity.
Qed.

(** The draw loop of a pass, run from index [i] for [k] iterations on a
    state whose flags are the pass's tests: it succeeds and appends the
    draws of the nodes that pass. *)
Lemma draw_loop_spec (e : State) (fi : FrameInputs) (p : Pass) (frame : nat)
      (k i : nat) (r : Recording) :
  (forall j, (i <= j < i + k)%nat ->
     exists node mesh, m_nodes e !! j = Some node /\ m_mesh node = Some mesh
                       /\ pass_flags e p !! j = Some (pass_test fi p node)) ->
  0 <= pass_stride e p ->
  Z.of_nat (i + k) * pass_stride e p <= 2 ^ 32 ->
  (forall key, mesh_entry (rec_map r) key = mesh_entry (meshBufferMap e) key) ->
  exists r', draw_loop e p frame i k r = Some r'
             /\ cmds r' = cmds r ++ pass_draws e fi p frame i k
             /\ (forall key, mesh_entry (rec_map r') key
                             = mesh_entry (meshBufferMap e) key).
Proof.
  revert i r. induction k as [|k IH]; intros i r Hnodes Hs Hrange Hmap.
  - exists r. simpl. unfold pass_draws. simpl. rewrite app_nil_r. auto.
  - destruct (Hnodes i ltac:(lia)) as (node & mesh & Hn & Hm & Hf).
    simpl. rewrite Hf. unfold pass_draws. simpl. rewrite Hn, Hm.
    fold (pass_draws e fi p frame (S i) k).
    assert (Hnext : forall j, (S i <= j < S i + k)%nat ->
              exists node mesh, m_nodes e !! j = Some node
                /\ m_mesh node = Some mesh
                /\ pass_flags e p !! j = Some (pass_test fi p node))
      by (intros j Hj; apply Hnodes; lia).
    assert (Hrange' : Z.of_nat (S i + k) * pass_stride e p <= 2 ^ 32)
      by (replace (S i + k)%nat with (i + S k)%nat by lia; exact Hrange).
    destruct (pass_test fi p node).
    + unfold draw_node. rewrite Hm.
      destruct (map_index (rec_map r) (addr mesh)) as [meshBuffer m'] eqn:Emi.
      assert (Hmb : meshBuffer = mesh_entry (meshBufferMap e) (addr mesh)).
      { rewrite <- Hmap. unfold mesh_entry. rewrite Emi. reflexivity. }
      assert (Hm' : forall key, mesh_entry m' key = mesh_entry (meshBufferMap e) key).
      { intros key. rewrite <- Hmap.
        replace m' with (snd (map_index (rec_map r) (addr mesh)))
          by (rewrite Emi; reflexivity).
        apply mesh_entry_map_index. }
      assert (Hoff : wrap32 (wrap64 (Z.of_nat i * pass_stride e p))
                     = Z.of_nat i * pass_stride e p).
      { assert (0 <= Z.of_nat i * pass_stride e p < 2 ^ 32) by nia.
        rewrite wrap64_small by lia. apply wrap32_small. lia. }
      destruct (IH (S i) (mkRecording
                            (cmds r ++
                             [CmdBindVertexBuffers (buffer (vertexBuffer meshBuffer));
                              CmdBindIndexBuffer (buffer (indexBuffer meshBuffer));
                              CmdBindDescriptorSets (pass_firstSet p) (pass_set p frame)
                                [wrap32 (wrap64 (Z.of_nat i * pass_stride e p))];
                              CmdDrawIndexed
                                (wrap32 (Z.of_nat (numberOfIndices (pointee mesh))))])
                            m') Hnext Hs Hrange' Hm')
        as (r' & Hr' & Hcmds & Hmap').
      exists r'. split; [exact Hr'|]. split; [|exact Hmap'].
      rewrite Hcmds. simpl cmds. rewrite <- app_assoc. f_equal.
      unfold node_draw, bind_node. rewrite Hoff, Hmb. reflexivity.
    + destruct (IH (S i) r Hnext Hs Hrange' Hmap) as (r' & Hr' & Hcmds & Hmap').
      exists r'. split; [exact Hr'|]. split; [exact Hcmds|exact Hmap'].
Qed.

End FrameFacts.

Section DrawFacts.

Import Glm FrustumCulling NodeModel Engine.
Local Open Scope Z_scope.

Lemma records_draw_inside (pre post cs group : list Cmd) :
  records_draw cs group -> records_draw (pre ++ cs ++ post) group.
Proof.
  intros (a & b & ->). exists (pre ++ a), (b ++ post).
  rewrite <- !app_assoc. reflexivity.
Qed.

Lemma records_draw_In (cs group : list Cmd) (c : Cmd) :
  records_draw cs group -> In c group -> In c cs.
Proof.
  intros (a & b & ->) Hc. apply in_or_app. right. apply in_or_app. left. exact Hc.
Qed.

Lemma seq_split (a m n : nat) :
  seq a (m + S n) = seq a m ++ (a + m)%nat :: seq (S (a + m)) n.
Proof. rewrite seq_app. reflexivity. Qed.

Lemma pass_set_inj (p p' : Pass) (frame : nat) :
  pass_set p frame = pass_set p' frame -> p = p'.
Proof. destruct p, p'; simpl; congruence. Qed.

(** A binding of node [i]'s uniform slice occurs among a pass's draws only
    as part of the draw of node [i], which then passed the test. *)
Lemma bind_in_pass_draws (e : State) (fi : FrameInputs) (p p' : Pass)
      (frame i a k : nat) :
  0 < pass_stride e p ->
  In (bind_node e p frame i) (pass_draws e fi p' frame a k) ->
  p' = p /\ exists node mesh, m_nodes e !! i = Some node
                             /\ m_mesh node = Some mesh
                             /\ pass_test fi p node = true.
Proof.
  intros Hs Hin. unfold pass_draws in Hin.
  apply in_flat_map in Hin. destruct Hin as (j & _ & Hin).
  destruct (m_nodes e !! j) as [node|] eqn:Hn; [|contradiction].
  destruct (m_mesh node) as [mesh|] eqn:Hm; [|contradiction].
  destruct (pass_test fi p' node) eqn:Ht; [|contradiction].
  unfold node_draw, bind_node in Hin. simpl in Hin.
  destruct Hin as [H|[H|[H|[H|[]]]]]; try discriminate H.
  injection H as _ Hset Hoff.
  apply pass_set_inj in Hset. subst p'.
  assert (j = i) by nia. subst j.
  split; [reflexivity|]. exists node, mesh. auto.
Qed.

(** A node of the range that passes the test has its draw among the
    pass's draws. *)
Lemma draw_in_pass_draws (e : State) (fi : FrameInputs) (p : Pass)
      (frame i a k : nat) (node : Node) (mesh : shared_ptr Mesh) :
  (a <= i < a + k)%nat ->
  m_nodes e !! i = Some node -> m_mesh node = Some mesh ->
  pass_test fi p node = true ->
  records_draw (pass_draws e fi p frame a k) (node_draw e p frame i mesh).
Proof.
  intros Hi Hn Hm Ht. unfold pass_draws.
  set (m := (i - a)%nat). set (n := (a + k - S i)%nat).
  assert (Hk : k = (m + S n)%nat) by lia.
  assert (Hia : i = (a + m)%nat) by lia.
  clearbody m n. subst k i.
  rewrite seq_split, flat_map_app. simpl flat_map.
  rewrite Hn, Hm, Ht.
  eexists _, _. reflexivity.
Qed.

Lemma pass_draws_ext (e e' : State) (fi : FrameInputs) (p : Pass)
      (frame a k : nat) :
  m_nodes e' = m_nodes e -> meshBufferMap e' = meshBufferMap e ->
  pass_stride e' p = pass_stride e p ->
  pass_draws e' fi p frame a k = pass_draws e fi p frame a k.
Proof.
  intros Hn Hm Hs. unfold pass_draws, node_draw, bind_node.
  rewrite Hn, Hm, Hs. reflexivity.
Qed.

Lemma frame_commands_ext (e e' : State) (fi : FrameInputs) (frame : nat) :
  m_nodes e' = m_nodes e -> meshBufferMap e' = meshBufferMap e ->
  modelUBOBufferSizePerNode e' = modelUBOBufferSizePerNode e ->
  shadowUBOBufferSizePerNode e' = shadowUBOBufferSizePerNode e ->
  frame_commands e' fi frame = frame_commands e fi frame.
Proof.
  intros Hn Hm Hs1 Hs2. unfold frame_commands.
  rewrite !(pass_draws_ext e e') by (try assumption; reflexivity).
  rewrite Hn. reflexivity.
Qed.

(** [render] on a state whose flags are the two tests records the expected
    command buffer. *)
Lemma render_spec (e : State) (fi : FrameInputs) (frame : nat) :
  (forall j node, m_nodes e !! j = Some node ->
     is_Some (m_mesh node)
     /\ m_shadowCastingNodes e !! j = Some (casts_shadow fi node)
     /\ m_visibleNodes e !! j = Some (visible fi node)) ->
  0 <= shadowUBOBufferSizePerNode e -> 0 <= modelUBOBufferSizePerNode e ->
  Z.of_nat (List.length (m_nodes e)) * shadowUBOBufferSizePerNode e <= 2 ^ 32 ->
  Z.of_nat (List.length (m_nodes e)) * modelUBOBufferSizePerNode e <= 2 ^ 32 ->
  exists r, render e frame = Some r /\ cmds r = frame_commands e fi frame.
Proof.
  intros Hflags Hs1 Hs2 Hr1 Hr2.
  assert (Hpass : forall p j, (0 <= j < 0 + List.length (m_nodes e))%nat ->
            exists node mesh, m_nodes e !! j = Some node
              /\ m_mesh node = Some mesh
              /\ pass_flags e p !! j = Some (pass_test fi p node)).
  { intros p j Hj.
    destruct (lookup_lt_is_Some_2 (m_nodes e) j ltac:(lia)) as [node Hn].
    destruct (Hflags j node Hn) as ([mesh Hm] & Hsc & Hvis).
    exists node, mesh. destruct p; auto. }
  unfold render, renderShadow.
  destruct (draw_loop_spec e fi ShadowPass frame (List.length (m_nodes e)) 0
              (record (mkRecording [CmdPipelineBarrier2 ShadowToDepthWrite]
                                   (meshBufferMap e)) shadow_prologue)
              (Hpass ShadowPass) Hs1 Hr1 (fun key => eq_refl))
    as (r1 & Hr1' & Hc1 & Hm1).
  rewrite Hr1'.
  destruct (draw_loop_spec e fi ColorPass frame (List.length (m_nodes e)) 0
              (record (record r1 [CmdEndRendering])
                      (CmdPipelineBarrier2 ShadowToShaderRead :: color_prologue frame))
              (Hpass ColorPass) Hs2 Hr2 Hm1)
    as (r3 & Hr3' & Hc3 & _).
  rewrite Hr3'. eexists. split; [reflexivity|].
  unfold frame_commands. simpl cmds. rewrite Hc3. simpl cmds. rewrite Hc1.
  simpl cmds. rewrite <- !app_assoc. reflexivity.
Qed.

End DrawFacts.

Section DrawTheorems.

Import Glm FrustumCulling NodeModel Engine Samples.
Local Open Scope Z_scope.

Lemma bind_in_frame (e : State) (fi : FrameInputs) (p : Pass) (frame i : nat) :
  0 < pass_stride e p ->
  In (bind_node e p frame i) (frame_commands e fi frame) ->
  exists node mesh, m_nodes e !! i = Some node /\ m_mesh node = Some mesh
                    /\ pass_test fi p node = true.
Proof.
  intros Hs Hin. unfold frame_commands in Hin.
  repeat (apply in_app_or in Hin; destruct Hin as [Hin|Hin]).
  - destruct p; simpl in Hin; intuition discriminate.
  - destruct p; simpl in Hin; intuition discriminate.
  - apply bind_in_pass_draws in Hin; [|exact Hs].
    destruct Hin as [<- Hin]. exact Hin.
  - destruct p; simpl in Hin; intuition discriminate.
  - destruct p; simpl in Hin; intuition discriminate.
  - destruct p; simpl in Hin; intuition discriminate.
  - apply bind_in_pass_draws in Hin; [|exact Hs].
    destruct Hin as [<- Hin]. exact Hin.
  - destruct p; simpl in Hin; intuition discriminate.
Qed.

Lemma draw_in_frame (e : State) (fi : FrameInputs) (p : Pass) (frame i : nat)
      (node : Node) (mesh : shared_ptr Mesh) :
  m_nodes e !! i = Some node -> m_mesh node = Some mesh ->
  pass_test fi p node = true ->
  records_draw (frame_commands e fi frame) (node_draw e p frame i mesh).
Proof.
  intros Hn Hm Ht.
  assert (Hi : (0 <= i < 0 + List.length (m_nodes e))%nat)
    by (apply lookup_lt_Some in Hn; lia).
  pose proof (draw_in_pass_draws e fi p frame i 0 (List.length (m_nodes e))
                node mesh Hi Hn Hm Ht) as Hd.
  unfold frame_commands. destruct p.
  - rewrite (app_assoc [CmdPipelineBarrier2 ShadowToDepthWrite]).
    apply records_draw_inside. exact Hd.
  - rewrite !(app_assoc _ _ (pass_draws e fi ColorPass frame 0 _ ++ _)).
    apply records_draw_inside. exact Hd.
Qed.

End DrawTheorems.

Section UniformWriteFacts.

Import Glm FrustumCulling NodeModel Engine.
Local Open Scope Z_scope.

(** The copies the loop of [updateUBO] issues, beyond those already
    logged: the two copies of each node of the range. *)
Lemma updateUBO_loop_writes pf (svp cvp : mat4) (k i : nat) (e : State)
      (log : list UboWrite) (w : UboWrite) :
  (i + k <= List.length (m_nodes e))%nat ->
  In w (snd (updateUBO_loop pf svp cvp i k e log)) <->
  In w log \/
  exists j node, (i <= j < i + k)%nat /\ m_nodes e !! j = Some node
                 /\ (w = shadow_write pf svp e j node
                     \/ w = model_write pf svp e j node).
Proof.
  revert i e log. induction k as [|k IH]; intros i e log Hik; simpl.
  - split; [auto|]. intros [H|(j & node & Hj & _)]; [exact H|lia].
  - destruct (lookup_lt_is_Some_2 (m_nodes e) i ltac:(lia)) as [node Hnode].
    rewrite Hnode. rewrite IH by (simpl; lia). simpl m_nodes.
    rewrite in_app_iff. simpl In. split.
    + intros [[H|[H|[H|[]]]]|(j & nd & Hj & Hnd & Hw)].
      * left. exact H.
      * right. exists i, node. split; [lia|]. split; [exact Hnode|].
        left. symmetry. exact H.
      * right. exists i, node. split; [lia|]. split; [exact Hnode|].
        right. symmetry. exact H.
      * right. exists j, nd. split; [lia|]. split; [exact Hnd|]. exact Hw.
    + intros [H|(j & nd & Hj & Hnd & Hw)].
      * left. left. exact H.
      * destruct (Nat.eq_dec j i) as [->|Hne].
        -- assert (nd = node) by congruence. subst nd.
           left. right. destruct Hw as [->| ->]; auto.
        -- right. exists j, nd. split; [lia|]. split; [exact Hnd|]. exact Hw.
Qed.

(** The stride is positive, at least the struct size, and far below the
    point where 32 strides would wrap. *)
Lemma stride_bounds (a s : Z) :
  (a = 0 \/ exists k, 0 <= k <= 32 /\ a = 2 ^ k) ->
  0 < s < 2 ^ 32 ->
  s <= minDynamicUBOAlignment a s < 2 ^ 34.
Proof.
  intros [->|(k & Hk & ->)] Hs.
  - unfold minDynamicUBOAlignment. simpl. lia.
  - assert (Hp : 0 < 2 ^ k) by (apply Z.pow_pos_nonneg; lia).
    assert (Hpk : 2 ^ k <= 2 ^ 32) by (apply Z.pow_le_mono_r; lia).
    pose proof (Z.mul_div_le (s + 2 ^ k - 1) (2 ^ k) Hp) as Hle.
    pose proof (Z.mul_succ_div_gt (s + 2 ^ k - 1) (2 ^ k) Hp) as Hgt.
    rewrite aligned_value by lia. nia.
Qed.

End UniformWriteFacts.

Section UniformWriteTheorems.

Import Glm FrustumCulling NodeModel Engine Samples.
Local Open Scope Z_scope.

(** C10. The model and shadow uniform buffers are created with room for
    [MAX_NODES = 32] strides; [updateUBO] copies node [i]'s data to offset
    [i] times the stride for every node of the scene list, unchecked;
    [addNode] appends whatever the list's length.  Hence all per-node
    copies stay inside their buffers exactly when the scene has at most
    32 nodes. *)
Theorem per_node_writes_in_bounds (pf : Platform) (fi : FrameInputs)
        (e0 : State) :
  (minUniformBufferOffsetAlignment pf = 0
   \/ exists k, 0 <= k <= 32 /\ minUniformBufferOffsetAlignment pf = 2 ^ k) ->
  0 < sizeof_ModelUBO pf < 2 ^ 32 ->
  0 < sizeof_ShadowUniformBufferObject pf < 2 ^ 32 ->
  let e := initShadowUB pf (initModelUB pf e0) in
  let writes := snd (updateUBO pf fi e) in
  let shadowVP := mul (shadowProj fi) (shadowView fi) in
  m_nodes e = m_nodes e0
  /\ modelUniformBufferSize e = 32 * modelUBOBufferSizePerNode e
  /\ shadowUniformBufferSize e = 32 * shadowUBOBufferSizePerNode e
  /\ (forall s node, m_nodes (addNode s node) = m_nodes s ++ [node])
  /\ (forall i node, m_nodes e !! i = Some node ->
        In (shadow_write pf shadowVP e i node) writes
        /\ In (model_write pf shadowVP e i node) writes
        /\ (Z.of_nat i * shadowUBOBufferSizePerNode e < 2 ^ 64 ->
            w_offset (shadow_write pf shadowVP e i node)
            = Z.of_nat i * shadowUBOBufferSizePerNode e)
        /\ (Z.of_nat i * modelUBOBufferSizePerNode e < 2 ^ 64 ->
            w_offset (model_write pf shadowVP e i node)
            = Z.of_nat i * modelUBOBufferSizePerNode e))
  /\ ((forall w, In w writes -> per_node_write_ok e w)
      <-> (List.length (m_nodes e) <= 32)%nat).
Proof.
  intros Ha Hsm Hss e writes shadowVP.
  pose proof (stride_bounds _ _ Ha Hsm) as Hbm.
  pose proof (stride_bounds _ _ Ha Hss) as Hbs.
  fold (modelUBOBufferSizePerNode e) in Hbm.
  change (minDynamicUBOAlignment (minUniformBufferOffsetAlignment pf)
            (sizeof_ShadowUniformBufferObject pf))
    with (shadowUBOBufferSizePerNode e) in Hbs.
  change (minDynamicUBOAlignment (minUniformBufferOffsetAlignment pf)
            (sizeof_ModelUBO pf))
    with (modelUBOBufferSizePerNode e) in Hbm.
  assert (Hsize_m : modelUniformBufferSize e = 32 * modelUBOBufferSizePerNode e).
  { change (modelUniformBufferSize e)
      with (wrap64 (MAX_NODES * modelUBOBufferSizePerNode e)).
    unfold MAX_NODES. apply wrap64_small. lia. }
  assert (Hsize_s : shadowUniformBufferSize e = 32 * shadowUBOBufferSizePerNode e).
  { change (shadowUniformBufferSize e)
      with (wrap64 (MAX_NODES * shadowUBOBufferSizePerNode e)).
    unfold MAX_NODES. apply wrap64_small. lia. }
  assert (Hw : forall w, In w writes <->
             In w [mkWrite SceneUB 0 (sizeof_SceneUBO_VS pf)
                     (SceneVSData (view fi) (proj fi) (m_lightPos fi));
                   mkWrite SceneUB (sceneUBOBufferSizeForVS e)
                     (sizeof_SceneUBO_FS pf)
                     (SceneFSData (m_lightColor fi) (m_intensity fi)
                                  (m_ambient fi))]
             \/ exists j node, (0 <= j < 0 + List.length (m_nodes e))%nat
                  /\ m_nodes e !! j = Some node
                  /\ (w = shadow_write pf shadowVP e j node
                      \/ w = model_write pf shadowVP e j node)).
  { intros w. apply updateUBO_loop_writes. lia. }
  split; [reflexivity|]. split; [exact Hsize_m|]. split; [exact Hsize_s|].
  split; [reflexivity|]. split.
  - intros i node Hi.
    assert (Hlt : (0 <= i < 0 + List.length (m_nodes e))%nat)
      by (apply lookup_lt_Some in Hi; lia).
    split; [apply Hw; right; exists i, node; auto|].
    split; [apply Hw; right; exists i, node; auto|].
    split; intros Hsmall; unfold shadow_write, model_write; cbn [w_offset];
      apply wrap64_small; nia.
  - split.
    + intros Hall.
      destruct (le_lt_dec (List.length (m_nodes e)) 32) as [Hle|Hgt];
        [exact Hle|exfalso].
      destruct (lookup_lt_is_Some_2 (m_nodes e) 32 Hgt) as [node Hnode].
      assert (Hin : In (shadow_write pf shadowVP e 32 node) writes)
        by (apply Hw; right; exists 32%nat, node; split; [lia|auto]).
      specialize (Hall _ Hin).
      unfold per_node_write_ok, in_bounds, shadow_write in Hall.
      cbn [w_buffer w_offset w_size] in Hall. rewrite Hsize_s in Hall.
      rewrite wrap64_small in Hall by lia. lia.
    + intros Hle w Hin. apply Hw in Hin.
      destruct Hin as [[<-|[<-|[]]]|(j & node & Hj & Hnode & [-> | ->])].
      * exact I.
      * exact I.
      * unfold per_node_write_ok, in_bounds, shadow_write.
        cbn [w_buffer w_offset w_size]. rewrite Hsize_s.
        rewrite wrap64_small by nia. nia.
      * unfold per_node_write_ok, in_bounds, model_write.
        cbn [w_buffer w_offset w_size]. rewrite Hsize_m.
        rewrite wrap64_small by nia. nia.
Qed.

Lemma per_node_writes_in_bounds_witness :
  (forall w, In w (snd (updateUBO sample_platform sample_inputs
                                  (initShadowUB sample_platform
                                     (initModelUB sample_platform sample_state)))) ->
             per_node_write_ok (initShadowUB sample_platform
                                  (initModelUB sample_platform sample_state)) w)
  <-> (List.length (m_nodes (initShadowUB sample_platform
                               (initModelUB sample_platform sample_state))) <= 32)%nat.
Proof.
  apply (per_node_writes_in_bounds sample_platform sample_inputs sample_state).
  - right. exists 8. split; [lia|reflexivity].
  - simpl. lia.
  - simpl. lia.
Defined.

End UniformWriteTheorems.

(** ** The stale-surface path of update *)

Section UpdateFacts.

Import Glm FrustumCulling NodeModel Engine.
Local Open Scope nat_scope.

Lemma draw_loop_total (e : State) (p : Pass) (frame : nat) (k i : nat)
      (r : Recording) :
  (forall j, i <= j < i + k ->
     exists node mesh b, m_nodes e !! j = Some node /\ m_mesh node = Some mesh
                         /\ pass_flags e p !! j = Some b) ->
  is_Some (draw_loop e p frame i k r).
Proof.
  revert i r. induction k as [|k IH]; intros i r Hall; simpl.
  - eexists. reflexivity.
  - destruct (Hall i ltac:(lia)) as (node & mesh & b & Hn & Hm & Hf).
    rewrite Hf. assert (Hnext : forall j, S i <= j < S i + k ->
              exists node mesh b, m_nodes e !! j = Some node
                /\ m_mesh node = Some mesh /\ pass_flags e p !! j = Some b)
      by (intros j Hj; apply Hall; lia).
    destruct b; [|apply IH; exact Hnext].
    rewrite Hn. unfold draw_node. rewrite Hm.
    destruct (map_index (rec_map r) (addr mesh)) as [mb m']. apply IH. exact Hnext.
Qed.

Lemma render_total (e : State) (frame : nat) :
  (forall j node, m_nodes e !! j = Some node ->
     is_Some (m_mesh node)
     /\ is_Some (m_shadowCastingNodes e !! j)
     /\ is_Some (m_visibleNodes e !! j)) ->
  is_Some (render e frame).
Proof.
  intros Hall.
  assert (Hpass : forall p j, 0 <= j < 0 + List.length (m_nodes e) ->
            exists node mesh b, m_nodes e !! j = Some node
              /\ m_mesh node = Some mesh /\ pass_flags e p !! j = Some b).
  { intros p j Hj.
    destruct (lookup_lt_is_Some_2 (m_nodes e) j ltac:(lia)) as [node Hn].
    destruct (Hall j node Hn) as ([mesh Hm] & [b1 Hsc] & [b2 Hvis]).
    destruct p; [exists node, mesh, b1|exists node, mesh, b2]; auto. }
  unfold render, renderShadow.
  destruct (draw_loop_total e ShadowPass frame (List.length (m_nodes e)) 0
              (record (mkRecording [CmdPipelineBarrier2 ShadowToDepthWrite]
                                   (meshBufferMap e)) shadow_prologue)
              (Hpass ShadowPass)) as [r1 Hr1].
  rewrite Hr1.
  destruct (draw_loop_total e ColorPass frame (List.length (m_nodes e)) 0
              (record (record r1 [CmdEndRendering])
                      (CmdPipelineBarrier2 ShadowToShaderRead
                       :: color_prologue frame))
              (Hpass ColorPass)) as [r3 Hr3].
  rewrite Hr3. eexists. reflexivity.
Qed.

Lemma count_app (f : Event -> bool) (a b : list Event) :
  count f (a ++ b) = count f a + count f b.
Proof. unfold count. rewrite List.filter_app, length_app. reflexivity. Qed.

End UpdateFacts.

Section FrameRuns.

Import Glm FrustumCulling NodeModel Engine Resources Setup Frame.
Local Open Scope nat_scope.

Lemma checked_ok (env : Env) (call : CheckedCall) :
  checks_pass env -> checked env call = Ok tt.
Proof. intros H. unfold checked. rewrite (H call). reflexivity. Qed.

Lemma set_perFrame_same (s : Swap) : set_perFrame s (swap_perFrame s) = s.
Proof. destruct s. reflexivity. Qed.

(** An acquire that does not succeed puts its semaphore back and leaves
    the swapchain side of the context alone. *)
Lemma acquire_failed (env : Env) (k : nat) (c : Context) :
  checks_pass env ->
  is_success (fst (env_acquire env k)) = false ->
  exists c', acquire env k c
             = Ok (fst (env_acquire env k), snd (env_acquire env k), c')
             /\ ctx_swap c' = ctx_swap c.
Proof.
  intros Hc Hres. unfold acquire.
  assert (Hsem : match ctx_recycled c with
                 | [] => checked env CreateAcquireSemaphore
                 | _ :: _ => Ok tt
                 end = Ok tt).
  { destruct (ctx_recycled c); [apply checked_ok; exact Hc|reflexivity]. }
  rewrite Hsem. cbn [bind].
  destruct (env_acquire env k) as [res image]. cbn [fst snd] in *.
  unfold acquireNextSwapchainImage.
  destruct (recycledSemaphores (frames_of c)); rewrite Hres; cbn [negb];
    (eexists; split; [reflexivity|]);
    unfold with_frames; cbn [ctx_swap perFrame frames_of];
    apply set_perFrame_same.
Qed.

Lemma is_stale_not_success (res : VkResult) :
  is_stale res = true -> is_success res = false.
Proof. destruct res; simpl; congruence. Qed.

(** [resize] returns whether it went on to rebuild; when it did not, the
    context is as before. *)
Lemma resize_surface_ok (env : Env) (k : nat) (c : Context) :
  checks_pass env ->
  exists c', resize_surface env k c = Ok (resize_rebuilds c (env_extent env k), c')
             /\ ctx_recycled c' = ctx_recycled c
             /\ ctx_swap c'
                = (if resize_rebuilds c (env_extent env k)
                   then fst (initSwapchain (ctx_swap c) (env_build env k)
                                           (env_handles env k))
                   else ctx_swap c).
Proof.
  intros Hc. unfold resize_surface, resize_rebuilds, Resources.resize.
  destruct (device (ctx_swap c) =? VK_NULL_HANDLE)%Z eqn:Hd.
  - exists c. cbn [negb andb]. auto.
  - rewrite (checked_ok env _ Hc). cbn [bind negb andb].
    destruct ((fst (env_extent env k)
               =? dim_width (swapchainDimensions (ctx_swap c)))%Z
              && (snd (env_extent env k)
                  =? dim_height (swapchainDimensions (ctx_swap c)))%Z) eqn:He.
    + cbn [negb andb bind]. eexists. split; [reflexivity|].
      split; [reflexivity|]. destruct c as [[] ? ? ?]. reflexivity.
    + destruct (initSwapchain (ctx_swap c) (env_build env k) (env_handles env k))
        as [s' calls] eqn:Ei.
      cbn [negb andb]. rewrite (checked_ok env _ Hc).
      destruct (creates_frames (env_build env k)); cbn [bind];
        (eexists; split; [reflexivity|]); split; reflexivity.
Qed.

Lemma count_resize_events (f : Event -> bool) (ret : bool) :
  f (EvResize true) = false -> f (EvResize false) = false ->
  f (EvLogInfo msg_resize_failed) = false ->
  count f (resize_events ret) = 0.
Proof.
  intros H1 H2 H3. unfold resize_events, count.
  destruct ret; simpl; rewrite ?H1, ?H2, ?H3; reflexivity.
Qed.

Lemma count_resize_calls (ret : bool) : count is_resize (resize_events ret) = 1.
Proof. destruct ret; reflexivity. Qed.

Lemma count_present_tail (f : Event -> bool) (env : Env) (c : Context) (k : nat) :
  f (EvResize true) = false -> f (EvResize false) = false ->
  f (EvLogInfo msg_resize_failed) = false ->
  f (EvLogError msg_present_failed) = false ->
  count f (present_tail env c k) = 0.
Proof.
  intros H1 H2 H3 H4. unfold present_tail.
  destruct (is_stale (env_present env)); [apply count_resize_events; assumption|].
  destruct (negb (is_success (env_present env))); unfold count; simpl;
    rewrite ?H4; reflexivity.
Qed.

(** The acquire phase when it is left with a result: one acquire, or on a
    stale surface an acquire, one [resize] and exactly one more
    acquire. *)
Lemma acquire_with_retry_trace (env : Env) (c c1 : Context) (res : VkResult)
      (img k : nat) (tr0 : list Event) :
  acquire_with_retry env c = Ok (res, img, c1, k, tr0) ->
  k <= 1
  /\ count is_acquire tr0 = S k
  /\ count is_resize tr0 = k
  /\ count is_present tr0 = 0
  /\ count is_wait_idle tr0 = 0
  /\ count is_frame_work tr0 = 0
  /\ (is_stale (fst (env_acquire env 0)) = true <-> k = 1).
Proof.
  unfold acquire_with_retry, acquire.
  destruct (match ctx_recycled c with
            | [] => checked env CreateAcquireSemaphore
            | _ :: _ => Ok tt
            end) as [[]| |]; cbn [bind]; try discriminate.
  destruct (env_acquire env 0) as [r0 i0] eqn:E0. cbn [fst].
  destruct (acquireNextSwapchainImage (frames_of c) (env_semaphore env 0) r0 i0)
    as [[[res0 fs0] calls0]|] eqn:Ea0; cbn [bind]; try discriminate.
  assert (Hres0 : res0 = r0 \/ (res0 = VK_SUCCESS /\ is_success r0 = true)).
  { unfold acquireNextSwapchainImage in Ea0.
    destruct (recycledSemaphores (frames_of c)); destruct (is_success r0) eqn:Es;
      cbn [negb] in Ea0;
      try (injection Ea0 as <- _ _; left; reflexivity);
      destruct (perFrame (frames_of c) !! i0); try discriminate Ea0;
      injection Ea0 as <- _ _; right; auto. }
  assert (Hst : is_stale res0 = is_stale r0).
  { destruct Hres0 as [->|[-> Hs]]; [reflexivity|].
    destruct r0; simpl in *; congruence. }
  destruct (is_stale res0) eqn:Hs0.
  - destruct (resize_surface env 0 (with_frames c fs0)) as [[ret c']| |];
      cbn [bind]; try discriminate.
    destruct (match ctx_recycled c' with
              | [] => checked env CreateAcquireSemaphore
              | _ :: _ => Ok tt
              end) as [[]| |]; cbn [bind]; try discriminate.
    destruct (env_acquire env 1) as [r1 i1].
    destruct (acquireNextSwapchainImage _ _ r1 i1) as [[[res1 fs1] calls1]|];
      cbn [bind]; try discriminate.
    intros H. injection H as <- <- <- <- <-.
    rewrite <- Hst.
    destruct ret; repeat split; try lia; reflexivity.
  - intros H. injection H as <- <- <- <- <-. rewrite <- Hst.
    repeat split; try lia; try reflexivity; try discriminate.
Qed.

(** The skipped frame's acquire phase. *)
Lemma acquire_with_retry_stale (env : Env) (c : Context) :
  checks_pass env ->
  is_stale (fst (env_acquire env 0)) = true ->
  is_success (fst (env_acquire env 1)) = false ->
  exists c',
    acquire_with_retry env c
    = Ok (fst (env_acquire env 1), snd (env_acquire env 1), c', 1,
          [EvAcquire (fst (env_acquire env 0))]
          ++ resize_events (resize_rebuilds c (env_extent env 0))
          ++ [EvAcquire (fst (env_acquire env 1))])
    /\ ctx_swap c'
       = (if resize_rebuilds c (env_extent env 0)
          then fst (initSwapchain (ctx_swap c) (env_build env 0) (env_handles env 0))
          else ctx_swap c).
Proof.
  intros Hc Hst Hf. unfold acquire_with_retry.
  destruct (acquire_failed env 0 c Hc (is_stale_not_success _ Hst))
    as (c0 & -> & Hs0).
  cbn [bind]. rewrite Hst.
  destruct (resize_surface_ok env 0 c0 Hc) as (c1 & -> & _ & Hs1).
  cbn [bind].
  destruct (acquire_failed env 1 c1 Hc Hf) as (c2 & -> & Hs2).
  cbn [bind].
  assert (Hreb : resize_rebuilds c0 (env_extent env 0)
                 = resize_rebuilds c (env_extent env 0))
    by (unfold resize_rebuilds; rewrite Hs0; reflexivity).
  rewrite Hreb in *. eexists. split; [reflexivity|].
  rewrite Hs2, Hs1, Hs0. reflexivity.
Qed.

Lemma binds_null_ready (slot : PerFrame) (cs : list Cmd) :
  slot_ready slot = true -> existsb (binds_null slot) cs = false.
Proof.
  unfold slot_ready, nonnull. intros H.
  repeat (apply andb_prop in H; destruct H as [H ?]).
  induction cs as [|cmd cs IH]; [reflexivity|].
  simpl. rewrite IH, orb_false_r.
  destruct cmd as [| | | | | | | | | | |fs set offs| |]; try reflexivity.
  destruct set; simpl; try reflexivity;
    match goal with
    | Hn : negb ?b = true |- ?b = false => apply negb_true_iff; exact Hn
    end.
Qed.

(** [render] on a prepared slot, when the recording goes through. *)
Lemma render_ready (env : Env) (e : State) (i : nat) (c : Context)
      (slot : PerFrame) (r : Recording) :
  checks_pass env ->
  swap_perFrame (ctx_swap c) !! i = Some slot ->
  slot_ready slot = true ->
  images_ready c i = true ->
  Engine.render e i = Some r ->
  exists c', render env e i c = Ok (r, c')
             /\ forall extent, resize_rebuilds c' extent = resize_rebuilds c extent.
Proof.
  intros Hc Hslot Hready Himg Hr. unfold render. rewrite Hslot.
  pose proof (binds_null_ready slot (cmds r) Hready) as Hnull.
  unfold slot_ready, nonnull in Hready.
  repeat (apply andb_prop in Hready; destruct Hready as [Hready ?]).
  apply negb_true_iff in Hready. rewrite Hready.
  rewrite (checked_ok env _ Hc). cbn [bind]. rewrite Himg. cbn [negb].
  rewrite Hr, Hnull. rewrite (checked_ok env _ Hc). cbn [bind].
  unfold ensure_release_semaphore.
  destruct (swapchain_release_semaphore slot =? VK_NULL_HANDLE)%Z;
    rewrite ?(checked_ok env _ Hc); cbn [bind];
    rewrite ?(checked_ok env _ Hc); cbn [bind];
    (eexists; split; [reflexivity|]); intros extent; reflexivity.
Qed.

Lemma after_present_ok (env : Env) (k : nat) (c : Context) :
  checks_pass env ->
  exists c', after_present env (env_present env) k c = Ok (c', present_tail env c k).
Proof.
  intros Hc. unfold after_present, present_tail.
  destruct (is_stale (env_present env)).
  - destruct (resize_surface_ok env k c Hc) as (c' & -> & _).
    cbn [bind]. eexists. reflexivity.
  - destruct (negb (is_success (env_present env))); eexists; reflexivity.
Qed.

Lemma updateUBO_ready (pf : Platform) (env : Env) (fi : FrameInputs) (e : State)
      (slot : PerFrame) :
  checks_pass env -> slot_ready slot = true ->
  updateUBO pf env fi e slot = Ok (Engine.updateUBO pf fi e).
Proof.
  intros Hc Hready. unfold updateUBO.
  unfold slot_ready, nonnull in Hready.
  repeat (apply andb_prop in Hready; destruct Hready as [Hready ?]).
  repeat match goal with
         | H : negb _ = true |- _ => apply negb_true_iff in H; rewrite H
         end.
  rewrite (checked_ok env _ Hc). cbn [bind orb].
  destruct (m_nodes e); reflexivity.
Qed.

(** A frame whose acquire phase ends in success on a prepared slot is
    carried through: flags, uniform copies, the recording of
    [Engine.render], one present and what follows it. *)
Lemma update_frame (pf : Platform) (env : Env) (fi : FrameInputs) (e : State)
      (c c1 : Context) (img k : nat) (tr0 : list Event) :
  checks_pass env ->
  acquire_with_retry env c = Ok (VK_SUCCESS, img, c1, k, tr0) ->
  frame_ready c1 img = true ->
  (forall i node, m_nodes e !! i = Some node -> is_Some (m_mesh node)) ->
  let e1 := resize_flags (set_currentIndex e img) in
  let e2 := fst (Engine.updateUBO pf fi e1) in
  exists r c3,
    Engine.render e2 img = Some r
    /\ update pf env fi e c
       = Ok (set_meshBufferMap e2 (rec_map r), c3,
             tr0 ++ [EvResizeFlags (List.length (m_nodes e));
                     EvUpdateUBO (snd (Engine.updateUBO pf fi e1));
                     EvSubmit (cmds r); EvPresent (env_present env)]
                 ++ present_tail env c1 k).
Proof.
  intros Hc Hacq Hready Hmesh e1 e2.
  unfold frame_ready in Hready.
  destruct (swap_perFrame (ctx_swap c1) !! img) as [slot|] eqn:Hslot;
    [|discriminate Hready].
  apply andb_prop in Hready. destruct Hready as [Hsr Himg].
  destruct (frame_flags pf fi (set_currentIndex e img)) as (Hsame & Hflags).
  fold e1 e2 in Hsame, Hflags.
  destruct Hsame as (Hn & _ & _ & _ & _ & _ & Hidx).
  destruct (render_total e2 img) as [r Hr].
  { intros j node Hj. rewrite Hn in Hj. simpl in Hj.
    destruct (Hflags j node Hj) as [H1 H2].
    split; [exact (Hmesh j node Hj)|]. rewrite H1, H2.
    split; eexists; reflexivity. }
  destruct (render_ready env e2 img c1 slot r Hc Hslot Hsr Himg Hr)
    as (c2 & Hrender & Hreb).
  destruct (after_present_ok env k c2 Hc) as (c3 & Hafter).
  exists r, c3. split; [exact Hr|].
  unfold update. rewrite Hacq. cbn [bind is_success negb].
  fold e1. change (currentIndex e1) with img. rewrite Hslot.
  rewrite (updateUBO_ready pf env fi e1 slot Hc Hsr). cbn [bind].
  destruct (Engine.updateUBO pf fi e1) as [e2' writes] eqn:Eu.
  cbn [fst snd] in *. subst e2.
  simpl in Hidx. rewrite Hidx. rewrite Hrender. cbn [bind].
  rewrite Hafter. cbn [bind].
  unfold present_tail. rewrite Hreb. reflexivity.
Qed.

Lemma mesh_entry_stored (m : gmap positive MeshData) (key : positive)
      (entry : MeshData) :
  m !! key = Some entry -> mesh_entry m key = entry.
Proof. intros H. unfold mesh_entry, map_index. rewrite H. reflexivity. Qed.

Local Open Scope R_scope.

(** The planes of a view-projection that only moves the scene: the box
    [-1,1]^3 around the moved point. *)
Lemma box_plane_distance (t p : vec3) (j : nat) :
  (j < 6)%nat ->
  plane_distance
    (planes (extractFrustum (mul Samples.identity4 (FrameSamples.translate4 t))) j) p
  = match j with
    | 0%nat => (vx p + vx t) + 1
    | 1%nat => 1 - (vx p + vx t)
    | 2%nat => (vy p + vy t) + 1
    | 3%nat => 1 - (vy p + vy t)
    | 4%nat => (vz p + vz t) + 1
    | _ => 1 - (vz p + vz t)
    end.
Proof.
  intros Hj. rewrite extractFrustum_planes.
  destruct t as [tx ty tz], p as [px py pz].
  do 6 (destruct j as [|j];
        [unfold normalize_plane, plane_distance, dot, div3, Glm.length, dot,
           extract_raw;
         cbv [at_ mul mul_col row dot4 Samples.identity4 FrameSamples.translate4
              normal d vx vy vz column vec4_at col0 col1 col2 col3
              x4 y4 z4 w4 planes pLeft pRight pBottom pTop pNear pFar];
         match goal with
         | |- context [sqrt ?a] => replace a with 1 by ring
         end;
         rewrite sqrt_1; lra|]).
  lia.
Qed.

(** The sphere test against such a box. *)
Lemma box_test (t : vec3) (bs : BoundingSphere) :
  sphereInFrustum
    (extractFrustum (mul Samples.identity4 (FrameSamples.translate4 t))) bs = true
  <-> (- radius bs <= vx (center bs) + vx t + 1
       /\ - radius bs <= 1 - (vx (center bs) + vx t)
       /\ - radius bs <= vy (center bs) + vy t + 1
       /\ - radius bs <= 1 - (vy (center bs) + vy t)
       /\ - radius bs <= vz (center bs) + vz t + 1
       /\ - radius bs <= 1 - (vz (center bs) + vz t)).
Proof.
  set (f := extractFrustum (mul Samples.identity4 (FrameSamples.translate4 t))).
  destruct (sphereInFrustum f bs) eqn:E.
  - split; [intros _|reflexivity].
    assert (Hall : forall j, (j < 6)%nat ->
              - radius bs <= plane_distance (planes f j) (center bs)).
    { intros j Hj. apply Rnot_lt_le. intros Hlt.
      assert (Hf : sphere_loop f bs 0 6 = false)
        by (apply sphere_loop_false; exists j; split; [lia|exact Hlt]).
      unfold sphereInFrustum in E. congruence. }
    pose proof (Hall 0%nat ltac:(lia)) as H0.
    pose proof (Hall 1%nat ltac:(lia)) as H1.
    pose proof (Hall 2%nat ltac:(lia)) as H2.
    pose proof (Hall 3%nat ltac:(lia)) as H3.
    pose proof (Hall 4%nat ltac:(lia)) as H4.
    pose proof (Hall 5%nat ltac:(lia)) as H5.
    unfold f in H0, H1, H2, H3, H4, H5.
    rewrite box_plane_distance in H0, H1, H2, H3, H4, H5 by lia.
    repeat split; assumption.
  - split; [discriminate|]. intros (H0 & H1 & H2 & H3 & H4 & H5).
    exfalso. unfold sphereInFrustum in E. apply sphere_loop_false in E.
    destruct E as (j & Hj & Hlt). unfold f in Hlt.
    rewrite box_plane_distance in Hlt by lia.
    do 6 (destruct j as [|j]; [lra|]). lia.
Qed.

(** The two tests of the sample scene: the light sees the nodes at
    [-2 <= x <= 2], the camera those at [0 <= x <= 4]. *)
Lemma scene_node_flags (x : R) (mesh : shared_ptr Mesh) :
  (casts_shadow FrameSamples.scene_inputs (FrameSamples.scene_node x mesh) = true
   <-> -2 <= x <= 2)
  /\ (visible FrameSamples.scene_inputs (FrameSamples.scene_node x mesh) = true
      <-> 0 <= x <= 4).
Proof.
  unfold casts_shadow, visible, FrameSamples.scene_inputs.
  cbn [shadowProj shadowView proj view].
  rewrite !box_test.
  cbv [boundingSphere FrameSamples.scene_node m_boundingSphere m_pos
       center radius add3 zero3 vx vy vz].
  split; split; intros H; repeat split; lra.
Qed.
End FrameRuns.

Section UpdateTheorems.

Import Glm FrustumCulling NodeModel Engine Resources Setup Frame.
Import Samples FrameSamples.
Local Open Scope nat_scope.

Ltac count_events :=
  rewrite ?count_app, ?count_resize_calls, ?count_resize_events,
    ?count_present_tail by reflexivity;
  reflexivity.

(** C4. In a frame that reaches rendering (the acquire, possibly retried,
    succeeded; the checked Vulkan calls succeed; the per-frame slot of the
    acquired image has its command buffer, uniform allocations and
    descriptor sets; every node's mesh has its entry in the mesh map),
    node [i]'s two flags are the frustum tests of its bounding sphere
    against the light and the camera frustum, and the submitted command
    buffer contains the shadow-pass draw of node [i] exactly when its
    casts-shadow flag is set and the colour-pass draw of node [i] exactly
    when its visible flag is set; a draw binds the vertex and index
    buffer stored in the mesh map for the node's mesh and the node's
    uniform slice at dynamic offset [i] times the pass's stride.  So a
    node that passes the light test and fails the camera test is drawn
    by the shadow pass and skipped by the colour pass. *)
Theorem frame_draws (pf : Platform) (env : Env) (fi : FrameInputs) (e : State)
        (c c1 : Context) (img k : nat) (tr0 : list Event) :
  checks_pass env ->
  acquire_with_retry env c = Ok (VK_SUCCESS, img, c1, k, tr0) ->
  frame_ready c1 img = true ->
  meshes_uploaded (m_nodes e) (meshBufferMap e) ->
  (0 < shadowUBOBufferSizePerNode e)%Z -> (0 < modelUBOBufferSizePerNode e)%Z ->
  (Z.of_nat (List.length (m_nodes e)) * shadowUBOBufferSizePerNode e <= 2 ^ 32)%Z ->
  (Z.of_nat (List.length (m_nodes e)) * modelUBOBufferSizePerNode e <= 2 ^ 32)%Z ->
  exists e' c' tr,
    update pf env fi e c = Ok (e', c', tr)
    /\ In (EvSubmit (frame_commands e fi img)) tr
    /\ forall i node,
         m_nodes e !! i = Some node ->
         exists mesh entry,
           m_mesh node = Some mesh
           /\ meshBufferMap e !! addr mesh = Some entry
           /\ m_shadowCastingNodes e' !! i = Some (casts_shadow fi node)
           /\ m_visibleNodes e' !! i = Some (visible fi node)
           /\ (records_draw (frame_commands e fi img)
                            (draw_with entry e ShadowPass img i mesh)
               <-> casts_shadow fi node = true)
           /\ (records_draw (frame_commands e fi img)
                            (draw_with entry e ColorPass img i mesh)
               <-> visible fi node = true)
           /\ (casts_shadow fi node = true -> visible fi node = false ->
               records_draw (frame_commands e fi img)
                            (draw_with entry e ShadowPass img i mesh)
               /\ ~ records_draw (frame_commands e fi img)
                                 (draw_with entry e ColorPass img i mesh)).
Proof.
  intros Hc Hacq Hready Hup Hs1 Hs2 Hr1 Hr2.
  assert (Hentry : forall i node, m_nodes e !! i = Some node ->
            exists mesh entry, m_mesh node = Some mesh
                               /\ meshBufferMap e !! addr mesh = Some entry).
  { intros i node Hi.
    destruct (Hup node) as (mesh & Hm & [entry He]).
    - apply list_elem_of_In. apply (list_elem_of_lookup_2 _ i). exact Hi.
    - exists mesh, entry. auto. }
  assert (Hmesh : forall i node, m_nodes e !! i = Some node -> is_Some (m_mesh node)).
  { intros i node Hi. destruct (Hentry i node Hi) as (mesh & _ & Hm & _).
    exists mesh. exact Hm. }
  destruct (update_frame pf env fi e c c1 img k tr0 Hc Hacq Hready Hmesh)
    as (r & c3 & Hr & Hu).
  destruct (frame_flags pf fi (set_currentIndex e img)) as (Hsame & Hflags).
  set (e2 := fst (Engine.updateUBO pf fi (resize_flags (set_currentIndex e img))))
    in *.
  destruct Hsame as (Hn & Hmap & Hms & Hss & _ & _ & _).
  destruct (render_spec e2 fi img) as (r' & Hr' & Hcmds).
  { intros j node Hj. rewrite Hn in Hj. simpl in Hj.
    destruct (Hflags j node Hj) as [H1 H2].
    split; [exact (Hmesh j node Hj)|]. split; assumption. }
  { rewrite Hss. simpl. lia. }
  { rewrite Hms. simpl. lia. }
  { rewrite Hn, Hss. simpl. exact Hr1. }
  { rewrite Hn, Hms. simpl. exact Hr2. }
  rewrite Hr in Hr'. injection Hr' as <-.
  assert (Hfc : cmds r = frame_commands e fi img).
  { rewrite Hcmds. apply frame_commands_ext; assumption. }
  assert (Hiff : forall p i node mesh entry,
            m_nodes e !! i = Some node -> m_mesh node = Some mesh ->
            meshBufferMap e !! addr mesh = Some entry ->
            (records_draw (frame_commands e fi img) (draw_with entry e p img i mesh)
             <-> pass_test fi p node = true)).
  { intros p i node mesh entry Hi Hm He.
    assert (Hd : draw_with entry e p img i mesh = node_draw e p img i mesh).
    { unfold draw_with, node_draw. rewrite (mesh_entry_stored _ _ _ He).
      reflexivity. }
    rewrite Hd. split.
    - intros Hrec.
      assert (Hin : In (bind_node e p img i) (frame_commands e fi img)).
      { apply (records_draw_In _ _ _ Hrec). simpl. auto. }
      apply bind_in_frame in Hin; [|destruct p; assumption].
      destruct Hin as (node' & mesh' & Hi' & _ & Ht). congruence.
    - intros Ht. apply draw_in_frame with (node := node); assumption. }
  eexists _, _, _. split; [exact Hu|]. split.
  - rewrite Hfc. rewrite !in_app_iff. right. left. simpl. auto.
  - intros i node Hi.
    destruct (Hentry i node Hi) as (mesh & entry & Hm & He).
    exists mesh, entry.
    destruct (Hflags i node Hi) as [H1 H2].
    split; [exact Hm|]. split; [exact He|].
    split; [exact H1|]. split; [exact H2|].
    split; [exact (Hiff ShadowPass i node mesh entry Hi Hm He)|].
    split; [exact (Hiff ColorPass i node mesh entry Hi Hm He)|].
    intros Hcs Hv. split.
    + apply (Hiff ShadowPass i node mesh entry Hi Hm He). exact Hcs.
    + intros Hrec. apply (Hiff ColorPass i node mesh entry Hi Hm He) in Hrec.
      simpl in Hrec. congruence.
Qed.

Lemma frame_draws_witness :
  exists e' c' tr,
    update sample_platform sample_env scene_inputs scene_state sample_context
    = Ok (e', c', tr)
    /\ In (EvSubmit (frame_commands scene_state scene_inputs 0)) tr
    /\ m_shadowCastingNodes e' !! 0 = Some false
    /\ m_visibleNodes e' !! 0 = Some true
    /\ m_shadowCastingNodes e' !! 1 = Some true
    /\ m_visibleNodes e' !! 1 = Some true
    /\ m_shadowCastingNodes e' !! 2 = Some true
    /\ m_visibleNodes e' !! 2 = Some false
    /\ records_draw (frame_commands scene_state scene_inputs 0)
         [CmdBindVertexBuffers 10; CmdBindIndexBuffer 11;
          CmdBindDescriptorSets 0 (ShadowSet 0) [512%Z]; CmdDrawIndexed 3]
    /\ ~ records_draw (frame_commands scene_state scene_inputs 0)
           [CmdBindVertexBuffers 10; CmdBindIndexBuffer 11;
            CmdBindDescriptorSets 1 (ModelSet 0) [512%Z]; CmdDrawIndexed 3].
Proof.
  destruct (acquire_with_retry sample_env sample_context)
    as [[[[[res img] c1] k] tr0]| |] eqn:Hacq;
    pose proof Hacq as Hv; vm_compute in Hv; try discriminate Hv.
  injection Hv as <- <- Hc1 <- <-.
  destruct (frame_draws sample_platform sample_env scene_inputs scene_state
                        sample_context c1 0 0 [EvAcquire VK_SUCCESS])
    as (e' & c' & tr & Hu & Hin & Hnodes).
  - intros call. reflexivity.
  - exact Hacq.
  - rewrite <- Hc1. reflexivity.
  - intros node Hnode. cbv [m_nodes scene_state scene_nodes In] in Hnode.
    destruct Hnode as [<-|[<-|[<-|[]]]];
      (eexists; split; [reflexivity|]); eexists; reflexivity.
  - reflexivity.
  - reflexivity.
  - cbv [m_nodes scene_state scene_nodes List.length shadowUBOBufferSizePerNode].
    lia.
  - cbv [m_nodes scene_state scene_nodes List.length modelUBOBufferSizePerNode].
    lia.
  - destruct (Hnodes 0 _ eq_refl) as (_ & _ & _ & _ & Hs0 & Hv0 & _).
    destruct (Hnodes 1 _ eq_refl) as (_ & _ & _ & _ & Hs1 & Hv1 & _).
    destruct (Hnodes 2 _ eq_refl)
      as (mesh & entry & Hm & He & Hs2 & Hv2 & _ & _ & Hboth).
    cbv [scene_node m_mesh] in Hm. injection Hm as <-.
    change (Some (mkMeshData (mkAllocatedBuffer 10 1) (mkAllocatedBuffer 11 2))
            = Some entry) in He.
    injection He as <-.
    destruct (scene_node_flags 3 mesh_a) as [Hc3 Hw3].
    destruct (scene_node_flags 1 mesh_b) as [Hc1' Hw1].
    destruct (scene_node_flags (-1) mesh_a) as [Hc2 Hw2].
    assert (E0 : casts_shadow scene_inputs (scene_node 3 mesh_a) = false).
    { destruct (casts_shadow scene_inputs (scene_node 3 mesh_a));
        [|reflexivity].
      destruct (proj1 Hc3 eq_refl). lra. }
    assert (E0' : visible scene_inputs (scene_node 3 mesh_a) = true)
      by (apply Hw3; lra).
    assert (E1 : casts_shadow scene_inputs (scene_node 1 mesh_b) = true)
      by (apply Hc1'; lra).
    assert (E1' : visible scene_inputs (scene_node 1 mesh_b) = true)
      by (apply Hw1; lra).
    assert (E2 : casts_shadow scene_inputs (scene_node (-1) mesh_a) = true)
      by (apply Hc2; lra).
    assert (E2' : visible scene_inputs (scene_node (-1) mesh_a) = false).
    { destruct (visible scene_inputs (scene_node (-1) mesh_a));
        [|reflexivity].
      destruct (proj1 Hw2 eq_refl). lra. }
    rewrite E0 in Hs0. rewrite E0' in Hv0. rewrite E1 in Hs1.
    rewrite E1' in Hv1. rewrite E2 in Hs2. rewrite E2' in Hv2.
    exists e', c', tr.
    repeat (split; [assumption|]).
    exact (Hboth E2 E2').
Defined.

(** C8, as the code has it, for calls of [update] whose checked Vulkan
    calls succeed (a failing one throws out of [update]).  When the first
    acquire reports a stale surface (suboptimal or out of date), [update]
    calls [resize] once (which rebuilds the swapchain and the per-frame
    slots only if it finds a device and an extent that differs from the
    stored one, and otherwise returns false and only "Resize failed" is
    logged) and acquires exactly once more; if that second acquire does
    not succeed, the frame is skipped: no flag resize, no uniform update,
    no submit, no present, one queue-idle wait, and [update] returns with
    the engine state untouched but for the image index.  A first acquire
    that fails otherwise skips the frame the same way without a resize.
    A frame that reaches rendering on a prepared per-frame slot presents
    exactly once: when present reports a stale surface, [resize] is
    called once afterwards and present is not issued again, nor is the
    queue waited on. *)
Theorem update_stale_surface (pf : Platform) (env : Env) (fi : FrameInputs)
        (e : State) (c : Context) :
  checks_pass env ->
  let r0 := fst (env_acquire env 0) in
  let r1 := fst (env_acquire env 1) in
  let pres := env_present env in
  let ret := resize_rebuilds c (env_extent env 0) in
  (is_stale r0 = true -> is_success r1 = false ->
   exists c',
     let tr := [EvAcquire r0] ++ resize_events ret
               ++ [EvAcquire r1; EvQueueWaitIdle] in
     update pf env fi e c
     = Ok (set_currentIndex e (snd (env_acquire env 1)), c', tr)
     /\ count is_acquire tr = 2
     /\ count is_resize tr = 1
     /\ count is_frame_work tr = 0
     /\ count is_wait_idle tr = 1
     /\ ctx_swap c'
        = (if ret
           then fst (initSwapchain (ctx_swap c) (env_build env 0)
                                   (env_handles env 0))
           else ctx_swap c))
  /\ (is_stale r0 = false -> is_success r0 = false ->
      exists c',
        update pf env fi e c
        = Ok (set_currentIndex e (snd (env_acquire env 0)), c',
              [EvAcquire r0; EvQueueWaitIdle])
        /\ ctx_swap c' = ctx_swap c)
  /\ (forall img c1 k tr0,
        acquire_with_retry env c = Ok (VK_SUCCESS, img, c1, k, tr0) ->
        frame_ready c1 img = true ->
        (forall i node, m_nodes e !! i = Some node -> is_Some (m_mesh node)) ->
        exists e' c' writes cs,
          let tr := tr0 ++ [EvResizeFlags (List.length (m_nodes e));
                            EvUpdateUBO writes; EvSubmit cs; EvPresent pres]
                        ++ present_tail env c1 k in
          update pf env fi e c = Ok (e', c', tr)
          /\ count is_acquire tr = S k
          /\ (is_stale r0 = true <-> k = 1)
          /\ k <= 1
          /\ count is_present tr = 1
          /\ count is_wait_idle tr = 0
          /\ count is_resize tr = (if is_stale pres then S k else k)).
Proof.
  intros Hc r0 r1 pres ret. split; [|split].
  - intros Hst Hf.
    destruct (acquire_with_retry_stale env c Hc Hst Hf) as (c' & Hacq & Hswap).
    exists c'. cbv zeta. fold r0 r1 ret in Hacq, Hswap.
    split; [|split; [|split; [|split; [|split]]]].
    + unfold update. rewrite Hacq. cbn [bind]. fold r1. rewrite Hf.
      cbn [negb]. rewrite <- !app_assoc. reflexivity.
    + count_events.
    + count_events.
    + count_events.
    + count_events.
    + exact Hswap.
  - intros Hst Hf.
    destruct (acquire_failed env 0 c Hc Hf) as (c' & Hacq & Hswap).
    exists c'. split; [|exact Hswap].
    unfold update, acquire_with_retry. rewrite Hacq. cbn [bind].
    fold r0. rewrite Hst. cbn [bind]. rewrite Hf. reflexivity.
  - intros img c1 k tr0 Hacq Hready Hmesh.
    destruct (update_frame pf env fi e c c1 img k tr0 Hc Hacq Hready Hmesh)
      as (r & c3 & _ & Hu).
    destruct (acquire_with_retry_trace env c c1 _ img k tr0 Hacq)
      as (Hk & Ha & Hr & Hp & Hw & _ & Hiff).
    eexists _, c3, _, (cmds r). cbv zeta.
    split; [exact Hu|].
    rewrite !count_app, Ha, Hr, Hp, Hw.
    rewrite !count_present_tail by reflexivity.
    split; [cbn; lia|]. split; [exact Hiff|]. split; [exact Hk|].
    split; [cbn; lia|]. split; [cbn; lia|].
    unfold present_tail. fold pres.
    destruct (is_stale pres).
    + rewrite count_resize_calls. cbn. lia.
    + destruct (negb (is_success pres)); cbn; lia.
Qed.

Lemma update_stale_surface_witness :
  exists e' c',
    update sample_platform stale_acquire_env scene_inputs scene_state
           sample_context
    = Ok (e', c', [EvAcquire VK_ERROR_OUT_OF_DATE_KHR; EvResize true;
                   EvAcquire VK_ERROR_OUT_OF_DATE_KHR; EvQueueWaitIdle])
    /\ m_shadowCastingNodes e' = m_shadowCastingNodes scene_state
    /\ m_visibleNodes e' = m_visibleNodes scene_state
    /\ swapchain (ctx_swap c') = 3%Z
    /\ List.length (swap_perFrame (ctx_swap c')) = 3.
Proof.
  destruct (update_stale_surface sample_platform stale_acquire_env scene_inputs
                                 scene_state sample_context)
    as (Hskip & _ & _).
  - intros call. reflexivity.
  - destruct (Hskip eq_refl eq_refl) as (c' & Hu & _ & _ & _ & _ & Hswap).
    eexists _, c'. split; [exact Hu|].
    split; [reflexivity|]. split; [reflexivity|].
    rewrite Hswap. split; reflexivity.
Defined.

Lemma lost_surface_thrown :
  update sample_platform lost_surface_env scene_inputs scene_state sample_context
  = Thrown GetSurfaceCapabilities.
Proof. reflexivity. Qed.

(** The rule as stated fails in three places.  Where present reports a
    stale surface, the frame's trace holds one present, not two.  Where
    acquire reports a stale surface whose extent is the stored one,
    nothing is rebuilt: [resize] returns false.  Where the surface query
    of [resize] fails, an exception leaves [update] before any retry. *)
Lemma stale_rule_fails :
  ~ retries_stale_present sample_platform stale_present_env scene_inputs
                          scene_state sample_context
  /\ ~ rebuilds_on_stale sample_platform same_extent_env scene_inputs
                         scene_state sample_context
  /\ ~ retries_stale_acquire sample_platform lost_surface_env scene_inputs
                             scene_state sample_context.
Proof.
  assert (Hmesh : forall i node, m_nodes scene_state !! i = Some node ->
                                 is_Some (m_mesh node)).
  { intros i node Hi.
    do 3 (destruct i as [|i]; [injection Hi as <-; eexists; reflexivity|]).
    discriminate Hi. }
  split; [|split].
  - intros Hrule.
    destruct (acquire_with_retry stale_present_env sample_context)
      as [[[[[res img] c1] k] tr0]| |] eqn:Hacq;
      pose proof Hacq as Hv; vm_compute in Hv; try discriminate Hv.
    injection Hv as <- <- Hc1 <- <-.
    destruct (update_frame sample_platform stale_present_env scene_inputs
                scene_state sample_context c1 0 0 [EvAcquire VK_SUCCESS])
      as (r & c3 & _ & Hu).
    + intros call. reflexivity.
    + exact Hacq.
    + rewrite <- Hc1. reflexivity.
    + exact Hmesh.
    + specialize (Hrule _ _ _ Hu).
      rewrite !count_app, count_present_tail in Hrule by reflexivity.
      assert (H : 1 = 2); [|discriminate H].
      apply Hrule; [|reflexivity].
      rewrite !in_app_iff. right. left. simpl. auto.
  - intros Hrule.
    destruct (acquire_with_retry same_extent_env sample_context)
      as [[[[[res img] c1] k] tr0]| |] eqn:Hacq;
      pose proof Hacq as Hv; vm_compute in Hv; try discriminate Hv.
    injection Hv as <- <- Hc1 <- <-.
    destruct (update_frame sample_platform same_extent_env scene_inputs
                scene_state sample_context c1 0 1
                [EvAcquire VK_SUBOPTIMAL_KHR; EvResize false;
                 EvLogInfo 0; EvAcquire VK_SUCCESS])
      as (r & c3 & _ & Hu).
    + intros call. reflexivity.
    + exact Hacq.
    + rewrite <- Hc1. reflexivity.
    + exact Hmesh.
    + destruct (Hrule eq_refl) as (e' & c' & tr & Hu' & Hin).
      match type of Hu with
      | _ = Ok (_, _, ?t) => assert (Htr : tr = t) by congruence
      end.
      rewrite Htr in Hin. rewrite !in_app_iff in Hin.
      unfold present_tail in Hin.
      cbn [In env_present same_extent_env is_stale is_success negb] in Hin.
      intuition discriminate.
  - intros Hrule.
    destruct (Hrule eq_refl) as (e' & c' & tr & Hu & _).
    rewrite lost_surface_thrown in Hu. discriminate Hu.
Qed.

(** After a [resize] that rebuilt the swapchain, the per-frame slots are
    new and have no uniform allocations; a frame that goes on to render
    copies into a null allocation. *)
Remark rebuilt_frame_undefined :
  update sample_platform rebuilt_env scene_inputs scene_state sample_context
  = Undefined.
Proof. reflexivity. Qed.

End UpdateTheorems.

(** ** The model on concrete inputs *)

Section Examples.

Import Glm FrustumCulling NodeModel Engine Samples.
Local Open Scope R_scope.

Lemma sqrt_4 : sqrt 4 = 2.
Proof. replace 4 with (2 * 2) by ring. apply sqrt_square. lra. Qed.

(** Two points: the sphere over the segment between them. *)
Example computeBoundingSphere_two_points :
  computeBoundingSphere [mkVec3 0 0 0; mkVec3 2 0 0] = mkSphere (mkVec3 1 0 0) 1.
Proof.
  assert (Hfar : farthest (fun p : vec3 => p) [mkVec3 0 0 0; mkVec3 2 0 0]
                          (mkVec3 0 0 0) = 1%nat).
  { unfold farthest, farthest_loop, point_at, distance2, dot, sub3. simpl.
    destruct (Rgt_dec _ _) as [H|H]; [exfalso; lra|].
    destruct (Rgt_dec _ _) as [H'|H']; [reflexivity|exfalso; lra]. }
  assert (Hback : farthest (fun p : vec3 => p) [mkVec3 0 0 0; mkVec3 2 0 0]
                           (mkVec3 2 0 0) = 0%nat).
  { unfold farthest, farthest_loop, point_at, distance2, dot, sub3. simpl.
    destruct (Rgt_dec _ _) as [H|H]; [|exfalso; lra].
    destruct (Rgt_dec _ _) as [H'|H']; [exfalso; lra|reflexivity]. }
  assert (Hd : distance (mkVec3 2 0 0) (mkVec3 0 0 0) = 2).
  { unfold distance, length, dot, sub3. simpl.
    replace (_ + _ + _) with 4 by ring. apply sqrt_4. }
  assert (Hc : scale3 (add3 (mkVec3 2 0 0) (mkVec3 0 0 0)) (/ 2) = mkVec3 1 0 0).
  { unfold scale3, add3. simpl. f_equal; lra. }
  unfold computeBoundingSphere, computeBoundingSphere_gen.
  set (v := [mkVec3 0 0 0; mkVec3 2 0 0]) in *.
  change (point_at (fun p : vec3 => p) v 0) with (mkVec3 0 0 0).
  rewrite Hfar.
  change (point_at (fun p : vec3 => p) v 1) with (mkVec3 2 0 0).
  rewrite Hback.
  change (point_at (fun p : vec3 => p) v 0) with (mkVec3 0 0 0).
  rewrite Hd, Hc. replace (2 * / 2) with 1 by lra.
  assert (H0 : distance (mkVec3 0 0 0) (mkVec3 1 0 0) = 1).
  { unfold distance, length, dot, sub3. simpl.
    replace (_ + _ + _) with 1 by ring. apply sqrt_1. }
  assert (H1 : distance (mkVec3 2 0 0) (mkVec3 1 0 0) = 1).
  { unfold distance, length, dot, sub3. simpl.
    replace (_ + _ + _) with 1 by ring. apply sqrt_1. }
  change (List.length v) with 2%nat. cbn [grow_loop].
  change (point_at (fun p : vec3 => p) v 0) with (mkVec3 0 0 0).
  rewrite H0. destruct (Rgt_dec 1 1) as [H|_]; [exfalso; lra|].
  change (point_at (fun p : vec3 => p) v 1) with (mkVec3 2 0 0).
  rewrite H1. destruct (Rgt_dec 1 1) as [H|_]; [exfalso; lra|].
  reflexivity.
Qed.

(** A sphere far to the right of the box is culled by the right plane. *)
Example far_sphere_culled :
  sphereInFrustum box_frustum (mkSphere (mkVec3 1000 0 0) (/ 2)) = false.
Proof.
  unfold sphereInFrustum, sphere_loop, plane_distance, dot. simpl.
  destruct (Rlt_dec _ _) as [H|_]; [exfalso; lra|].
  destruct (Rlt_dec _ _) as [_|H]; [reflexivity|exfalso; lra].
Qed.

(** A sphere around the centre of the box is visible. *)
Example centred_sphere_visible :
  sphereInFrustum box_frustum (mkSphere zero3 (/ 2)) = true.
Proof.
  unfold sphereInFrustum, sphere_loop, plane_distance, dot. simpl.
  repeat (destruct (Rlt_dec _ _) as [H|_]; [exfalso; lra|]).
  reflexivity.
Qed.

(** Strides on a device with alignment 256, 64 and 0. *)
Example stride_examples :
  minDynamicUBOAlignment 256 132 = 256%Z
  /\ minDynamicUBOAlignment 64 132 = 192%Z
  /\ minDynamicUBOAlignment 64 64 = 64%Z
  /\ minDynamicUBOAlignment 0 132 = 132%Z.
Proof. repeat split. Qed.

(** 33 nodes: the 33rd shadow copy starts where the buffer ends. *)
Example thirty_third_write_out_of_bounds :
  let e := initShadowUB sample_platform (initModelUB sample_platform sample_state) in
  shadowUniformBufferSize e = 8192%Z
  /\ w_offset (shadow_write sample_platform identity4 e 32 sample_public) = 8192%Z
  /\ ~ in_bounds (shadowUniformBufferSize e)
                 (shadow_write sample_platform identity4 e 32 sample_public).
Proof.
  split; [reflexivity|]. split; [reflexivity|].
  unfold in_bounds. simpl. intros [_ H]. vm_compute in H. apply H. reflexivity.
Qed.

(** The role of the side conditions.  A negative radius (excluded by the
    data model of a bounding sphere) turns the test around: every distance
    is above the radius and the sphere is rejected all the same. *)
Remark negative_radius_rejected :
  (forall i, (i < 6)%nat ->
     - 2 <= plane_distance (planes box_frustum i) zero3)
  /\ sphereInFrustum box_frustum (mkSphere zero3 (- 2)) = false.
Proof.
  split.
  - intros i Hi.
    do 6 (destruct i as [|i]; [unfold plane_distance, dot; simpl; lra|]). lia.
  - unfold sphereInFrustum, sphere_loop, plane_distance, dot. simpl.
    destruct (Rlt_dec _ _) as [_|H]; [reflexivity|exfalso; lra].
Qed.

(** A size whose rounded-up value is [2^64] wraps to zero. *)
Remark stride_wraps :
  minDynamicUBOAlignment 2 (2 ^ 64 - 1) = 0%Z.
Proof. reflexivity. Qed.

End Examples.

(** * Further properties of the code *)

(** ** Meshes and the primitive generators *)

Section PrimitiveFacts.

Import Glm FrustumCulling NodeModel Loops Primitives.
Local Open Scope nat_scope.

Lemma to_u32_small (z : Z) : (0 <= z < 2 ^ 32)%Z -> to_u32 z = z.
Proof. intros H. apply Z.mod_small. exact H. Qed.

Lemma to_u64_small (z : Z) : (0 <= z < 2 ^ 64)%Z -> to_u64 z = z.
Proof. intros H. apply Z.mod_small. exact H. Qed.

Lemma to_int_small (z : Z) : (- 2 ^ 31 <= z < 2 ^ 31)%Z -> to_int z = z.
Proof. intros H. unfold to_int. rewrite Z.mod_small; lia. Qed.

Lemma for_range_app {St : Type} (i n k : nat) (body : nat -> St -> St) (s : St) :
  for_range i (n + k) body s = for_range (i + n) k body (for_range i n body s).
Proof.
  revert i s. induction n as [|n IH]; intros i s; simpl.
  - rewrite Nat.add_0_r. reflexivity.
  - rewrite IH. f_equal. lia.
Qed.

(** A loop whose body pushes one vertex per index. *)
Lemma for_range_vertices (f : nat -> Vertex) (n j : nat) (m : Mesh) :
  for_range j n (fun j m => fst (addVertex m (f j))) m
  = mkMesh (m_vertices m ++ map f (seq j n)) (m_indices m).
Proof.
  revert j m. induction n as [|n IH]; intros j m; simpl.
  - rewrite app_nil_r. destruct m; reflexivity.
  - rewrite IH. simpl. rewrite <- app_assoc. reflexivity.
Qed.

Lemma for_range_rows (vtx : nat -> nat -> Vertex) (nj n i : nat) (m : Mesh) :
  for_range i n
    (fun i m => for_range 0 nj (fun j m => fst (addVertex m (vtx i j))) m) m
  = mkMesh (m_vertices m ++ flat_map (fun i => map (vtx i) (seq 0 nj)) (seq i n))
           (m_indices m).
Proof.
  revert i m. induction n as [|n IH]; intros i m; cbn [for_range seq flat_map].
  - rewrite app_nil_r. destruct m; reflexivity.
  - rewrite for_range_vertices, IH. cbn [m_vertices m_indices].
    rewrite <- app_assoc. reflexivity.
Qed.

(** A loop whose body pushes a list of indices per index. *)
Lemma for_range_cells (cell : nat -> Mesh -> Mesh) (c : nat -> list Z)
      (n j : nat) (m : Mesh) :
  (forall j m, cell j m = mkMesh (m_vertices m) (m_indices m ++ c j)) ->
  for_range j n cell m
  = mkMesh (m_vertices m) (m_indices m ++ flat_map c (seq j n)).
Proof.
  intros Hcell. revert j m.
  induction n as [|n IH]; intros j m; cbn [for_range seq flat_map].
  - rewrite app_nil_r. destruct m; reflexivity.
  - rewrite IH, Hcell. cbn [m_vertices m_indices].
    rewrite <- app_assoc. reflexivity.
Qed.

Lemma for_range_cell_rows (cell : nat -> nat -> Mesh -> Mesh)
      (c : nat -> nat -> list Z) (ni nj : nat) (m : Mesh) :
  (forall i j m, cell i j m = mkMesh (m_vertices m) (m_indices m ++ c i j)) ->
  for_range 0 ni (fun i m => for_range 0 nj (fun j m => cell i j m) m) m
  = mkMesh (m_vertices m) (m_indices m ++ cells c ni nj).
Proof.
  intros Hcell. unfold cells.
  apply (for_range_cells
           (fun i m => for_range 0 nj (fun j m => cell i j m) m)
           (fun i => flat_map (c i) (seq 0 nj))).
  intros i m'. apply (for_range_cells (cell i) (c i)). apply Hcell.
Qed.

Lemma length_flat_map_uniform {A B : Type} (f : A -> list B) (k : nat)
      (l : list A) :
  (forall a, In a l -> List.length (f a) = k) ->
  List.length (flat_map f l) = List.length l * k.
Proof.
  induction l as [|a l IH]; intros H; simpl; [reflexivity|].
  rewrite length_app, H by (left; reflexivity).
  rewrite IH by (intros b Hb; apply H; right; exact Hb). reflexivity.
Qed.

Lemma length_grid (vtx : nat -> nat -> Vertex) (ni nj : nat) :
  List.length (grid vtx ni nj) = ni * nj.
Proof.
  unfold grid. rewrite (length_flat_map_uniform _ nj).
  - rewrite length_seq. reflexivity.
  - intros i _. rewrite length_map, length_seq. reflexivity.
Qed.

Lemma length_cells (c : nat -> nat -> list Z) (k ni nj : nat) :
  (forall i j, List.length (c i j) = k) ->
  List.length (cells c ni nj) = ni * (nj * k).
Proof.
  intros Hc. unfold cells. rewrite (length_flat_map_uniform _ (nj * k)).
  - rewrite length_seq. reflexivity.
  - intros i _. rewrite (length_flat_map_uniform _ k).
    + rewrite length_seq. reflexivity.
    + intros j _. apply Hc.
Qed.

(** Position [i * k + r] of a concatenation of blocks of length [k]. *)
Lemma nth_error_flat_map_uniform {B : Type} (f : nat -> list B) (k n i r : nat) :
  (forall a, List.length (f a) = k) -> i < n -> r < k ->
  nth_error (flat_map f (seq 0 n)) (i * k + r) = nth_error (f i) r.
Proof.
  intros Hlen Hi Hr.
  assert (Hgen : forall s, nth_error (flat_map f (seq s n)) (i * k + r)
                           = nth_error (f (s + i)) r).
  { revert i Hi. induction n as [|n IH]; intros i Hi s; [lia|]. simpl.
    destruct i as [|i].
    - simpl. rewrite Nat.add_0_r.
      rewrite nth_error_app1 by (rewrite Hlen; exact Hr). reflexivity.
    - rewrite nth_error_app2 by (rewrite Hlen; simpl; lia).
      rewrite Hlen. replace (S i * k + r - k) with (i * k + r) by (simpl; lia).
      rewrite IH by lia. f_equal. f_equal. lia. }
  apply (Hgen 0).
Qed.

Lemma nth_error_grid (vtx : nat -> nat -> Vertex) (ni nj i j : nat) :
  i < ni -> j < nj ->
  nth_error (grid vtx ni nj) (i * nj + j) = Some (vtx i j).
Proof.
  intros Hi Hj. unfold grid.
  rewrite (nth_error_flat_map_uniform _ nj) by
    (try assumption; intros a; rewrite length_map, length_seq; reflexivity).
  rewrite nth_error_map, nth_error_seq.
  destruct (Nat.ltb_spec j nj); [reflexivity|lia].
Qed.

Lemma In_grid (vtx : nat -> nat -> Vertex) (ni nj : nat) (v : Vertex) :
  In v (grid vtx ni nj) <-> exists i j, i < ni /\ j < nj /\ v = vtx i j.
Proof.
  unfold grid. rewrite in_flat_map. split.
  - intros (i & Hi & Hv). apply in_map_iff in Hv. destruct Hv as (j & <- & Hj).
    apply in_seq in Hi. apply in_seq in Hj. exists i, j. repeat split; lia.
  - intros (i & j & Hi & Hj & ->). exists i. split; [apply in_seq; lia|].
    apply in_map. apply in_seq. lia.
Qed.

Lemma Forall_cells (P : Z -> Prop) (c : nat -> nat -> list Z) (ni nj : nat) :
  (forall i j, i < ni -> j < nj -> Forall P (c i j)) ->
  Forall P (cells c ni nj).
Proof.
  intros H. unfold cells. apply List.Forall_flat_map. apply List.Forall_forall.
  intros i Hi. apply in_seq in Hi. apply List.Forall_flat_map. apply List.Forall_forall.
  intros j Hj. apply in_seq in Hj. apply H; lia.
Qed.

End PrimitiveFacts.

Section PlaneMeshTheorems.

Import Glm FrustumCulling NodeModel Loops Primitives.
Local Open Scope nat_scope.

Lemma plane_cell_pushes (ny : Z) (i j : nat) (m : Mesh) :
  plane_cell ny i j m
  = mkMesh (m_vertices m) (m_indices m ++ plane_cell_indices ny i j).
Proof.
  unfold plane_cell, plane_cell_indices, addIndex. cbn [m_vertices m_indices map].
  rewrite <- !app_assoc. reflexivity.
Qed.

Lemma PlaneMesh_layout (width height : R) (up : UpAxis) (nx ny : nat)
      (uvMap : UVMap) :
  PlaneMesh_generate width height up (Z.of_nat nx) (Z.of_nat ny) uvMap
  = mkMesh (grid (plane_vertex width height (Z.of_nat nx) (Z.of_nat ny) uvMap)
                 (nx + 1) (ny + 1))
           (cells (plane_cell_indices (Z.of_nat ny)) nx ny).
Proof.
  unfold PlaneMesh_generate.
  replace (Z.to_nat (Z.of_nat nx + 1)) with (nx + 1) by lia.
  replace (Z.to_nat (Z.of_nat ny + 1)) with (ny + 1) by lia.
  rewrite !Nat2Z.id.
  rewrite for_range_rows.
  rewrite (for_range_cell_rows (plane_cell (Z.of_nat ny))
                               (plane_cell_indices (Z.of_nat ny)))
    by apply plane_cell_pushes.
  reflexivity.
Qed.

(** The index of grid vertex [(i, j)] in a plane of [ny] cells per row. *)
Lemma plane_cell_values (nx ny i j : nat) :
  i < nx -> j < ny ->
  (Z.of_nat ((nx + 1) * (ny + 1)) < 2 ^ 31)%Z ->
  plane_cell_indices (Z.of_nat ny) i j
  = map Z.of_nat [i * (ny + 1) + j; (i + 1) * (ny + 1) + j;
                  i * (ny + 1) + (j + 1); i * (ny + 1) + (j + 1);
                  (i + 1) * (ny + 1) + j; (i + 1) * (ny + 1) + (j + 1)].
Proof.
  intros Hi Hj Hsmall. unfold plane_cell_indices.
  assert (Hg : (0 <= Z.of_nat i * (Z.of_nat ny + 1) + Z.of_nat j
                /\ Z.of_nat i * (Z.of_nat ny + 1) + Z.of_nat j
                   + (Z.of_nat ny + 1) + 1 < 2 ^ 31)%Z) by nia.
  rewrite (to_int_small (Z.of_nat i * (Z.of_nat ny + 1) + Z.of_nat j)) by lia.
  rewrite !to_int_small by lia.
  cbn [map]. rewrite !to_u32_small by lia.
  do 6 (apply (f_equal2 cons); [nia|]). reflexivity.
Qed.

(** X1. [PlaneMesh::generate] with [nx], [ny] cells lays down
    [(nx+1)*(ny+1)] vertices, row by row, and [6*nx*ny] indices; every
    index addresses a vertex of the mesh, and the six indices of cell
    [(i, j)] are the two triangles over its four corner vertices. *)
Theorem PlaneMesh_topology (width height : R) (up : UpAxis) (nx ny : nat)
        (uvMap : UVMap) :
  (Z.of_nat ((nx + 1) * (ny + 1)) < 2 ^ 31)%Z ->
  let m := PlaneMesh_generate width height up (Z.of_nat nx) (Z.of_nat ny) uvMap in
  let corner i j := i * (ny + 1) + j in
  numberOfVertices m = (nx + 1) * (ny + 1)
  /\ numberOfIndices m = 6 * nx * ny
  /\ indices_in_range m
  /\ (forall i j, i <= nx -> j <= ny ->
        vertex m (corner i j)
        = Some (plane_vertex width height (Z.of_nat nx) (Z.of_nat ny) uvMap i j))
  /\ (forall i j r, i < nx -> j < ny -> r < 6 ->
        index m ((i * ny + j) * 6 + r)
        = nth_error (map Z.of_nat
                         [corner i j; corner (i + 1) j; corner i (j + 1);
                          corner i (j + 1); corner (i + 1) j;
                          corner (i + 1) (j + 1)]) r).
Proof.
  intros Hsmall m corner. unfold m. rewrite PlaneMesh_layout.
  unfold numberOfVertices, numberOfIndices, indices_in_range, vertex, index.
  cbn [m_vertices m_indices].
  assert (Hlen6 : forall i j, List.length (plane_cell_indices (Z.of_nat ny) i j) = 6)
    by (intros; reflexivity).
  split; [apply length_grid|].
  split; [rewrite (length_cells _ 6) by exact Hlen6; lia|].
  split; [|split].
  - rewrite length_grid. apply Forall_cells. intros i j Hi Hj.
    rewrite (plane_cell_values nx ny) by assumption.
    repeat constructor; nia.
  - intros i j Hi Hj. unfold corner. apply nth_error_grid; lia.
  - intros i j r Hi Hj Hr. unfold cells.
    replace ((i * ny + j) * 6 + r) with (i * (ny * 6) + (j * 6 + r)) by lia.
    rewrite (nth_error_flat_map_uniform _ (ny * 6)); try lia.
    + rewrite (nth_error_flat_map_uniform _ 6) by (try assumption; exact (Hlen6 i)).
      rewrite (plane_cell_values nx ny) by assumption. reflexivity.
    + intros a. rewrite (length_flat_map_uniform _ 6).
      * rewrite length_seq. reflexivity.
      * intros b _. apply Hlen6.
Qed.

Lemma PlaneMesh_topology_witness :
  numberOfVertices (PlaneMesh_generate 6 6 UpZ 1 1 default_UVMap) = 4
  /\ numberOfIndices (PlaneMesh_generate 6 6 UpZ 1 1 default_UVMap) = 6
  /\ indices_in_range (PlaneMesh_generate 6 6 UpZ 1 1 default_UVMap).
Proof.
  destruct (PlaneMesh_topology 6 6 UpZ 1 1 default_UVMap) as (H1 & H2 & H3 & _).
  - simpl. lia.
  - split; [exact H1|]. split; [exact H2|exact H3].
Defined.



End PlaneMeshTheorems.

Section CubeMeshTheorems.

Import Glm FrustumCulling NodeModel Loops Primitives.
Local Open Scope nat_scope.

Lemma face_cell_pushes (start : Z) (cw : bool) (nx i j : nat) (m : Mesh) :
  face_cell start cw nx i j m
  = mkMesh (m_vertices m) (m_indices m ++ face_cell_indices start cw nx i j).
Proof.
  unfold face_cell, face_cell_indices, addIndex.
  destruct cw; cbn [m_vertices m_indices map];
    rewrite <- !app_assoc; reflexivity.
Qed.

Lemma buildPlane_layout (start : Z) (w h tx ty tz nX nY nZ : R) (cw : bool)
      (nx ny : nat) (m : Mesh) :
  buildPlane start w h tx ty tz nX nY nZ cw nx ny m
  = (mkMesh (m_vertices m
             ++ grid (face_vertex w h tx ty tz nX nY nZ nx ny) (nx + 1) (ny + 1))
            (m_indices m ++ cells (face_cell_indices start cw nx) nx ny),
     to_u32 (to_u64 (start + (Z.of_nat nx + 1) * (Z.of_nat ny + 1)))).
Proof.
  unfold buildPlane. rewrite for_range_rows.
  rewrite (for_range_cell_rows (face_cell start cw nx)
                               (face_cell_indices start cw nx))
    by apply face_cell_pushes.
  reflexivity.
Qed.

Lemma face_cell_range (start : Z) (cw : bool) (nx ny i j : nat) :
  i < nx -> j < ny ->
  (0 <= start)%Z ->
  (start + Z.of_nat ((nx + 1) * (ny + 1)) < 2 ^ 31)%Z ->
  Forall (fun idx => (start <= idx < start + Z.of_nat ((nx + 1) * (ny + 1)))%Z)
         (face_cell_indices start cw nx i j).
Proof.
  intros Hi Hj Hs Hsmall. unfold face_cell_indices.
  set (g := (start + Z.of_nat j * (Z.of_nat nx + 1) + Z.of_nat i)%Z).
  assert (Hg : (start <= g /\ g + (Z.of_nat nx + 1) + 1
                              < start + Z.of_nat ((nx + 1) * (ny + 1)))%Z)
    by (unfold g; nia).
  rewrite (to_u64_small g) by lia.
  rewrite (to_int_small g) by lia.
  rewrite (to_u64_small (g + _)) by lia.
  rewrite !to_int_small by lia.
  destruct cw; cbn [map]; rewrite !to_u32_small by lia;
    repeat constructor; lia.
Qed.

(** X3. One call of [buildPlane] on a mesh whose vertex count is
    [startingIndice] appends [(nx+1)*(ny+1)] vertices and [6*nx*ny]
    indices, keeps what the mesh held, returns the new vertex count, and
    every index it pushes addresses one of the vertices it pushed. *)
Theorem buildPlane_block (start : Z) (w h tx ty tz nX nY nZ : R) (cw : bool)
        (nx ny : nat) (m : Mesh) :
  start = Z.of_nat (numberOfVertices m) ->
  (start + Z.of_nat ((nx + 1) * (ny + 1)) < 2 ^ 31)%Z ->
  let m' := fst (buildPlane start w h tx ty tz nX nY nZ cw nx ny m) in
  let next := snd (buildPlane start w h tx ty tz nX nY nZ cw nx ny m) in
  numberOfVertices m' = numberOfVertices m + (nx + 1) * (ny + 1)
  /\ numberOfIndices m' = numberOfIndices m + 6 * nx * ny
  /\ next = Z.of_nat (numberOfVertices m')
  /\ firstn (numberOfVertices m) (m_vertices m') = m_vertices m
  /\ firstn (numberOfIndices m) (m_indices m') = m_indices m
  /\ Forall (fun idx => (start <= idx < next)%Z)
            (skipn (numberOfIndices m) (m_indices m')).
Proof.
  intros Hstart Hsmall m' next. unfold m', next.
  rewrite buildPlane_layout. cbn [fst snd].
  unfold numberOfVertices, numberOfIndices in *. cbn [m_vertices m_indices].
  assert (Hnext : to_u32 (to_u64 (start + (Z.of_nat nx + 1) * (Z.of_nat ny + 1)))
                  = (start + Z.of_nat ((nx + 1) * (ny + 1)))%Z).
  { rewrite to_u64_small by nia. rewrite to_u32_small by nia. nia. }
  rewrite Hnext.
  split; [rewrite length_app, length_grid; reflexivity|].
  split; [rewrite length_app, (length_cells _ 6) by (intros; destruct cw; reflexivity);
          lia|].
  split; [rewrite length_app, length_grid; lia|].
  split; [rewrite firstn_app, Nat.sub_diag, firstn_all; simpl;
          apply app_nil_r|].
  split; [rewrite firstn_app, Nat.sub_diag, firstn_all; simpl;
          apply app_nil_r|].
  rewrite skipn_app, Nat.sub_diag, skipn_all. simpl.
  apply Forall_cells. intros i j Hi Hj.
  apply face_cell_range; try assumption. lia.
Qed.

Lemma buildPlane_block_witness :
  numberOfVertices
    (fst (buildPlane 0 1 1 0 0 (/ 2) 0 0 1 false 2 3 empty_mesh)) = 12
  /\ snd (buildPlane 0 1 1 0 0 (/ 2) 0 0 1 false 2 3 empty_mesh) = 12%Z.
Proof.
  destruct (buildPlane_block 0 1 1 0 0 (/ 2) 0 0 1 false 2 3 empty_mesh)
    as (H1 & _ & H3 & _).
  - reflexivity.
  - simpl. lia.
  - split; [exact H1|]. rewrite H3, H1. reflexivity.
Defined.

Lemma indices_in_range_app (m : Mesh) (vs' : list Vertex) (ixs' : list Z) :
  indices_in_range m ->
  Forall (fun idx =>
            (0 <= idx < Z.of_nat (List.length (m_vertices m ++ vs')))%Z) ixs' ->
  indices_in_range (mkMesh (m_vertices m ++ vs') (m_indices m ++ ixs')).
Proof.
  unfold indices_in_range. cbn [m_vertices m_indices]. intros H1 H2.
  apply Forall_app. split; [|exact H2].
  eapply List.Forall_impl; [|exact H1]. cbn beta. intros idx Hidx.
  rewrite length_app. lia.
Qed.

(** One more face on a mesh that is well-formed so far. *)
Lemma buildPlane_well_formed (w h tx ty tz nX nY nZ : R) (cw : bool)
      (nx ny : nat) (m : Mesh) :
  indices_in_range m ->
  (Z.of_nat (numberOfVertices m + (nx + 1) * (ny + 1)) < 2 ^ 31)%Z ->
  let r := buildPlane (Z.of_nat (numberOfVertices m)) w h tx ty tz nX nY nZ
                      cw nx ny m in
  indices_in_range (fst r)
  /\ snd r = Z.of_nat (numberOfVertices (fst r))
  /\ numberOfVertices (fst r) = numberOfVertices m + (nx + 1) * (ny + 1)
  /\ numberOfIndices (fst r) = numberOfIndices m + 6 * nx * ny
  /\ m_vertices (fst r)
     = m_vertices m ++ grid (face_vertex w h tx ty tz nX nY nZ nx ny)
                            (nx + 1) (ny + 1).
Proof.
  intros Hwf Hsmall r. unfold r. rewrite buildPlane_layout. cbn [fst snd].
  unfold numberOfVertices, numberOfIndices in *. cbn [m_vertices m_indices].
  rewrite !length_app, length_grid.
  rewrite (length_cells _ 6) by (intros; destruct cw; reflexivity).
  split; [|split; [|split; [reflexivity|split; [lia|reflexivity]]]].
  - apply indices_in_range_app; [exact Hwf|].
    apply Forall_cells. intros i j Hi Hj.
    eapply List.Forall_impl;
      [|apply (face_cell_range _ cw nx ny i j Hi Hj); lia].
    cbn beta. intros idx Hidx. rewrite length_app, length_grid. lia.
  - rewrite to_u64_small by nia. rewrite to_u32_small by nia. nia.
Qed.

Ltac face_step H :=
  match goal with
  | |- context [buildPlane (Z.of_nat (numberOfVertices ?m)) ?w ?h ?tx ?ty ?tz
                           ?a ?b ?c ?cw ?nx ?ny ?m] =>
      let m' := fresh "m" in
      let i' := fresh "indice" in
      let E := fresh "E" in
      pose proof (buildPlane_well_formed w h tx ty tz a b c cw nx ny m) as H;
      cbv zeta in H;
      destruct (buildPlane (Z.of_nat (numberOfVertices m)) w h tx ty tz
                           a b c cw nx ny m) as [m' i'] eqn:E;
      cbn [fst snd] in H
  end.

Lemma CubeMesh_layout (width height depth : R) (nx ny : nat) :
  (Z.of_nat (6 * ((nx + 1) * (ny + 1))) < 2 ^ 31)%Z ->
  let m := CubeMesh_generate width height depth nx ny in
  indices_in_range m
  /\ numberOfIndices m = 36 * nx * ny
  /\ m_vertices m
     = grid (face_vertex width height 0 0 (depth * / 2) 0 0 1 nx ny) (nx + 1) (ny + 1)
       ++ grid (face_vertex width height 0 0 (- depth * / 2) 0 0 (-1) nx ny)
               (nx + 1) (ny + 1)
       ++ grid (face_vertex height depth (width * / 2) 0 0 1 0 0 nx ny)
               (nx + 1) (ny + 1)
       ++ grid (face_vertex height depth (- width * / 2) 0 0 (-1) 0 0 nx ny)
               (nx + 1) (ny + 1)
       ++ grid (face_vertex depth width 0 (height * / 2) 0 0 1 0 nx ny)
               (nx + 1) (ny + 1)
       ++ grid (face_vertex depth width 0 (- height * / 2) 0 0 (-1) 0 nx ny)
               (nx + 1) (ny + 1).
Proof.
  intros Hsmall m. unfold m, CubeMesh_generate.
  change (buildPlane 0) with (buildPlane (Z.of_nat (numberOfVertices empty_mesh))).
  face_step H1.
  destruct H1 as (Hw1 & -> & Hv1 & Hi1 & Hl1);
    [constructor|unfold numberOfVertices; simpl List.length; lia|].
  face_step H2.
  destruct H2 as (Hw2 & -> & Hv2 & Hi2 & Hl2);
    [exact Hw1|rewrite Hv1; unfold numberOfVertices; simpl List.length; lia|].
  face_step H3.
  destruct H3 as (Hw3 & -> & Hv3 & Hi3 & Hl3);
    [exact Hw2|rewrite Hv2, Hv1; unfold numberOfVertices; simpl List.length; lia|].
  face_step H4.
  destruct H4 as (Hw4 & -> & Hv4 & Hi4 & Hl4);
    [exact Hw3|rewrite Hv3, Hv2, Hv1; unfold numberOfVertices;
               simpl List.length; lia|].
  face_step H5.
  destruct H5 as (Hw5 & -> & Hv5 & Hi5 & Hl5);
    [exact Hw4|rewrite Hv4, Hv3, Hv2, Hv1; unfold numberOfVertices;
               simpl List.length; lia|].
  face_step H6.
  destruct H6 as (Hw6 & _ & Hv6 & Hi6 & Hl6);
    [exact Hw5|rewrite Hv5, Hv4, Hv3, Hv2, Hv1; unfold numberOfVertices;
               simpl List.length; lia|].
  split; [exact Hw6|]. split.
  - rewrite Hi6, Hi5, Hi4, Hi3, Hi2, Hi1. unfold numberOfIndices. simpl. lia.
  - rewrite Hl6, Hl5, Hl4, Hl3, Hl2, Hl1. simpl. rewrite <- !app_assoc.
    reflexivity.
Qed.

(** X4. [CubeMesh::generate] produces six faces of [(nx+1)*(ny+1)]
    vertices each and [36*nx*ny] indices, and every index addresses a
    vertex of the mesh. *)
Theorem CubeMesh_topology (width height depth : R) (nx ny : nat) :
  (Z.of_nat (6 * ((nx + 1) * (ny + 1))) < 2 ^ 31)%Z ->
  let m := CubeMesh_generate width height depth nx ny in
  numberOfVertices m = 6 * ((nx + 1) * (ny + 1))
  /\ numberOfIndices m = 36 * nx * ny
  /\ indices_in_range m.
Proof.
  intros Hsmall m.
  destruct (CubeMesh_layout width height depth nx ny Hsmall) as (Hw & Hi & Hl).
  fold m in Hw, Hi, Hl.
  split; [|split; [exact Hi|exact Hw]].
  unfold numberOfVertices. rewrite Hl, !length_app, !length_grid. lia.
Qed.

Lemma CubeMesh_topology_witness :
  numberOfVertices (CubeMesh_generate 1 1 1 2 3) = 72
  /\ numberOfIndices (CubeMesh_generate 1 1 1 2 3) = 216
  /\ indices_in_range (CubeMesh_generate 1 1 1 2 3).
Proof.
  apply (CubeMesh_topology 1 1 1 2 3). simpl. lia.
Defined.

Lemma grid_coord_range (len : R) (n k : nat) :
  0 < n -> k <= n -> (0 <= len)%R ->
  (- (len * / 2) <= - (len * / 2) + INR k * (len / INR n) <= len * / 2)%R.
Proof.
  intros Hn Hk Hlen.
  assert (Hn' : (0 < INR n)%R) by (apply lt_0_INR; exact Hn).
  assert (Hk0 : (0 <= INR k)%R) by apply pos_INR.
  assert (Hkn : (INR k <= INR n)%R) by (apply le_INR; exact Hk).
  assert (Hq : (0 <= INR k / INR n <= 1)%R).
  { split.
    - apply Rmult_le_pos; [exact Hk0|]. left. apply Rinv_0_lt_compat. exact Hn'.
    - apply (Rmult_le_reg_r (INR n)); [exact Hn'|].
      unfold Rdiv. rewrite Rmult_assoc, Rinv_l by lra. lra. }
  replace (INR k * (len / INR n))%R with (len * (INR k / INR n))%R
    by (unfold Rdiv; ring).
  nra.
Qed.

Lemma Rabs_half (a : R) :
  (0 <= a)%R -> Rabs (a * / 2) = (a / 2)%R /\ Rabs (- a * / 2) = (a / 2)%R.
Proof.
  intros Ha. split.
  - apply Rabs_pos_eq. lra.
  - replace (- a * / 2)%R with (- (a * / 2))%R by ring.
    rewrite Rabs_Ropp. apply Rabs_pos_eq. lra.
Qed.

Ltac on_face :=
  unfold face_vertex; cbn [position];
  repeat (destruct (Req_dec_T _ 0) as [?|?]; try (exfalso; lra));
  unfold on_box_surface, in_box; cbn [vx vy vz]; unfold Rdiv in *;
  split;
  [ repeat split; first [ apply Rabs_le; lra | apply Req_le; assumption ]
  | first [ left; assumption | right; left; assumption
          | right; right; assumption ] ].

(** X5. In exact real arithmetic (float rounding is not modelled: in
    binary32 a grid coordinate [-(width/2) + i * (width/nx)] can overshoot
    [width/2] by an ulp), with at least one cell per direction and
    non-negative extents, every vertex of the generated cube lies on the
    surface of the box of extents [width] x [height] x [depth] centred at
    the origin. *)
Theorem CubeMesh_on_box (width height depth : R) (nx ny : nat) :
  0 < nx -> 0 < ny ->
  (0 <= width)%R -> (0 <= height)%R -> (0 <= depth)%R ->
  (Z.of_nat (6 * ((nx + 1) * (ny + 1))) < 2 ^ 31)%Z ->
  forall v, In v (m_vertices (CubeMesh_generate width height depth nx ny)) ->
            on_box_surface width height depth (position v).
Proof.
  intros Hnx Hny Hw Hh Hd Hsmall v Hv.
  destruct (CubeMesh_layout width height depth nx ny Hsmall) as (_ & _ & Hl).
  rewrite Hl in Hv. rewrite !in_app_iff in Hv.
  destruct (Rabs_half width Hw) as [Aw1 Aw2].
  destruct (Rabs_half height Hh) as [Ah1 Ah2].
  destruct (Rabs_half depth Hd) as [Ad1 Ad2].
  destruct Hv as [Hv|[Hv|[Hv|[Hv|[Hv|Hv]]]]];
    apply In_grid in Hv; destruct Hv as (i & j & Hi & Hj & ->).
  - pose proof (grid_coord_range width nx i Hnx ltac:(lia) Hw) as Hx.
    pose proof (grid_coord_range height ny j Hny ltac:(lia) Hh) as Hy.
    on_face.
  - pose proof (grid_coord_range width nx i Hnx ltac:(lia) Hw) as Hx.
    pose proof (grid_coord_range height ny j Hny ltac:(lia) Hh) as Hy.
    on_face.
  - pose proof (grid_coord_range height nx i Hnx ltac:(lia) Hh) as Hx.
    pose proof (grid_coord_range depth ny j Hny ltac:(lia) Hd) as Hy.
    on_face.
  - pose proof (grid_coord_range height nx i Hnx ltac:(lia) Hh) as Hx.
    pose proof (grid_coord_range depth ny j Hny ltac:(lia) Hd) as Hy.
    on_face.
  - pose proof (grid_coord_range depth nx i Hnx ltac:(lia) Hd) as Hx.
    pose proof (grid_coord_range width ny j Hny ltac:(lia) Hw) as Hy.
    on_face.
  - pose proof (grid_coord_range depth nx i Hnx ltac:(lia) Hd) as Hx.
    pose proof (grid_coord_range width ny j Hny ltac:(lia) Hw) as Hy.
    on_face.
Qed.

Lemma CubeMesh_on_box_witness :
  Forall (fun v => on_box_surface 1 2 3 (position v))
         (m_vertices (CubeMesh_generate 1 2 3 1 1)).
Proof.
  apply List.Forall_forall.
  apply (CubeMesh_on_box 1 2 3 1 1); try lia; try lra.
Defined.

End CubeMeshTheorems.

Section SphereMeshTheorems.

Import Glm FrustumCulling NodeModel Loops Primitives.
Local Open Scope nat_scope.

Lemma sphere_cell_pushes (longs i j : nat) (m : Mesh) :
  sphere_cell longs i j m
  = mkMesh (m_vertices m) (m_indices m ++ sphere_cell_indices longs i j).
Proof.
  unfold sphere_cell, sphere_cell_indices, addIndex.
  cbn [m_vertices m_indices map]. rewrite <- !app_assoc. reflexivity.
Qed.

Lemma SphereMesh_layout (pi radius : R) (longs lats : nat) :
  SphereMesh_generate pi radius longs lats
  = mkMesh (grid (sphere_vertex pi radius longs lats) (lats + 1) (longs + 1))
           (cells (sphere_cell_indices longs) lats longs).
Proof.
  unfold SphereMesh_generate. rewrite for_range_rows.
  rewrite (for_range_cell_rows (sphere_cell longs) (sphere_cell_indices longs))
    by apply sphere_cell_pushes.
  reflexivity.
Qed.

Lemma sphere_cell_values (longs lats i j : nat) :
  i < lats -> j < longs ->
  (Z.of_nat ((lats + 1) * (longs + 1)) < 2 ^ 31)%Z ->
  sphere_cell_indices longs i j
  = map Z.of_nat [i * (longs + 1) + j; i * (longs + 1) + (j + 1);
                  (i + 1) * (longs + 1) + j; (i + 1) * (longs + 1) + j;
                  i * (longs + 1) + (j + 1); (i + 1) * (longs + 1) + (j + 1)].
Proof.
  intros Hi Hj Hsmall. unfold sphere_cell_indices.
  set (g := (Z.of_nat i * (Z.of_nat longs + 1) + Z.of_nat j)%Z).
  assert (Hg : (0 <= g /\ g + (Z.of_nat longs + 1) + 1 < 2 ^ 31)%Z)
    by (unfold g; nia).
  rewrite (to_u64_small g) by lia.
  rewrite (to_int_small g) by lia.
  rewrite (to_u64_small (g + _)) by lia.
  rewrite !to_int_small by lia.
  cbn [map]. rewrite !to_u32_small by lia.
  do 6 (apply (f_equal2 cons); [unfold g; nia|]). reflexivity.
Qed.

(** X6. [SphereMesh::generate] lays down [(lats+1)*(longs+1)] vertices,
    latitude by latitude, and [6*lats*longs] indices; every index
    addresses a vertex of the mesh, and the six indices of a cell are two
    triangles over its four corners. *)
Theorem SphereMesh_topology (pi radius : R) (longs lats : nat) :
  (Z.of_nat ((lats + 1) * (longs + 1)) < 2 ^ 31)%Z ->
  let m := SphereMesh_generate pi radius longs lats in
  let corner i j := i * (longs + 1) + j in
  numberOfVertices m = (lats + 1) * (longs + 1)
  /\ numberOfIndices m = 6 * lats * longs
  /\ indices_in_range m
  /\ (forall i j, i <= lats -> j <= longs ->
        vertex m (corner i j) = Some (sphere_vertex pi radius longs lats i j))
  /\ (forall i j r, i < lats -> j < longs -> r < 6 ->
        index m ((i * longs + j) * 6 + r)
        = nth_error (map Z.of_nat
                         [corner i j; corner i (j + 1); corner (i + 1) j;
                          corner (i + 1) j; corner i (j + 1);
                          corner (i + 1) (j + 1)]) r).
Proof.
  intros Hsmall m corner. unfold m. rewrite SphereMesh_layout.
  unfold numberOfVertices, numberOfIndices, indices_in_range, vertex, index.
  cbn [m_vertices m_indices].
  assert (Hlen6 : forall i j, List.length (sphere_cell_indices longs i j) = 6)
    by (intros; reflexivity).
  split; [apply length_grid|].
  split; [rewrite (length_cells _ 6) by exact Hlen6; lia|].
  split; [|split].
  - rewrite length_grid. apply Forall_cells. intros i j Hi Hj.
    rewrite (sphere_cell_values longs lats) by assumption.
    repeat constructor; nia.
  - intros i j Hi Hj. unfold corner. apply nth_error_grid; lia.
  - intros i j r Hi Hj Hr. unfold cells.
    replace ((i * longs + j) * 6 + r) with (i * (longs * 6) + (j * 6 + r)) by lia.
    rewrite (nth_error_flat_map_uniform _ (longs * 6)); try lia.
    + rewrite (nth_error_flat_map_uniform _ 6) by (try assumption; exact (Hlen6 i)).
      rewrite (sphere_cell_values longs lats) by assumption. reflexivity.
    + intros a. rewrite (length_flat_map_uniform _ 6).
      * rewrite length_seq. reflexivity.
      * intros b _. apply Hlen6.
Qed.

Lemma SphereMesh_topology_witness :
  numberOfVertices (SphereMesh_generate PI (/ 2) 4 3) = 20
  /\ numberOfIndices (SphereMesh_generate PI (/ 2) 4 3) = 72
  /\ indices_in_range (SphereMesh_generate PI (/ 2) 4 3).
Proof.
  destruct (SphereMesh_topology PI (/ 2) 4 3) as (H1 & H2 & H3 & _).
  - simpl. lia.
  - split; [exact H1|]. split; [exact H2|exact H3].
Defined.



End SphereMeshTheorems.

(** ** Meshes attached to nodes *)

Section MeshNodeTheorems.

Import Glm FrustumCulling NodeModel Loops Primitives Scene.
Local Open Scope R_scope.

(** X8. [addVertex] returns the position at which the vertex can be read
    back, grows the vertex count by one and leaves the earlier vertices
    and the indices alone; [addIndex] stores the index reduced to 32
    bits at the end of the index list. *)
Theorem addVertex_lookup (m : Mesh) (v : Vertex) :
  (Z.of_nat (numberOfVertices m) < 2 ^ 32)%Z ->
  let r := addVertex m v in
  snd r = Z.of_nat (numberOfVertices m)
  /\ vertex (fst r) (Z.to_nat (snd r)) = Some v
  /\ numberOfVertices (fst r) = S (numberOfVertices m)
  /\ (forall k u, vertex m k = Some u -> vertex (fst r) k = Some u)
  /\ m_indices (fst r) = m_indices m
  /\ (forall idx, index (addIndex m idx) (numberOfIndices m) = Some (to_u32 idx)
                  /\ m_vertices (addIndex m idx) = m_vertices m).
Proof.
  intros Hsmall r. unfold r, addVertex, addIndex, vertex, index,
    numberOfVertices, numberOfIndices in *. cbn [fst snd m_vertices m_indices].
  assert (Hidx : to_u32 (Z.of_nat (List.length (m_vertices m ++ [v])) - 1)
                 = Z.of_nat (List.length (m_vertices m))).
  { rewrite length_app. simpl List.length. rewrite to_u32_small; lia. }
  rewrite Hidx, Nat2Z.id.
  split; [reflexivity|]. split.
  - rewrite nth_error_app2 by lia. rewrite Nat.sub_diag. reflexivity.
  - split; [rewrite length_app; simpl; lia|]. split; [|split; [reflexivity|]].
    + intros k u Hk. rewrite nth_error_app1; [exact Hk|].
      apply nth_error_Some. rewrite Hk. discriminate.
    + intros idx. split; [|reflexivity].
      rewrite nth_error_app2 by lia. rewrite Nat.sub_diag. reflexivity.
Qed.

Lemma addVertex_lookup_witness :
  snd (addVertex empty_mesh (mkVertex zero3 zero3 (0, 0))) = 0%Z
  /\ vertex (fst (addVertex empty_mesh (mkVertex zero3 zero3 (0, 0)))) 0
     = Some (mkVertex zero3 zero3 (0, 0)).
Proof.
  destruct (addVertex_lookup empty_mesh (mkVertex zero3 zero3 (0, 0)))
    as (H1 & H2 & _).
  - reflexivity.
  - split; [exact H1|]. rewrite H1 in H2. exact H2.
Defined.

Lemma sphere_fresh_new (mesh : shared_ptr Mesh)
      (texture : option (shared_ptr Texture)) :
  sphere_fresh (Node_new mesh texture).
Proof. intros mesh' H. simpl in H. injection H as <-. reflexivity. Qed.

Lemma sphere_fresh_op (n : Node) (op : NodeOp) :
  keeps_vertices op -> sphere_fresh n -> sphere_fresh (apply_op n op).
Proof.
  intros Hop Hn. destruct op; unfold sphere_fresh in *; simpl;
    try exact Hn; try contradiction.
  - intros mesh' H. injection H as <-. reflexivity.
  - unfold mesh_addIndex, grow_mesh. cbn [m_mesh m_boundingSphere].
    intros mesh' H. destruct (m_mesh n) as [sp|] eqn:E; [|discriminate H].
    cbn [option_map] in H. injection H as <-. cbn [pointee vertices m_vertices].
    apply (Hn sp). reflexivity.
Qed.

Lemma transform_translation (m : mat4) (p : vec3) :
  col0 m = mkVec4 1 0 0 0 -> col1 m = mkVec4 0 1 0 0 -> col2 m = mkVec4 0 0 1 0 ->
  w4 (col3 m) = 1 ->
  transform_point m p = add3 p (translation m).
Proof.
  intros H0 H1 H2 H3. destruct m as [c0 c1 c2 [tx ty tz tw]].
  simpl in *. subst. unfold transform_point, translation, add3, mul_col, row,
    at_, dot4. simpl. f_equal; ring.
Qed.

Lemma distance_shift (a b t : vec3) :
  distance (add3 a t) (add3 b t) = distance a b.
Proof.
  unfold distance. f_equal. destruct a, b, t. unfold sub3, add3. simpl.
  f_equal; ring.
Qed.

Lemma quat_of_euler_zero : mat4_cast (quat_of_euler zero3) = identity.
Proof.
  unfold quat_of_euler, mat4_cast, identity, zero3. cbn [vx vy vz qw qx qy qz].
  rewrite Rmult_0_l, cos_0, sin_0.
  f_equal; f_equal; ring.
Qed.

Lemma node_vertex_in_sphere (n : Node) (mesh : shared_ptr Mesh) (v : Vertex) :
  public_node n ->
  sphere_fresh n ->
  mat4_cast (m_quat n) = identity ->
  m_mesh n = Some mesh ->
  In v (vertices (pointee mesh)) ->
  distance (transform_point (worldMatrix n) (position v))
           (center (boundingSphere n))
  <= radius (boundingSphere n).
Proof.
  intros Hpub Hfresh Hrot Hmesh Hv.
  specialize (Hfresh mesh Hmesh).
  destruct (ritter_contains position (vertices (pointee mesh))) as [_ Hall].
  unfold boundingSphere. cbn [center radius]. rewrite Hfresh.
  rewrite worldMatrix_unfold, (public_parent_empty n Hpub). simpl lock. cbv iota.
  rewrite transform_translation.
  - rewrite translation_localMatrix, distance_shift. apply Hall. exact Hv.
  - unfold localMatrix. rewrite Hrot. reflexivity.
  - unfold localMatrix. rewrite Hrot. reflexivity.
  - unfold localMatrix. rewrite Hrot. reflexivity.
  - reflexivity.
Qed.

(** X9. In exact real arithmetic (float rounding is not modelled): for a
    node made through the public interface, left unrotated, and
    whose mesh has had no vertex added since the node was constructed or
    [setMesh] was last called (the cached sphere is computed only then),
    the sphere handed to the frustum tests has a non-negative radius and
    contains every vertex of the node's mesh as placed by
    [worldMatrix()].  The constructor and [setMesh] establish that state,
    and every operation except adding a vertex to the shared mesh keeps
    it. *)
Theorem culling_sphere_sound (n : Node) (mesh : shared_ptr Mesh) :
  public_node n ->
  sphere_fresh n ->
  mat4_cast (m_quat n) = identity ->
  m_mesh n = Some mesh ->
  (0 <= radius (boundingSphere n)
   /\ forall v, In v (vertices (pointee mesh)) ->
        distance (transform_point (worldMatrix n) (position v))
                 (center (boundingSphere n))
        <= radius (boundingSphere n))
  /\ (forall mesh' texture, sphere_fresh (Node_new mesh' texture))
  /\ (forall mesh', sphere_fresh (setMesh n mesh'))
  /\ (forall op, keeps_vertices op -> sphere_fresh (apply_op n op)).
Proof.
  intros Hpub Hfresh Hrot Hmesh. split; [split|split; [|split]].
  - unfold boundingSphere. cbn [radius]. rewrite (Hfresh mesh Hmesh).
    apply (ritter_contains position (vertices (pointee mesh))).
  - intros v Hv. apply (node_vertex_in_sphere n mesh v); assumption.
  - apply sphere_fresh_new.
  - intros mesh'. apply (sphere_fresh_op n (OpSetMesh mesh') I Hfresh).
  - intros op Hop. apply sphere_fresh_op; assumption.
Qed.

(** A vertex added to the mesh after the node was made is missed: the
    node is still one the public interface produces, yet the new vertex
    lies outside the sphere the frustum tests are given. *)
Remark stale_sphere_misses_vertex (mesh : shared_ptr Mesh)
       (texture : option (shared_ptr Texture)) :
  let bs := boundingSphere (Node_new mesh texture) in
  let v := mkVertex (add3 (center bs) (mkVec3 (radius bs + 1) 0 0))
                    (mkVec3 0 0 1) (0, 0) in
  let n := mesh_addVertex (Node_new mesh texture) v in
  public_node n
  /\ (exists mesh', m_mesh n = Some mesh' /\ In v (vertices (pointee mesh')))
  /\ radius (boundingSphere n)
     < distance (transform_point (worldMatrix n) (position v))
                (center (boundingSphere n)).
Proof.
  intros bs v n.
  assert (Hpub : public_node n).
  { apply (public_op (Node_new mesh texture) (OpMeshAddVertex v)).
    apply public_new. }
  split; [exact Hpub|]. split.
  - eexists. split; [reflexivity|]. cbn [pointee vertices m_vertices].
    apply in_or_app. right. left. reflexivity.
  - rewrite worldMatrix_unfold, (public_parent_empty n Hpub). simpl lock.
    cbv iota.
    rewrite transform_translation;
      try (unfold localMatrix;
           rewrite (quat_of_euler_zero : mat4_cast (m_quat n) = identity);
           reflexivity);
      try reflexivity.
    rewrite translation_localMatrix.
    change (boundingSphere n) with bs.
    change (m_pos n) with zero3.
    assert (Hr : 0 <= radius bs).
    { unfold bs, boundingSphere. cbn [radius m_boundingSphere Node_new].
      apply (ritter_contains position (vertices (pointee mesh))). }
    assert (Hd : distance (add3 (position v) zero3) (center bs) = radius bs + 1).
    { unfold distance. apply length_unique; [lra|].
      unfold v. cbn [position]. destruct (center bs) as [cx cy cz].
      unfold dot, sub3, add3, zero3. cbn [vx vy vz]. ring. }
    rewrite Hd. lra.
Qed.

Lemma culling_sphere_sound_witness :
  0 <= radius (boundingSphere Samples.sample_public).
Proof.
  assert (Hp : public_node Samples.sample_public).
  { apply (public_op (Node_new Samples.sample_mesh None)
                     (OpSetPosition (mkVec3 1 0 0))).
    apply public_new. }
  assert (Hf : sphere_fresh Samples.sample_public).
  { apply (sphere_fresh_op (Node_new Samples.sample_mesh None)
                           (OpSetPosition (mkVec3 1 0 0)) I).
    apply sphere_fresh_new. }
  exact (proj1 (proj1 (culling_sphere_sound Samples.sample_public
                         Samples.sample_mesh Hp Hf quat_of_euler_zero eq_refl))).
Defined.

End MeshNodeTheorems.

(** ** The camera *)

Section CameraTheorems.

Import Glm CameraModel.
Local Open Scope R_scope.

Lemma handleMouseEvent_pitch (c : Camera) (xrel yrel : R) :
  pitch_in_range (handleMouseEvent c (MouseMotion xrel yrel)).
Proof.
  unfold pitch_in_range, handleMouseEvent. cbn [m_pitch].
  destruct (Rgt_dec _ 89) as [H|H];
    destruct (Rlt_dec _ (-89)) as [H'|H']; lra.
Qed.

(** X10. A mouse-motion event leaves the pitch within [-89, 89] degrees
    whatever it was before, and no mouse event changes position, speed or
    sensitivity; so after any run of events that contains a motion event,
    or that starts from a pitch in range, the pitch is in range. *)
Theorem mouse_keeps_pitch_in_range (c : Camera) (es : list SDL_Event) :
  pitch_in_range c \/ (exists x y, In (MouseMotion x y) es) ->
  let c' := handleMouseEvents c es in
  pitch_in_range c'
  /\ m_position c' = m_position c
  /\ m_speed c' = m_speed c
  /\ m_sensitivity c' = m_sensitivity c.
Proof.
  intros H. unfold handleMouseEvents. revert c H.
  induction es as [|e es IH]; intros c H; simpl.
  - destruct H as [H|(x & y & [])]. split; [exact H|repeat split; reflexivity].
  - assert (Hkeep : m_position (handleMouseEvent c e) = m_position c
                    /\ m_speed (handleMouseEvent c e) = m_speed c
                    /\ m_sensitivity (handleMouseEvent c e) = m_sensitivity c)
      by (destruct e; repeat split; reflexivity).
    destruct Hkeep as (K1 & K2 & K3).
    destruct (IH (handleMouseEvent c e)) as (I1 & I2 & I3 & I4).
    + destruct e as [x y|].
      * left. apply handleMouseEvent_pitch.
      * destruct H as [H|(x & y & [Hxy|Hxy])]; [left; exact H|discriminate|].
        right. exists x, y. exact Hxy.
    + split; [exact I1|]. rewrite I2, I3, I4. repeat split; assumption.
Qed.

Lemma mouse_keeps_pitch_in_range_witness :
  pitch_in_range
    (handleMouseEvents (mkCamera zero3 0 500 1 (/ 10))
                       [OtherEvent; MouseMotion 3 (-4000); OtherEvent]).
Proof.
  apply (mouse_keeps_pitch_in_range (mkCamera zero3 0 500 1 (/ 10))
           [OtherEvent; MouseMotion 3 (-4000); OtherEvent]).
  right. exists 3, (-4000). simpl. auto.
Defined.







End CameraTheorems.

(** ** Per-frame resources *)

Section ResourceTheorems.

Import Engine Resources.
Local Open Scope Z_scope.

Lemma frame_semaphores_app (a b : list PerFrame) :
  frame_semaphores (a ++ b) = frame_semaphores a ++ frame_semaphores b.
Proof. unfold frame_semaphores. rewrite map_app, List.filter_app. reflexivity. Qed.

Lemma frame_semaphores_insert (fs : list PerFrame) (i : nat) (pf : PerFrame) (s : Z) :
  fs !! i = Some pf -> s <> 0 ->
  Permutation
    (frame_semaphores (<[ i := set_acquire_semaphore pf s ]> fs)
     ++ (if swapchain_acquire_semaphore pf =? VK_NULL_HANDLE then []
         else [swapchain_acquire_semaphore pf]))
    (s :: frame_semaphores fs).
Proof.
  intros Hi Hs.
  pose proof (lookup_lt_Some _ _ _ Hi) as Hlt.
  rewrite insert_take_drop by exact Hlt.
  rewrite <- (take_drop_middle fs i pf Hi) at 3.
  change (set_acquire_semaphore pf s :: drop (S i) fs)
    with ([set_acquire_semaphore pf s] ++ drop (S i) fs).
  change (pf :: drop (S i) fs) with ([pf] ++ drop (S i) fs).
  rewrite !frame_semaphores_app.
  assert (H1 : frame_semaphores [set_acquire_semaphore pf s] = [s]).
  { unfold frame_semaphores. simpl. unfold VK_NULL_HANDLE.
    destruct (Z.eqb_spec s 0); [contradiction|reflexivity]. }
  assert (H2 : frame_semaphores [pf]
               = if swapchain_acquire_semaphore pf =? VK_NULL_HANDLE then []
                 else [swapchain_acquire_semaphore pf]).
  { unfold frame_semaphores. simpl.
    destruct (swapchain_acquire_semaphore pf =? VK_NULL_HANDLE); reflexivity. }
  rewrite H1, <- H2.
  set (a := frame_semaphores (take i fs)).
  set (b := frame_semaphores (drop (S i) fs)).
  set (o := frame_semaphores [pf]).
  rewrite <- !app_assoc.
  transitivity (s :: a ++ b ++ o).
  - symmetry. apply (Permutation_middle a (b ++ o) s).
  - apply perm_skip. apply Permutation_app_head. apply Permutation_app_comm.
Qed.

Lemma acquire_pick (rec : list Z) (fresh s : Z) (rest : list Z) (c : list Call) :
  match rec with
  | [] => (fresh, [], [CreateSemaphore fresh])
  | _ :: _ => (List.last rec 0, removelast rec, [])
  end = (s, rest, c) ->
  rest ++ [s] = (if rec is [] then [fresh] else []) ++ rec
  /\ c = (if rec is [] then [CreateSemaphore fresh] else []).
Proof.
  destruct rec as [|s0 rec0] eqn:Erec.
  - intros [= <- <- <-]. split; reflexivity.
  - rewrite <- Erec. intros [= <- <- <-]. split; [|reflexivity].
    cbn [app]. symmetry. apply app_removelast_last. rewrite Erec. discriminate.
Qed.

(** X12. [acquireNextSwapchainImage] neither loses nor duplicates a
    semaphore: whether the acquire succeeds or fails, the semaphores held
    afterwards (recycle list plus the frames' acquire semaphores) are those
    held before, plus the newly created one when the recycle list was
    empty; a semaphore is created only then.  So the semaphores stay
    distinct and non-null. *)
Theorem acquire_conserves_semaphores (ctx ctx' : Frames) (fresh : Z)
        (res r : VkResult) (image : nat) (calls : list Call) :
  fresh <> 0 ->
  Forall (fun s => s <> 0) (recycledSemaphores ctx) ->
  acquireNextSwapchainImage ctx fresh res image = Some (r, ctx', calls) ->
  let created := if recycledSemaphores ctx is [] then [fresh] else [] in
  Permutation (owned_semaphores ctx') (created ++ owned_semaphores ctx)
  /\ (In (CreateSemaphore fresh) calls <-> recycledSemaphores ctx = [])
  /\ Forall (fun s => s <> 0) (recycledSemaphores ctx')
  /\ (List.NoDup (owned_semaphores ctx) -> ~ In fresh (owned_semaphores ctx) ->
      List.NoDup (owned_semaphores ctx')).
Proof.
  intros Hfresh Hnz Hacq created.
  assert (Hperm : Permutation (owned_semaphores ctx')
                              (created ++ owned_semaphores ctx)
                  /\ (In (CreateSemaphore fresh) calls
                      <-> recycledSemaphores ctx = [])
                  /\ Forall (fun s => s <> 0) (recycledSemaphores ctx')).
  { unfold acquireNextSwapchainImage in Hacq. unfold owned_semaphores.
    destruct ctx as [rec fs]. cbn [recycledSemaphores perFrame] in *.
    destruct (match rec with
              | [] => (fresh, [], [CreateSemaphore fresh])
              | _ :: _ => (List.last rec 0, removelast rec, [])
              end) as [[s rest] c] eqn:Epick.
    apply acquire_pick in Epick. destruct Epick as [Hsplit Hc].
    fold created in Hsplit.
    assert (Hall : Forall (fun s => s <> 0) (rest ++ [s])).
    { rewrite Hsplit. apply Forall_app. split; [|exact Hnz].
      unfold created. destruct rec; repeat constructor. exact Hfresh. }
    apply Forall_app in Hall. destruct Hall as [Hrest Hs].
    inversion Hs as [|? ? Hs0 _]; subst.
    assert (Hcreate : forall tail,
               ~ In (CreateSemaphore fresh) tail ->
               In (CreateSemaphore fresh)
                  ((if rec is [] then [CreateSemaphore fresh] else []) ++ tail)
               <-> rec = []).
    { intros tail Ht. rewrite in_app_iff. destruct rec; simpl.
      - intuition.
      - split; [intros [[]|H]; contradiction|discriminate]. }
    destruct (is_success res); cbn [negb] in Hacq.
    - destruct (fs !! image) as [pf|] eqn:Hpf; [|discriminate Hacq].
      injection Hacq as <- <- <-. cbn [recycledSemaphores perFrame].
      split; [|split].
      + pose proof (frame_semaphores_insert fs image pf s Hpf Hs0) as HP.
        rewrite app_assoc, <- Hsplit.
        destruct (swapchain_acquire_semaphore pf =? VK_NULL_HANDLE) eqn:Eold.
        * rewrite app_nil_r in HP. rewrite HP.
          rewrite <- app_assoc. apply Permutation_app_head.
          apply Permutation_refl.
        * rewrite <- !app_assoc. apply Permutation_app_head.
          transitivity (frame_semaphores
                          (<[image:=set_acquire_semaphore pf s]> fs)
                        ++ [swapchain_acquire_semaphore pf]).
          -- apply Permutation_app_comm.
          -- rewrite HP. reflexivity.
      + destruct (queue_submit_fence pf =? VK_NULL_HANDLE);
          destruct (primary_command_pool pf =? VK_NULL_HANDLE);
          rewrite <- ?app_assoc; apply Hcreate; simpl; intuition discriminate.
      + destruct (Z.eqb_spec (swapchain_acquire_semaphore pf) VK_NULL_HANDLE);
          [exact Hrest|].
        apply Forall_app. split; [exact Hrest|]. repeat constructor. exact n.
    - injection Hacq as <- <- <-. cbn [recycledSemaphores perFrame].
      split; [|split].
      + rewrite app_assoc, <- Hsplit. reflexivity.
      + apply Hcreate. simpl. intuition discriminate.
      + apply Forall_app. split; [exact Hrest|exact Hs]. }
  destruct Hperm as (HP & Hcreate & Hnz').
  split; [exact HP|]. split; [exact Hcreate|]. split; [exact Hnz'|].
  intros Hnd Hnotin. eapply Permutation_NoDup; [symmetry; exact HP|].
  unfold created. destruct (recycledSemaphores ctx); [|exact Hnd].
  cbn [app]. constructor; assumption.
Qed.

Lemma acquire_conserves_semaphores_witness :
  exists ctx' calls,
    acquireNextSwapchainImage ResourceSamples.sample_frames 9 VK_SUCCESS 0
    = Some (VK_SUCCESS, ctx', calls)
    /\ Permutation (owned_semaphores ctx')
                   (owned_semaphores ResourceSamples.sample_frames)
    /\ List.NoDup (owned_semaphores ctx').
Proof.
  eexists. eexists. split; [reflexivity|].
  assert (H9 : (9 : Z) <> 0) by discriminate.
  assert (Hnz : Forall (fun s : Z => s <> 0)
                       (recycledSemaphores ResourceSamples.sample_frames))
    by (repeat constructor; discriminate).
  destruct (acquire_conserves_semaphores ResourceSamples.sample_frames _ 9
              VK_SUCCESS _ 0%nat _ H9 Hnz eq_refl) as (HP & _ & _ & Hnd).
  split; [exact HP|]. apply Hnd.
  - repeat constructor; simpl; intuition discriminate.
  - simpl. intuition discriminate.
Defined.

(** X13. A failed acquire touches no frame: whatever image index was
    reported (even one past the end), [acquireNextSwapchainImage] returns
    the failing result itself, leaves every per-frame slot as it was and
    puts the semaphore back at the end of the recycle list, so a non-empty
    recycle list is exactly as before; no fence is waited on and no
    command pool is reset. *)
Theorem acquire_failure_keeps_frames (ctx : Frames) (fresh : Z) (res : VkResult)
        (image : nat) :
  is_success res = false ->
  exists calls,
    acquireNextSwapchainImage ctx fresh res image
    = Some (res,
            mkFrames ((if recycledSemaphores ctx is [] then [fresh] else [])
                      ++ recycledSemaphores ctx)
                     (perFrame ctx),
            calls)
    /\ Forall (fun c => match c with
                        | CreateSemaphore _ | AcquireNextImage _ => True
                        | _ => False
                        end) calls.
Proof.
  intros Hres. unfold acquireNextSwapchainImage.
  destruct (match recycledSemaphores ctx with
            | [] => (fresh, [], [CreateSemaphore fresh])
            | _ :: _ => (List.last (recycledSemaphores ctx) 0,
                         removelast (recycledSemaphores ctx), [])
            end) as [[s rest] c] eqn:Epick.
  apply acquire_pick in Epick. destruct Epick as [Hsplit ->].
  rewrite Hres. cbn [negb]. eexists. split.
  - rewrite Hsplit. reflexivity.
  - apply Forall_app. split; [|repeat constructor].
    destruct (recycledSemaphores ctx); repeat constructor.
Qed.

Lemma acquire_failure_keeps_frames_witness :
  exists calls,
    acquireNextSwapchainImage ResourceSamples.sample_frames 9
                              VK_ERROR_OUT_OF_DATE_KHR 5
    = Some (VK_ERROR_OUT_OF_DATE_KHR, ResourceSamples.sample_frames, calls).
Proof.
  destruct (acquire_failure_keeps_frames ResourceSamples.sample_frames 9
              VK_ERROR_OUT_OF_DATE_KHR 5 eq_refl) as [calls [H _]].
  exists calls. exact H.
Defined.

(** X14. A successful acquire changes one slot only: slot [image] gets
    the very semaphore that was handed to [vkAcquireNextImageKHR] and is
    otherwise as before, every other slot is untouched, and the fence of
    that slot, when there is one, is waited on and then reset after the
    acquire call. *)
Theorem acquire_success_updates_slot (ctx ctx' : Frames) (fresh : Z)
        (res r : VkResult) (image : nat) (calls : list Call) (pf : PerFrame) :
  is_success res = true ->
  perFrame ctx !! image = Some pf ->
  acquireNextSwapchainImage ctx fresh res image = Some (r, ctx', calls) ->
  exists s before after,
    calls = before ++ [AcquireNextImage s] ++ after
    /\ r = VK_SUCCESS
    /\ perFrame ctx' !! image = Some (set_acquire_semaphore pf s)
    /\ (forall j, j <> image -> perFrame ctx' !! j = perFrame ctx !! j)
    /\ List.length (perFrame ctx') = List.length (perFrame ctx)
    /\ (queue_submit_fence pf <> VK_NULL_HANDLE ->
        exists rest, after = WaitForFences (queue_submit_fence pf)
                             :: ResetFences (queue_submit_fence pf) :: rest)
    /\ (queue_submit_fence pf = VK_NULL_HANDLE ->
        Forall (fun c => match c with
                         | WaitForFences _ | ResetFences _ => False
                         | _ => True
                         end) calls).
Proof.
  intros Hres Hpf Hacq. unfold acquireNextSwapchainImage in Hacq.
  destruct (match recycledSemaphores ctx with
            | [] => (fresh, [], [CreateSemaphore fresh])
            | _ :: _ => (List.last (recycledSemaphores ctx) 0,
                         removelast (recycledSemaphores ctx), [])
            end) as [[s rest] c] eqn:Epick.
  apply acquire_pick in Epick. destruct Epick as [_ ->].
  rewrite Hres, Hpf in Hacq. cbn [negb] in Hacq.
  pose proof (lookup_lt_Some _ _ _ Hpf) as Hlt.
  set (c := if recycledSemaphores ctx is [] then [CreateSemaphore fresh] else [])
    in *.
  assert (Hc : Forall (fun c => match c with
                                | WaitForFences _ | ResetFences _ => False
                                | _ => True
                                end) c)
    by (unfold c; destruct (recycledSemaphores ctx); repeat constructor).
  exists s, c.
  destruct (Z.eqb_spec (queue_submit_fence pf) VK_NULL_HANDLE) as [Hf|Hf];
    destruct (primary_command_pool pf =? VK_NULL_HANDLE);
    injection Hacq as <- <- <-; cbn [perFrame];
    eexists; (split; [rewrite <- ?app_assoc; reflexivity|]);
    (split; [reflexivity|]);
    (split; [apply list_lookup_insert_eq; exact Hlt|]);
    (split; [intros j Hj; apply list_lookup_insert_ne; congruence|]);
    (split; [apply length_insert|]);
    (split; [intros Hne; try contradiction; cbn [app]; eexists; reflexivity|]);
    intros Hnull; try contradiction;
    rewrite ?Forall_app; repeat split; try exact Hc; repeat constructor.
Qed.

Lemma acquire_success_updates_slot_witness :
  exists ctx' calls,
    acquireNextSwapchainImage ResourceSamples.sample_frames 9 VK_SUCCESS 0
    = Some (VK_SUCCESS, ctx', calls)
    /\ perFrame ctx' !! 0%nat
       = Some (set_acquire_semaphore ResourceSamples.used_slot 7)
    /\ perFrame ctx' !! 1%nat = Some default_PerFrame.
Proof.
  eexists. eexists. split; [reflexivity|].
  destruct (acquire_success_updates_slot ResourceSamples.sample_frames _ 9
              VK_SUCCESS _ 0%nat _ ResourceSamples.used_slot
              eq_refl eq_refl eq_refl)
    as (s & before & after & _ & _ & H0 & Hother & _).
  split; [reflexivity|]. rewrite Hother by discriminate. reflexivity.
Defined.

(** X15. [teardownPerFrame] releases each live handle of the slot exactly
    once, in the order fence, command buffer, command pool, acquire
    semaphore, release semaphore, scene, model and shadow uniform buffer,
    and nothing else; it leaves the slot with all eight handles null and
    the descriptor sets untouched, so a second teardown makes no call and
    changes nothing. *)
Theorem teardownPerFrame_releases_once (pf : PerFrame) :
  let pf' := fst (teardownPerFrame pf) in
  omap released (snd (teardownPerFrame pf)) = live_handles pf
  /\ torn_down pf'
  /\ sceneDescriptorSet pf' = sceneDescriptorSet pf
  /\ modelDescriptorSet pf' = modelDescriptorSet pf
  /\ shadowDescriptorSet pf' = shadowDescriptorSet pf
  /\ teardownPerFrame pf' = (pf', []).
Proof.
  assert (Hcalls : forall h c, released c = Some h ->
                     omap released (snd (release h c)) = live h).
  { intros h c Hc. unfold release, live.
    destruct (h =? VK_NULL_HANDLE); [reflexivity|]. cbn. rewrite Hc. reflexivity. }
  assert (Hbuf : forall b a, omap released (snd (release_buffer b a)) = live b).
  { intros b a. unfold release_buffer, live.
    destruct (b =? VK_NULL_HANDLE); reflexivity. }
  assert (Hnull : forall h c, fst (release h c) = 0).
  { intros h c. unfold release, VK_NULL_HANDLE.
    destruct (Z.eqb_spec h 0); [assumption|reflexivity]. }
  assert (Hbnull : forall b a, fst (fst (release_buffer b a)) = 0).
  { intros b a. unfold release_buffer, VK_NULL_HANDLE.
    destruct (Z.eqb_spec b 0); [assumption|reflexivity]. }
  assert (Hdown : torn_down (fst (teardownPerFrame pf))).
  { unfold torn_down, teardownPerFrame.
    cbn [fst queue_submit_fence primary_command_pool primary_command_buffer
         swapchain_acquire_semaphore swapchain_release_semaphore
         sceneUniformBuffer modelUniformBuffer shadowUniformBuffer].
    rewrite !Hnull, !Hbnull. repeat split; reflexivity. }
  assert (Hidem : forall q, torn_down q -> teardownPerFrame q = (q, [])).
  { intros [f p c a r sd sb sa md mb ma hd hb ha].
    unfold torn_down.
    cbn [queue_submit_fence primary_command_pool primary_command_buffer
         swapchain_acquire_semaphore swapchain_release_semaphore
         sceneUniformBuffer modelUniformBuffer shadowUniformBuffer].
    intros (-> & -> & -> & -> & -> & -> & -> & ->). reflexivity. }
  cbv zeta. split; [|split; [exact Hdown|]].
  - unfold teardownPerFrame, live_handles. cbn [snd].
    rewrite !omap_app, !Hbuf, !Hcalls by reflexivity. reflexivity.
  - split; [reflexivity|]. split; [reflexivity|]. split; [reflexivity|].
    apply Hidem. exact Hdown.
Qed.

Lemma initPerFrames_spec (hs : nat -> FrameHandles) (n : nat) :
  forall (fs : list PerFrame) (i : nat),
    (i + n <= List.length fs)%nat ->
    let fs' := fst (initPerFrames fs i n hs) in
    List.length fs' = List.length fs
    /\ (forall j pf, (j < i \/ i + n <= j)%nat -> fs !! j = Some pf ->
                     fs' !! j = Some pf)
    /\ (forall j pf, (i <= j < i + n)%nat -> fs !! j = Some pf ->
                     fs' !! j = Some (fst (initPerFrame pf (hs j))))
    /\ snd (initPerFrames fs i n hs)
       = flat_map (fun j => [CreateFence (h_fence (hs j));
                             CreateCommandPool (h_pool (hs j));
                             AllocateCommandBuffers (h_pool (hs j))
                                                    (h_cmd (hs j))])
                  (seq i n).
Proof.
  induction n as [|k IH]; intros fs i Hlen; cbn [initPerFrames].
  - cbn [fst snd seq flat_map]. repeat split; auto. intros; lia.
  - destruct (fs !! i) as [pf0|] eqn:Hi.
    2:{ apply lookup_ge_None in Hi. lia. }
    cbn [initPerFrame].
    set (pf0' := mkPerFrame _ _ _ _ _ _ _ _ _ _ _ _ _ _).
    specialize (IH (<[i:=pf0']> fs) (S i)).
    rewrite length_insert in IH. specialize (IH ltac:(lia)).
    destruct (initPerFrames (<[i:=pf0']> fs) (S i) k hs) as [fs' cs] eqn:E.
    cbn [fst snd] in *. destruct IH as (IHl & IHout & IHin & IHc).
    split; [exact IHl|]. split; [|split].
    + intros j pf Hj Hpf. apply IHout; [lia|].
      rewrite list_lookup_insert_ne by lia. exact Hpf.
    + intros j pf Hj Hpf. destruct (Nat.eq_dec j i) as [->|Hne].
      * rewrite Hi in Hpf. injection Hpf as <-.
        apply IHout; [lia|]. apply list_lookup_insert_eq.
        apply lookup_lt_Some in Hi. exact Hi.
      * apply IHin; [lia|]. rewrite list_lookup_insert_ne by lia. exact Hpf.
    + cbn [seq flat_map]. rewrite IHc. reflexivity.
Qed.

Lemma omap_released_init (hs : nat -> FrameHandles) (n i : nat) :
  omap released
       (flat_map (fun j => [CreateFence (h_fence (hs j));
                            CreateCommandPool (h_pool (hs j));
                            AllocateCommandBuffers (h_pool (hs j))
                                                   (h_cmd (hs j))])
                 (seq i n)) = [].
Proof.
  revert i. induction n as [|k IH]; intros i; [reflexivity|].
  cbn [seq flat_map app omap list_omap released]. apply IH.
Qed.

Lemma initSwapchain_built (s : Swap) (b : BuiltSwapchain)
      (hs : nat -> FrameHandles) :
  let s' := fst (initSwapchain s (Some b) hs) in
  let calls := snd (initSwapchain s (Some b) hs) in
  swapchain s' = built_handle b
  /\ List.length (swap_perFrame s') = built_image_count b
  /\ (forall j, (j < built_image_count b)%nat ->
                exists pf, swap_perFrame s' !! j = Some pf
                           /\ bare_slot pf (hs j))
  /\ omap released calls = []
  /\ (exists rest, calls = BuildSwapchain :: DestroySwapchain (swapchain s)
                                          :: rest).
Proof.
  unfold initSwapchain.
  pose proof (initPerFrames_spec hs (built_image_count b)
                (list.resize (built_image_count b) default_PerFrame [])
                0%nat) as Hspec.
  rewrite length_resize in Hspec. specialize (Hspec ltac:(lia)).
  destruct (initPerFrames _ 0 (built_image_count b) hs) as [fs' cs] eqn:E.
  cbn [fst snd swapchain swap_perFrame] in *.
  destruct Hspec as (Hl & _ & Hin & Hcs).
  split; [reflexivity|]. split; [exact Hl|]. split; [|split].
  - intros j Hj. eexists. split.
    + apply Hin; [lia|]. rewrite resize_nil.
      apply lookup_replicate_2. exact Hj.
    + reflexivity.
  - rewrite Hcs. cbn [app omap list_omap released]. apply omap_released_init.
  - eexists. reflexivity.
Qed.

(** X16. [resize] rebuilds exactly when there is a device and the surface
    extent differs from the recorded dimensions, and it reports [true]
    then even if the swapchain could not be built (the context is then
    unchanged).  When the build succeeds, [initSwapchain] replaces the
    per-frame array by one slot per swapchain image, each holding only its
    new fence, command pool and command buffer: semaphores, uniform
    buffers and descriptor sets are null whatever the old slots held, and
    nothing of the old slots is destroyed on the way. *)
Theorem resize_rebuilds_frames (s : Swap) (extent : Z * Z)
        (built : option BuiltSwapchain) (hs : nat -> FrameHandles) :
  let changed := fst (fst (resize s extent built hs)) in
  let s' := snd (fst (resize s extent built hs)) in
  let calls := snd (resize s extent built hs) in
  (changed = true <->
   device s <> VK_NULL_HANDLE
   /\ ~ (fst extent = dim_width (swapchainDimensions s)
         /\ snd extent = dim_height (swapchainDimensions s)))
  /\ (changed = false -> s' = s /\ calls = [])
  /\ (changed = true -> built = None -> s' = s)
  /\ (changed = true -> forall b, built = Some b ->
      swapchain s' = built_handle b
      /\ List.length (swap_perFrame s') = built_image_count b
      /\ (forall j, (j < built_image_count b)%nat ->
                    exists pf, swap_perFrame s' !! j = Some pf
                               /\ bare_slot pf (hs j))
      /\ omap released calls = []
      /\ (exists rest, calls = DeviceWaitIdle :: BuildSwapchain
                               :: DestroySwapchain (swapchain s) :: rest)).
Proof.
  unfold resize.
  destruct (Z.eqb_spec (device s) VK_NULL_HANDLE) as [Hd|Hd].
  { cbn [fst snd]. split; [split; [discriminate|intros [H _]; contradiction]|].
    split; [auto|]. split; discriminate. }
  assert (Hsame : (fst extent =? dim_width (swapchainDimensions s))
                  && (snd extent =? dim_height (swapchainDimensions s)) = true
                  <-> fst extent = dim_width (swapchainDimensions s)
                      /\ snd extent = dim_height (swapchainDimensions s)).
  { rewrite andb_true_iff, !Z.eqb_eq. reflexivity. }
  destruct ((fst extent =? dim_width (swapchainDimensions s))
            && (snd extent =? dim_height (swapchainDimensions s))).
  { cbn [fst snd]. split; [split; [discriminate|]|].
    - intros [_ H]. exfalso. apply H, Hsame. reflexivity.
    - split; [auto|]. split; discriminate. }
  assert (Hdiff : ~ (fst extent = dim_width (swapchainDimensions s)
                     /\ snd extent = dim_height (swapchainDimensions s))).
  { intros H. apply Hsame in H. discriminate H. }
  pose proof (fun b => initSwapchain_built s b hs) as Hb.
  destruct built as [b|].
  - specialize (Hb b). cbv zeta in Hb.
    destruct (initSwapchain s (Some b) hs) as [s1 calls1].
    cbn [fst snd] in *.
    split; [split; [auto|reflexivity]|].
    split; [discriminate|]. split; [discriminate|].
    intros _ b' [= <-].
    destruct Hb as (H1 & H2 & H3 & H4 & rest & H5).
    repeat (split; [assumption|]).
    exists rest. rewrite H5. reflexivity.
  - cbn [initSwapchain fst snd].
    split; [split; [auto|reflexivity]|].
    split; [discriminate|]. split; [reflexivity|]. discriminate.
Qed.

Lemma resize_rebuilds_frames_witness :
  exists s' calls,
    resize ResourceSamples.sample_swap (1024, 768)
           (Some ResourceSamples.sample_built) ResourceSamples.sample_handles
    = (true, s', calls)
    /\ List.length (swap_perFrame s') = 3%nat.
Proof.
  destruct (resize_rebuilds_frames ResourceSamples.sample_swap (1024, 768)
              (Some ResourceSamples.sample_built)
              ResourceSamples.sample_handles) as (_ & _ & _ & Hbuilt).
  eexists. eexists. split; [reflexivity|].
  destruct (Hbuilt eq_refl _ eq_refl) as (_ & Hl & _). exact Hl.
Defined.

End ResourceTheorems.

(** ** Frustum culling, end to end *)

Section CullingTheorems.

Import Glm FrustumCulling NodeModel Scene.
Local Open Scope R_scope.

Lemma sphere_loop_monotone (f : Frustum) (c : vec3) (r r' : R) (n : nat) :
  r <= r' ->
  forall i, sphere_loop f (mkSphere c r) i n = true ->
            sphere_loop f (mkSphere c r') i n = true.
Proof.
  intros Hr. induction n as [|k IH]; intros i; cbn [sphere_loop center radius].
  - reflexivity.
  - destruct (Rlt_dec (plane_distance (planes f i) c) (- r)) as [H1|H1];
      [discriminate|].
    destruct (Rlt_dec (plane_distance (planes f i) c) (- r')) as [H2|H2];
      [lra|]. apply IH.
Qed.

(** X17. [sphereInFrustum] is monotone in the radius: a sphere that passes
    the test still passes it after growing about the same centre, and a
    sphere that is rejected is still rejected after shrinking. *)
Theorem sphereInFrustum_monotone (f : Frustum) (bs bs' : BoundingSphere) :
  center bs' = center bs ->
  radius bs <= radius bs' ->
  (sphereInFrustum f bs = true -> sphereInFrustum f bs' = true)
  /\ (sphereInFrustum f bs' = false -> sphereInFrustum f bs = false).
Proof.
  intros Hc Hr.
  assert (Hmono : sphereInFrustum f bs = true -> sphereInFrustum f bs' = true).
  { destruct bs as [c r], bs' as [c' r']. cbn [center radius] in *. subst c'.
    unfold sphereInFrustum. apply sphere_loop_monotone. exact Hr. }
  split; [exact Hmono|].
  intros Hfalse. destruct (sphereInFrustum f bs); [|reflexivity].
  rewrite Hmono in Hfalse by reflexivity. discriminate Hfalse.
Qed.

Lemma sphereInFrustum_monotone_witness :
  sphereInFrustum Samples.box_frustum (mkSphere (mkVec3 2 0 0) 3) = true.
Proof.
  apply (proj1 (sphereInFrustum_monotone Samples.box_frustum
                  Samples.tangent_sphere (mkSphere (mkVec3 2 0 0) 3)
                  eq_refl ltac:(simpl; lra))).
  unfold sphereInFrustum, Samples.tangent_sphere.
  cbn [sphere_loop planes Samples.box_frustum pLeft pRight pBottom pTop pNear
       pFar center radius].
  unfold plane_distance, dot. cbn [normal d vx vy vz].
  repeat match goal with
         | |- context [Rlt_dec ?a ?b] =>
             destruct (Rlt_dec a b) as [?H|?H]; [exfalso; lra|]
         end.
  reflexivity.
Defined.

Lemma normalize_plane_scaled (k : R) (p q : Plane) :
  0 < k -> normal p <> zero3 ->
  normal q = scale3 (normal p) k -> d q = k * d p ->
  normalize_plane q = normalize_plane p.
Proof.
  intros Hk Hn Hq Hd. pose proof (length_pos _ Hn) as Hl.
  unfold normalize_plane. rewrite Hq, Hd, length_scale by lra.
  set (l := length (normal p)) in *.
  destruct (normal p) as [x y z]. unfold div3, scale3. cbn [vx vy vz].
  f_equal; [f_equal|]; field; repeat split; nra.
Qed.

Lemma extractFrustum_unfold (vp : mat4) :
  extractFrustum vp
  = mkFrustum (normalize_plane (pLeft (extract_raw vp)))
              (normalize_plane (pRight (extract_raw vp)))
              (normalize_plane (pBottom (extract_raw vp)))
              (normalize_plane (pTop (extract_raw vp)))
              (normalize_plane (pNear (extract_raw vp)))
              (normalize_plane (pFar (extract_raw vp))).
Proof. reflexivity. Qed.

(** X18. In exact real arithmetic (float rounding is not modelled: in
    binary32 the two results can differ by an ulp), [extractFrustum] does
    not depend on the scale of the matrix: multiplying every entry of the
    view-projection matrix by the same positive factor gives the same six
    planes, provided no plane normal is zero (the normalisation divides
    by its length). *)
Theorem extractFrustum_scale_invariant (k : R) (m1 m2 : mat4) :
  0 < k ->
  (forall c r, at_ m2 c r = k * at_ m1 c r) ->
  (forall i, (i < 6)%nat -> normal (planes (extract_raw m1) i) <> zero3) ->
  extractFrustum m2 = extractFrustum m1.
Proof.
  intros Hk Hm Hn. rewrite !extractFrustum_unfold.
  pose proof (Hn 0%nat ltac:(lia)) as H0. pose proof (Hn 1%nat ltac:(lia)) as H1.
  pose proof (Hn 2%nat ltac:(lia)) as H2. pose proof (Hn 3%nat ltac:(lia)) as H3.
  pose proof (Hn 4%nat ltac:(lia)) as H4. pose proof (Hn 5%nat ltac:(lia)) as H5.
  cbn [planes] in H0, H1, H2, H3, H4, H5.
  f_equal; apply (normalize_plane_scaled k); try assumption;
    unfold extract_raw, scale3; cbn [pLeft pRight pBottom pTop pNear pFar
                                     normal d vx vy vz];
    rewrite !Hm; try (f_equal; ring); ring.
Qed.

Lemma extractFrustum_scale_invariant_witness :
  extractFrustum CullingSamples.doubled_identity
  = extractFrustum Samples.identity4.
Proof.
  apply (extractFrustum_scale_invariant 2); [lra| |].
  - intros c r. do 4 (destruct c as [|c]; [do 4 (destruct r as [|r];
      [unfold at_; simpl; lra|]); unfold at_; simpl; lra|]).
    do 4 (destruct r as [|r]; [unfold at_; simpl; lra|]). unfold at_; simpl; lra.
  - intros i Hi.
    do 6 (destruct i as [|i];
          [unfold extract_raw, at_, zero3; simpl; intros [=]; lra|]).
    lia.
Defined.

(** X19. In exact real arithmetic (float rounding is not modelled),
    culling never drops a node that has a vertex inside the frustum,
    provided no vertex was added to the node's mesh since the node was
    constructed or [setMesh] was last called (the cached sphere is
    computed only then): for such a node made through the public
    interface and left unrotated, if some vertex of its mesh, placed by
    [worldMatrix()], lies on the inner side of all six planes
    [extractFrustum] returns for a matrix, then [sphereInFrustum] accepts
    the node's [boundingSphere()] for that matrix. *)
Theorem visible_vertex_not_culled (vp : mat4) (n : Node) (mesh : shared_ptr Mesh)
        (v : Vertex) :
  public_node n ->
  sphere_fresh n ->
  mat4_cast (m_quat n) = identity ->
  m_mesh n = Some mesh ->
  In v (vertices (pointee mesh)) ->
  (forall i, (i < 6)%nat -> normal (planes (extract_raw vp) i) <> zero3) ->
  (forall i, (i < 6)%nat ->
     0 <= plane_distance (planes (extractFrustum vp) i)
                         (transform_point (worldMatrix n) (position v))) ->
  sphereInFrustum (extractFrustum vp) (boundingSphere n) = true.
Proof.
  intros Hpub Hfresh Hrot Hmesh Hv Hn Hin.
  pose proof (node_vertex_in_sphere n mesh v Hpub Hfresh Hrot Hmesh Hv) as Hall.
  set (p := transform_point (worldMatrix n) (position v)) in *.
  set (bs := boundingSphere n) in *.
  destruct (sphereInFrustum (extractFrustum vp) bs) eqn:E; [reflexivity|].
  exfalso. unfold sphereInFrustum in E. apply sphere_loop_false in E.
  destruct E as (j & Hj & Hlt).
  assert (Hj6 : (j < 6)%nat) by lia.
  specialize (Hin j Hj6). specialize (Hn j Hj6).
  rewrite extractFrustum_planes in Hin, Hlt.
  pose proof (normalized_unit _ Hn) as Hunit.
  set (pl := normalize_plane (planes (extract_raw vp) j)) in *.
  pose proof (cauchy_schwarz (normal pl) (sub3 p (center bs))) as Hcs.
  rewrite Hunit in Hcs. unfold distance in Hall.
  assert (Hsplit : plane_distance pl p
                   = plane_distance pl (center bs)
                     + dot (normal pl) (sub3 p (center bs))).
  { unfold plane_distance, dot, sub3. cbn [vx vy vz]. ring. }
  lra.
Qed.

Lemma visible_vertex_not_culled_witness :
  sphereInFrustum (extractFrustum Samples.identity4)
                  (boundingSphere Samples.sample_public) = true.
Proof.
  assert (Hp : public_node Samples.sample_public).
  { apply (public_op (Node_new Samples.sample_mesh None)
                     (OpSetPosition (mkVec3 1 0 0))).
    apply public_new. }
  assert (Hf : sphere_fresh Samples.sample_public).
  { apply (sphere_fresh_op (Node_new Samples.sample_mesh None)
                           (OpSetPosition (mkVec3 1 0 0)) I).
    apply sphere_fresh_new. }
  apply (visible_vertex_not_culled Samples.identity4 Samples.sample_public
           Samples.sample_mesh (mkVertex (mkVec3 0 0 0) (mkVec3 0 0 1) (0, 0))
           Hp Hf quat_of_euler_zero eq_refl).
  - left. reflexivity.
  - intros i Hi.
    do 6 (destruct i as [|i];
          [unfold extract_raw, at_, zero3; simpl; intros [=]; lra|]).
    lia.
  - intros i Hi. rewrite extractFrustum_planes.
    rewrite worldMatrix_unfold, (public_parent_empty _ Hp).
    simpl lock. cbv iota.
    rewrite transform_translation;
      try (unfold localMatrix;
           rewrite (quat_of_euler_zero
                    : mat4_cast (m_quat Samples.sample_public) = identity);
           reflexivity);
      try reflexivity.
    rewrite translation_localMatrix.
    do 6 (destruct i as [|i];
          [unfold normalize_plane, plane_distance, dot, div3, length, dot,
             extract_raw, at_; simpl;
           repeat match goal with
                  | |- context [sqrt ?a] =>
                      replace a with 1 by lra; rewrite sqrt_1
                  end; lra|]).
    lia.
Defined.

End CullingTheorems.

(** ** Device queries and resource set-up *)

Section SetupTheorems.

Import NodeModel Engine Setup.
Local Open Scope Z_scope.

Lemma land_pow2 (c k : Z) :
  0 <= k -> Z.land c (2 ^ k) = if Z.testbit c k then 2 ^ k else 0.
Proof.
  intros Hk. apply Z.bits_inj'. intros n Hn.
  rewrite Z.land_spec, Z.pow2_bits_eqb by exact Hk.
  destruct (Z.eqb_spec k n) as [->|Hne].
  - destruct (Z.testbit c n); [|rewrite Z.bits_0; reflexivity].
    rewrite Z.pow2_bits_eqb, Z.eqb_refl by exact Hn. reflexivity.
  - rewrite andb_false_r. destruct (Z.testbit c k); [|rewrite Z.bits_0; reflexivity].
    rewrite Z.pow2_bits_eqb by exact Hk.
    symmetry. apply Z.eqb_neq. exact Hne.
Qed.

Lemma has_flag_testbit (c k : Z) :
  0 <= k -> has_flag c (2 ^ k) = Z.testbit c k.
Proof.
  intros Hk. unfold has_flag. rewrite land_pow2 by exact Hk.
  destruct (Z.testbit c k); [|reflexivity].
  assert (0 < 2 ^ k) by (apply Z.pow_pos_nonneg; lia).
  destruct (Z.eqb_spec (2 ^ k) 0); [lia|reflexivity].
Qed.

(** X20. [getMaxUsableSampleCount] never returns more than four samples:
    the result is 1, 2 or 4.  It is 4 exactly when colour and depth
    limits share one of the bits for 4, 8, 16, 32 or 64 samples (whether
    or not the 4-sample bit itself is among them), 2 only when both
    support 2 samples, and 1 exactly when they share none of the bits for
    2 to 64 samples. *)
Theorem getMaxUsableSampleCount_spec (color depth : Z) :
  let r := getMaxUsableSampleCount color depth in
  (r = 1 \/ r = 2 \/ r = 4)
  /\ (r = 4 <-> exists k, 2 <= k <= 6 /\ Z.testbit color k = true
                          /\ Z.testbit depth k = true)
  /\ (r = 2 -> Z.testbit color 1 = true /\ Z.testbit depth 1 = true)
  /\ (r = 1 <-> forall k, 1 <= k <= 6 ->
                          Z.testbit color k && Z.testbit depth k = false).
Proof.
  unfold getMaxUsableSampleCount.
  change VK_SAMPLE_COUNT_64_BIT with (2 ^ 6).
  change VK_SAMPLE_COUNT_32_BIT with (2 ^ 5).
  change VK_SAMPLE_COUNT_16_BIT with (2 ^ 4).
  change VK_SAMPLE_COUNT_8_BIT with (2 ^ 3).
  change VK_SAMPLE_COUNT_4_BIT with (2 ^ 2).
  change VK_SAMPLE_COUNT_2_BIT with (2 ^ 1).
  rewrite !has_flag_testbit by lia. rewrite !Z.land_spec.
  unfold VK_SAMPLE_COUNT_1_BIT.
  assert (Hcases : forall k, 1 <= k <= 6 ->
             k = 1 \/ k = 2 \/ k = 3 \/ k = 4 \/ k = 5 \/ k = 6) by (intros; lia).
  destruct (Z.testbit color 6 && Z.testbit depth 6) eqn:E6;
    [|destruct (Z.testbit color 5 && Z.testbit depth 5) eqn:E5;
      [|destruct (Z.testbit color 4 && Z.testbit depth 4) eqn:E4;
        [|destruct (Z.testbit color 3 && Z.testbit depth 3) eqn:E3;
          [|destruct (Z.testbit color 2 && Z.testbit depth 2) eqn:E2;
            [|destruct (Z.testbit color 1 && Z.testbit depth 1) eqn:E1]]]]];
    cbv zeta; change (2 ^ 2) with 4; change (2 ^ 1) with 2.
  1-5: split; [auto|]; split;
    [split; [intros _|reflexivity]|split; [discriminate|]].
  1,3,5,7,9:
    match goal with
    | E : Z.testbit _ ?k && Z.testbit _ ?k = true |- _ =>
        exists k; apply andb_true_iff in E; destruct E; repeat split;
        try assumption; lia
    end.
  1-5: split; [discriminate|]; intros H;
    match goal with
    | E : Z.testbit _ ?k && Z.testbit _ ?k = true |- _ =>
        rewrite (H k) in E by lia; discriminate E
    end.
  - split; [auto|]. split; [|split].
    + split; [discriminate|]. intros (k & Hk & Hc & Hd). exfalso.
      assert (Hkk : k = 2 \/ k = 3 \/ k = 4 \/ k = 5 \/ k = 6) by lia.
      destruct Hkk as [-> | [-> | [-> | [-> | ->]]]];
        rewrite Hc, Hd in *; discriminate.
    + intros _. apply andb_true_iff in E1. exact E1.
    + split; [discriminate|]. intros H. rewrite (H 1) in E1 by lia.
      discriminate E1.
  - split; [auto|]. split; [|split].
    + split; [discriminate|]. intros (k & Hk & Hc & Hd). exfalso.
      assert (Hkk : k = 2 \/ k = 3 \/ k = 4 \/ k = 5 \/ k = 6) by lia.
      destruct Hkk as [-> | [-> | [-> | [-> | ->]]]];
        rewrite Hc, Hd in *; discriminate.
    + discriminate.
    + split; [|reflexivity]. intros _ k Hk.
      destruct (Hcases k Hk) as [-> | [-> | [-> | [-> | [-> | ->]]]]]; assumption.
Qed.

Lemma findSupportedFormat_spec (props : Z -> VkFormatProperties)
      (tiling : VkImageTiling) (features : Z) (candidates : list Z) :
  match findSupportedFormat props candidates tiling features with
  | Some f =>
      exists before after,
        candidates = before ++ f :: after
        /\ format_supported (props f) tiling features = true
        /\ Forall (fun c => format_supported (props c) tiling features = false)
                  before
  | None =>
      Forall (fun c => format_supported (props c) tiling features = false)
             candidates
  end.
Proof.
  induction candidates as [|c rest IH]; cbn [findSupportedFormat].
  - constructor.
  - destruct (format_supported (props c) tiling features) eqn:Ec.
    + exists [], rest. repeat split; [exact Ec|constructor].
    + destruct (findSupportedFormat props rest tiling features) as [f|].
      * destruct IH as (before & after & -> & Hf & Hb).
        exists (c :: before), after. repeat split; [exact Hf|].
        constructor; assumption.
      * constructor; assumption.
Qed.

(** X21. [findSupportedFormat] returns the first candidate, in the order
    given, whose features for the requested tiling contain all requested
    feature bits, and throws exactly when no candidate qualifies; for a
    tiling other than linear or optimal it always throws.  So
    [findDepthFormat] returns [D32_SFLOAT] whenever that format can be a
    depth attachment, whatever the other two support. *)
Theorem findSupportedFormat_first (props : Z -> VkFormatProperties)
        (candidates : list Z) (tiling : VkImageTiling) (features : Z) :
  (forall f, findSupportedFormat props candidates tiling features = Some f ->
     exists before after,
       candidates = before ++ f :: after
       /\ format_supported (props f) tiling features = true
       /\ Forall (fun c => format_supported (props c) tiling features = false)
                 before)
  /\ (findSupportedFormat props candidates tiling features = None <->
      Forall (fun c => format_supported (props c) tiling features = false)
             candidates)
  /\ (tiling = VK_IMAGE_TILING_DRM_FORMAT_MODIFIER_EXT ->
      findSupportedFormat props candidates tiling features = None)
  /\ (Z.land (optimalTilingFeatures (props VK_FORMAT_D32_SFLOAT))
             VK_FORMAT_FEATURE_DEPTH_STENCIL_ATTACHMENT_BIT
      = VK_FORMAT_FEATURE_DEPTH_STENCIL_ATTACHMENT_BIT ->
      findDepthFormat props = Some VK_FORMAT_D32_SFLOAT).
Proof.
  pose proof (findSupportedFormat_spec props tiling features candidates) as Hs.
  assert (Hnone : findSupportedFormat props candidates tiling features = None <->
                  Forall (fun c => format_supported (props c) tiling features
                                   = false) candidates).
  { destruct (findSupportedFormat props candidates tiling features) as [f|] eqn:E.
    - split; [discriminate|]. intros Hall.
      destruct Hs as (before & after & -> & Hf & _).
      apply Forall_app in Hall. destruct Hall as [_ Hall].
      inversion Hall as [|? ? Hf' _]; subst. congruence.
    - split; [intros _; exact Hs|reflexivity]. }
  split; [|split; [exact Hnone|split]].
  - intros f Hf. rewrite Hf in Hs. exact Hs.
  - intros ->. apply Hnone. apply List.Forall_forall. intros c _. reflexivity.
  - intros Hd. unfold findDepthFormat. cbn [findSupportedFormat format_supported].
    rewrite Hd, Z.eqb_refl. reflexivity.
Qed.

Lemma existsb_preferred (preferred : list Z) (sf : VkSurfaceFormatKHR) :
  is_preferred preferred sf = true <-> In (sf_format sf) preferred.
Proof.
  unfold is_preferred. rewrite existsb_exists. split.
  - intros (f & Hin & Hf). apply Z.eqb_eq in Hf. subst. exact Hin.
  - intros Hin. exists (sf_format sf). split; [exact Hin|apply Z.eqb_refl].
Qed.

Lemma find_first {A : Type} (p : A -> bool) (l : list A) :
  match List.find p l with
  | Some x => exists before after,
                l = before ++ x :: after /\ p x = true
                /\ Forall (fun y => p y = false) before
  | None => Forall (fun y => p y = false) l
  end.
Proof.
  induction l as [|a l IH]; cbn [List.find].
  - constructor.
  - destruct (p a) eqn:Ea.
    + exists [], l. repeat split; [exact Ea|constructor].
    + destruct (List.find p l) as [x|].
      * destruct IH as (before & after & -> & Hx & Hb).
        exists (a :: before), after. repeat split; [exact Hx|].
        constructor; assumption.
      * constructor; assumption.
Qed.

Lemma find_ext_in {A : Type} (p q : A -> bool) (l : list A) :
  (forall x, In x l -> p x = q x) -> List.find p l = List.find q l.
Proof.
  induction l as [|a l IH]; intros H; cbn [List.find]; [reflexivity|].
  rewrite <- (H a) by (left; reflexivity).
  destruct (p a); [reflexivity|]. apply IH. intros x Hx. apply H. right. exact Hx.
Qed.

(** X22. With at least one supported surface format,
    [selectSurfaceFormat] always returns one of the supported formats:
    the first one, in the order the surface reports them, whose format is
    among the preferred ones, and the very first supported format when
    none is.  The order of the preferred list plays no part: any list
    with the same members gives the same answer. *)
Theorem selectSurfaceFormat_spec (supported : list VkSurfaceFormatKHR)
        (preferred : list Z) :
  supported <> [] ->
  exists sf,
    selectSurfaceFormat supported preferred = Some sf
    /\ In sf supported
    /\ ((exists s, In s supported /\ In (sf_format s) preferred) ->
        exists before after,
          supported = before ++ sf :: after
          /\ In (sf_format sf) preferred
          /\ Forall (fun s => ~ In (sf_format s) preferred) before)
    /\ ((forall s, In s supported -> ~ In (sf_format s) preferred) ->
        head supported = Some sf)
    /\ (forall preferred',
          (forall f, In f preferred <-> In f preferred') ->
          selectSurfaceFormat supported preferred' = Some sf).
Proof.
  intros Hne. unfold selectSurfaceFormat.
  pose proof (find_first (is_preferred preferred) supported) as Hfind.
  assert (Hperm : forall preferred',
             (forall f, In f preferred <-> In f preferred') ->
             List.find (is_preferred preferred') supported
             = List.find (is_preferred preferred) supported).
  { intros preferred' Hsame. apply find_ext_in. intros s _.
    destruct (is_preferred preferred s) eqn:E.
    - apply existsb_preferred. apply Hsame. apply existsb_preferred. exact E.
    - destruct (is_preferred preferred' s) eqn:E'; [|reflexivity].
      apply existsb_preferred in E'. apply Hsame in E'.
      apply existsb_preferred in E'. congruence. }
  destruct (List.find (is_preferred preferred) supported) as [sf|] eqn:E.
  - destruct Hfind as (before & after & Hsplit & Hsf & Hbefore).
    exists sf. split; [reflexivity|]. split; [|split; [|split]].
    + rewrite Hsplit. apply in_app_iff. right. left. reflexivity.
    + intros _. exists before, after. split; [exact Hsplit|]. split.
      * apply existsb_preferred. exact Hsf.
      * eapply List.Forall_impl; [|exact Hbefore]. intros s Hs Hin.
        apply existsb_preferred in Hin. cbv beta in Hs. congruence.
    + intros Hnone. exfalso. apply (Hnone sf).
      * rewrite Hsplit. apply in_app_iff. right. left. reflexivity.
      * apply existsb_preferred. exact Hsf.
    + intros preferred' Hsame. rewrite (Hperm preferred' Hsame). reflexivity.
  - destruct supported as [|s0 rest]; [contradiction|].
    exists s0. cbn [head]. split; [reflexivity|]. split; [left; reflexivity|].
    split; [|split].
    + intros (s & Hin & Hpref). exfalso.
      rewrite List.Forall_forall in Hfind. specialize (Hfind s Hin).
      apply existsb_preferred in Hpref. congruence.
    + reflexivity.
    + intros preferred' Hsame. rewrite (Hperm preferred' Hsame). reflexivity.
Qed.

Lemma selectSurfaceFormat_spec_witness :
  selectSurfaceFormat [mkSurfaceFormat 44 0; mkSurfaceFormat 50 0;
                       mkSurfaceFormat 37 0] [37; 50]
  = Some (mkSurfaceFormat 50 0).
Proof.
  destruct (selectSurfaceFormat_spec
              [mkSurfaceFormat 44 0; mkSurfaceFormat 50 0; mkSurfaceFormat 37 0]
              [37; 50] ltac:(discriminate))
    as (sf & _ & _ & _ & _ & Hsame).
  rewrite (Hsame [37; 50]); [|intros f; reflexivity].
  rewrite <- (Hsame [50; 37]).
  - reflexivity.
  - intros f. simpl. tauto.
Defined.

Lemma initVertexBuffer_loop_spec (upload : nat -> AllocatedBuffer)
      (nodes : list Node) :
  forall (m : gmap positive MeshData) (log : list Upload),
    (forall node, In node nodes -> is_Some (m_mesh node)) ->
    exists m' log',
      initVertexBuffer_loop upload nodes m log = Some (m', log')
      /\ m ⊆ m'
      /\ meshes_uploaded nodes m'
      /\ (forall key, is_Some (m' !! key) ->
            is_Some (m !! key)
            \/ exists node mesh, In node nodes /\ m_mesh node = Some mesh
                                 /\ addr mesh = key)
      /\ (List.length log' + 2 * size m = List.length log + 2 * size m')%nat.
Proof.
  induction nodes as [|node rest IH]; intros m log Hmesh;
    cbn [initVertexBuffer_loop].
  - exists m, log. split; [reflexivity|]. split; [reflexivity|].
    split; [intros node []|]. split; [auto|lia].
  - destruct (Hmesh node (or_introl eq_refl)) as [mesh Hm]. rewrite Hm.
    assert (Hrest : forall n, In n rest -> is_Some (m_mesh n))
      by (intros n Hn; apply Hmesh; right; exact Hn).
    destruct (m !! addr mesh) as [entry|] eqn:Hkey.
    + destruct (IH m log Hrest) as (m' & log' & Hrun & Hsub & Hup & Hnew & Hlen).
      exists m', log'. split; [exact Hrun|]. split; [exact Hsub|].
      split; [|split; [|exact Hlen]].
      * intros n [<-|Hn]; [|apply Hup; exact Hn].
        exists mesh. split; [exact Hm|].
        eapply lookup_weaken_is_Some; [|exact Hsub]. rewrite Hkey. eauto.
      * intros key Hk. destruct (Hnew key Hk) as [H|(n & ms & Hn & Hms & Ha)];
          [left; exact H|].
        right. exists n, ms. split; [right; exact Hn|]. split; assumption.
    + set (entry := mkMeshData _ _).
      set (log1 := log ++ _).
      destruct (IH (<[addr mesh := entry]> m) log1 Hrest)
        as (m' & log' & Hrun & Hsub & Hup & Hnew & Hlen).
      exists m', log'. split; [exact Hrun|].
      assert (Hsub0 : m ⊆ <[addr mesh := entry]> m)
        by (apply insert_subseteq; exact Hkey).
      split; [etransitivity; eassumption|]. split; [|split].
      * intros n [<-|Hn]; [|apply Hup; exact Hn].
        exists mesh. split; [exact Hm|].
        eapply lookup_weaken_is_Some; [|exact Hsub].
        rewrite lookup_insert_eq. eauto.
      * intros key Hk. destruct (Hnew key Hk) as [H|(n & ms & Hn & Hms & Ha)].
        -- destruct (decide (key = addr mesh)) as [->|Hne].
           ++ right. exists node, mesh. split; [left; reflexivity|]. auto.
           ++ left. rewrite lookup_insert_ne in H by congruence. exact H.
        -- right. exists n, ms. split; [right; exact Hn|]. split; assumption.
      * rewrite map_size_insert_None in Hlen by exact Hkey.
        unfold log1 in Hlen. rewrite length_app in Hlen. cbn [List.length] in Hlen.
        lia.
Qed.

(** X23. When every node has a mesh, [initVertexBuffer] completes and
    afterwards the mesh of every node has an entry in [meshBufferMap].
    Entries that were there are kept as they were, nothing is added for a
    mesh no node uses, and vertices and indices are uploaded once per new
    entry (two uploads each), however many nodes share a mesh; nothing
    else of the engine state changes. *)
Theorem initVertexBuffer_uploads_once (upload : nat -> AllocatedBuffer) (e : State) :
  (forall node, In node (m_nodes e) -> is_Some (m_mesh node)) ->
  exists e' log,
    initVertexBuffer upload e = Some (e', log)
    /\ e' = set_meshBufferMap e (meshBufferMap e')
    /\ meshBufferMap e ⊆ meshBufferMap e'
    /\ meshes_uploaded (m_nodes e) (meshBufferMap e')
    /\ (forall key, is_Some (meshBufferMap e' !! key) ->
          is_Some (meshBufferMap e !! key)
          \/ exists node mesh, In node (m_nodes e) /\ m_mesh node = Some mesh
                               /\ addr mesh = key)
    /\ (List.length log + 2 * size (meshBufferMap e)
        = 2 * size (meshBufferMap e'))%nat.
Proof.
  intros Hmesh. unfold initVertexBuffer.
  destruct (initVertexBuffer_loop_spec upload (m_nodes e) (meshBufferMap e) []
              Hmesh) as (m' & log' & Hrun & Hsub & Hup & Hnew & Hlen).
  rewrite Hrun. exists (set_meshBufferMap e m'), log'.
  cbn [set_meshBufferMap meshBufferMap List.length] in *.
  split; [reflexivity|]. split; [reflexivity|]. split; [exact Hsub|].
  split; [exact Hup|]. split; [exact Hnew|]. lia.
Qed.

Lemma initVertexBuffer_uploads_once_witness :
  exists e' log,
    initVertexBuffer (fun k => mkAllocatedBuffer (10 + Z.of_nat k) 1)
                     Samples.sample_state = Some (e', log)
    /\ List.length log = 2%nat
    /\ is_Some (meshBufferMap e' !! 1%positive).
Proof.
  destruct (initVertexBuffer_uploads_once
              (fun k => mkAllocatedBuffer (10 + Z.of_nat k) 1)
              Samples.sample_state) as (e' & log & Hrun & _ & _ & Hup & _ & Hlen).
  - intros node [<-|[]]. eexists. reflexivity.
  - exists e', log. split; [exact Hrun|].
    destruct (Hup Samples.sample_public (or_introl eq_refl))
      as (mesh & Hmesh & Hkey).
    injection Hmesh as <-. split; [|exact Hkey].
    assert (Hsz : size (meshBufferMap e') = 1%nat).
    { unfold initVertexBuffer in Hrun. cbn in Hrun. injection Hrun as <- _.
      cbn [set_meshBufferMap meshBufferMap].
      rewrite insert_empty. apply map_size_singleton. }
    rewrite Hsz in Hlen.
    change (meshBufferMap Samples.sample_state)
      with (∅ : gmap positive MeshData) in Hlen.
    rewrite map_size_empty in Hlen. lia.
Defined.

Lemma map_index_present (m : gmap positive MeshData) (key : positive) :
  is_Some (m !! key) -> snd (map_index m key) = m.
Proof. intros [v Hv]. unfold map_index. rewrite Hv. reflexivity. Qed.

Lemma draw_loop_keeps_map (e : State) (p : Pass) (frame : nat) (k : nat) :
  forall (i : nat) (r r' : Recording),
    meshes_uploaded (m_nodes e) (rec_map r) ->
    draw_loop e p frame i k r = Some r' ->
    rec_map r' = rec_map r.
Proof.
  induction k as [|k IH]; intros i r r' Hup Hrun; cbn [draw_loop] in Hrun.
  - injection Hrun as <-. reflexivity.
  - destruct (pass_flags e p !! i) as [[|]|]; [|eauto|discriminate].
    destruct (m_nodes e !! i) as [node|] eqn:Hnode; [|discriminate].
    destruct (draw_node e p frame i node r) as [r1|] eqn:Hdraw; [|discriminate].
    assert (Hmap : rec_map r1 = rec_map r).
    { unfold draw_node in Hdraw.
      destruct (Hup node) as (mesh & Hm & Hkey).
      { apply list_elem_of_In. eapply list_elem_of_lookup_2. exact Hnode. }
      rewrite Hm in Hdraw.
      pose proof (map_index_present (rec_map r) (addr mesh) Hkey) as Hsnd.
      destruct (map_index (rec_map r) (addr mesh)) as [mb m'].
      cbn [snd] in Hsnd. injection Hdraw as <-. exact Hsnd. }
    rewrite <- Hmap. apply (IH (S i) r1 r'); [|exact Hrun].
    rewrite Hmap. exact Hup.
Qed.

Lemma draw_loop_binds (e : State) (p : Pass) (frame : nat) (k : nat) :
  forall (i : nat) (r r' : Recording),
    meshes_uploaded (m_nodes e) (meshBufferMap e) ->
    rec_map r = meshBufferMap e ->
    Forall (binds_stored e) (cmds r) ->
    draw_loop e p frame i k r = Some r' ->
    Forall (binds_stored e) (cmds r').
Proof.
  induction k as [|k IH]; intros i r r' Hup Hmap Hall Hrun;
    cbn [draw_loop] in Hrun.
  - injection Hrun as <-. exact Hall.
  - destruct (pass_flags e p !! i) as [[|]|]; [|eauto|discriminate].
    destruct (m_nodes e !! i) as [node|] eqn:Hnode; [|discriminate].
    destruct (draw_node e p frame i node r) as [r1|] eqn:Hdraw; [|discriminate].
    assert (Hin : In node (m_nodes e)).
    { apply list_elem_of_In. eapply list_elem_of_lookup_2. exact Hnode. }
    destruct (Hup node Hin) as (mesh & Hm & [entry Hentry]).
    unfold draw_node in Hdraw. rewrite Hm in Hdraw.
    unfold map_index in Hdraw. rewrite Hmap, Hentry in Hdraw.
    injection Hdraw as <-.
    refine (IH (S i) _ r' Hup _ _ Hrun); [reflexivity|].
    cbn [cmds]. apply Forall_app. split; [exact Hall|].
    repeat constructor; exists node, mesh, entry; auto.
Qed.

Lemma initVertexBuffer_loop_entries (upload : nat -> AllocatedBuffer)
      (nodes : list Node) :
  forall (m m' : gmap positive MeshData) (log log' : list Upload),
    Nat.Even (List.length log) ->
    initVertexBuffer_loop upload nodes m log = Some (m', log') ->
    Nat.Even (List.length log')
    /\ (List.length log <= List.length log')%nat
    /\ forall key entry, m' !! key = Some entry ->
         m !! key = Some entry
         \/ exists k, (List.length log <= k)%nat /\ (S k < List.length log')%nat
                      /\ Nat.Even k
                      /\ entry = mkMeshData (upload k) (upload (S k)).
Proof.
  induction nodes as [|node rest IH]; intros m m' log log' Heven Hrun;
    cbn [initVertexBuffer_loop] in Hrun.
  - injection Hrun as <- <-. split; [exact Heven|]. split; [lia|]. auto.
  - destruct (m_mesh node) as [mesh|]; [|discriminate].
    destruct (m !! addr mesh) as [old|] eqn:Hkey; [eauto|].
    apply IH in Hrun.
    + destruct Hrun as (Heven' & Hle & Hentries).
      rewrite length_app in Hle. cbn [List.length] in Hle.
      split; [exact Heven'|]. split; [lia|].
      intros key entry Hk. destruct (Hentries key entry Hk) as [Hold|Hnew].
      * destruct (decide (key = addr mesh)) as [->|Hne].
        -- rewrite lookup_insert_eq in Hold. injection Hold as <-.
           right. exists (List.length log). repeat split; try lia; assumption.
        -- rewrite lookup_insert_ne in Hold by congruence. left. exact Hold.
      * destruct Hnew as (k & Hk1 & Hk2 & Hk3 & ->).
        rewrite length_app in Hk1. cbn [List.length] in Hk1.
        right. exists k. repeat split; try lia; assumption.
    + rewrite length_app. cbn [List.length].
      destruct Heven as [h Hh]. exists (S h). lia.
Qed.

(** X24. Once every node's mesh has an entry in [meshBufferMap] (the state
    [initVertexBuffer] leaves), recording a frame never changes the map:
    the subscript lookups on the map in [renderShadow] and [render] find
    their keys and insert nothing, and every vertex or index buffer bound
    in the command buffer is the one stored for the mesh of a node.  When
    the map was filled by [initVertexBuffer] from an empty map, these are
    the buffers its [uploadBuffer] calls returned. *)
Theorem render_keeps_meshBufferMap (e : State) (swapchain_index : nat)
        (r : Recording) :
  meshes_uploaded (m_nodes e) (meshBufferMap e) ->
  render e swapchain_index = Some r ->
  rec_map r = meshBufferMap e
  /\ Forall (binds_stored e) (cmds r)
  /\ forall upload e0 log,
       meshBufferMap e0 = ∅ ->
       initVertexBuffer upload e0 = Some (e, log) ->
       Forall (binds_uploaded upload (List.length log)) (cmds r).
Proof.
  intros Hup Hrun. unfold render, renderShadow in Hrun.
  destruct (draw_loop e ShadowPass swapchain_index 0 _ _) as [r1|] eqn:E1;
    [|discriminate].
  destruct (draw_loop e ColorPass swapchain_index 0 _ _) as [r3|] eqn:E3;
    [|discriminate].
  injection Hrun as <-.
  pose proof (draw_loop_keeps_map e ShadowPass swapchain_index _ 0%nat
                (record (mkRecording [CmdPipelineBarrier2 ShadowToDepthWrite]
                                     (meshBufferMap e)) shadow_prologue)
                r1 Hup E1) as Hm1.
  cbn [record rec_map] in Hm1.
  assert (Hb1 : Forall (binds_stored e) (cmds r1)).
  { refine (draw_loop_binds e ShadowPass swapchain_index _ 0%nat _ r1 Hup _ _ E1).
    - reflexivity.
    - repeat constructor. }
  assert (Hup2 : meshes_uploaded (m_nodes e)
                   (rec_map (record (record r1 [CmdEndRendering])
                               (CmdPipelineBarrier2 ShadowToShaderRead
                                :: color_prologue swapchain_index)))).
  { cbn [record rec_map] in *. rewrite Hm1. exact Hup. }
  pose proof (draw_loop_keeps_map _ _ _ _ _ _ _ Hup2 E3) as Hm3.
  assert (Hb3 : Forall (binds_stored e) (cmds r3)).
  { refine (draw_loop_binds e ColorPass swapchain_index _ 0%nat _ r3 Hup _ _ E3).
    - cbn [record rec_map]. exact Hm1.
    - cbn [record cmds]. rewrite !Forall_app. split; [split|].
      + exact Hb1.
      + repeat constructor.
      + repeat constructor. }
  assert (Hall : Forall (binds_stored e) (cmds (record r3 color_epilogue))).
  { cbn [record cmds]. apply Forall_app. split; [exact Hb3|repeat constructor]. }
  split; [cbn [record rec_map] in *; congruence|]. split; [exact Hall|].
  intros upload e0 log Hempty Hinit. unfold initVertexBuffer in Hinit.
  destruct (initVertexBuffer_loop upload (m_nodes e0) (meshBufferMap e0) [])
    as [[m' log']|] eqn:Hloop; [|discriminate].
  injection Hinit as <- <-.
  destruct (initVertexBuffer_loop_entries upload (m_nodes e0)
              (meshBufferMap e0) m' [] log'
              (ex_intro _ 0%nat eq_refl) Hloop) as (_ & _ & Hentries).
  cbn [set_meshBufferMap meshBufferMap m_nodes] in *.
  eapply List.Forall_impl; [|exact Hall].
  intros c Hc. destruct c; try exact I.
  - destruct Hc as (node & mesh & entry & _ & _ & Hentry & ->).
    destruct (Hentries _ _ Hentry) as [Hold|(k & _ & Hk & Hev & ->)].
    + rewrite Hempty, lookup_empty in Hold. discriminate.
    + exists k. repeat split; assumption.
  - destruct Hc as (node & mesh & entry & _ & _ & Hentry & ->).
    destruct (Hentries _ _ Hentry) as [Hold|(k & _ & Hk & Hev & ->)].
    + rewrite Hempty, lookup_empty in Hold. discriminate.
    + exists k. repeat split; assumption.
Qed.

Lemma render_keeps_meshBufferMap_witness :
  exists r, render SetupSamples.uploaded_state 0 = Some r
            /\ rec_map r = meshBufferMap SetupSamples.uploaded_state
            /\ In (CmdBindVertexBuffers 10) (cmds r)
            /\ In (CmdBindIndexBuffer 11) (cmds r)
            /\ Forall (binds_stored SetupSamples.uploaded_state) (cmds r).
Proof.
  assert (Hup : meshes_uploaded (m_nodes SetupSamples.uploaded_state)
                                (meshBufferMap SetupSamples.uploaded_state)).
  { intros node [<-|[]]. exists Samples.sample_mesh. split; [reflexivity|].
    eexists. reflexivity. }
  eexists. split; [reflexivity|].
  match goal with
  | |- rec_map ?r = _ /\ _ =>
      destruct (render_keeps_meshBufferMap SetupSamples.uploaded_state 0%nat r
                  Hup eq_refl) as (Hmap & Hstored & _)
  end.
  split; [exact Hmap|]. split; [|split; [|exact Hstored]].
  - cbn. auto 20.
  - cbn. auto 20.
Defined.

Lemma texture_addr_cons (node : Node) (rest : list Node) (j : nat) :
  texture_addr (node :: rest) (S j) = texture_addr rest j.
Proof. reflexivity. Qed.

Lemma texture_addr_dec (a : positive) (nodes : list Node) :
  (exists j, texture_addr nodes j = Some a)
  \/ (forall j, texture_addr nodes j <> Some a).
Proof.
  induction nodes as [|node rest IH].
  - right. intros j. unfold texture_addr. rewrite lookup_nil. discriminate.
  - destruct IH as [[j Hj]|Hnone]; [left; exists (S j); exact Hj|].
    destruct (decide (texture_addr (node :: rest) 0 = Some a)) as [H0|H0].
    + left. exists 0%nat. exact H0.
    + right. intros [|j]; [exact H0|]. rewrite texture_addr_cons. apply Hnone.
Qed.

Lemma last_texture_index (a : positive) (nodes : list Node) :
  (exists j, texture_addr nodes j = Some a) ->
  exists l, texture_addr nodes l = Some a
            /\ forall l', (l < l')%nat -> texture_addr nodes l' <> Some a.
Proof.
  induction nodes as [|node rest IH]; intros [j Hj].
  - unfold texture_addr in Hj. rewrite lookup_nil in Hj. discriminate.
  - destruct (texture_addr_dec a rest) as [Hrest|Hrest].
    + destruct (IH Hrest) as (l & Hl & Hlast). exists (S l).
      split; [exact Hl|]. intros [|l'] Hlt; [lia|].
      rewrite texture_addr_cons. apply Hlast. lia.
    + destruct j as [|j].
      * exists 0%nat. split; [exact Hj|]. intros [|l'] Hlt; [lia|].
        rewrite texture_addr_cons. apply Hrest.
      * exfalso. apply (Hrest j). exact Hj.
Qed.

Lemma initTexture_loop_spec (fresh : nat -> TextureData) (nodes : list Node) :
  forall (k : nat) (m : gmap positive TextureData) (log : list ImageCreate),
    (forall node, In node nodes -> is_Some (m_texture node)) ->
    exists m' log',
      initTexture_loop fresh nodes k m log = Some (m', log')
      /\ List.length log' = (List.length log + List.length nodes)%nat
      /\ (forall a, (forall j, texture_addr nodes j <> Some a) ->
                    m' !! a = m !! a)
      /\ (forall a l, texture_addr nodes l = Some a ->
                      (forall l', (l < l')%nat -> texture_addr nodes l' <> Some a) ->
                      m' !! a = Some (fresh (k + l)%nat)).
Proof.
  induction nodes as [|node rest IH]; intros k m log Htex;
    cbn [initTexture_loop].
  - exists m, log. split; [reflexivity|]. split; [cbn; lia|].
    split; [reflexivity|]. intros a l Hl. unfold texture_addr in Hl.
    rewrite lookup_nil in Hl. discriminate.
  - destruct (Htex node (or_introl eq_refl)) as [texture Ht]. rewrite Ht.
    assert (Hrest : forall n, In n rest -> is_Some (m_texture n))
      by (intros n Hn; apply Htex; right; exact Hn).
    set (log1 := log ++ _).
    destruct (IH (S k) (<[addr texture := fresh k]> m) log1 Hrest)
      as (m' & log' & Hrun & Hlen & Hnone & Hlast).
    exists m', log'. split; [exact Hrun|]. split; [|split].
    + rewrite Hlen. unfold log1. rewrite length_app. cbn [List.length]. lia.
    + intros a Ha. rewrite Hnone.
      * apply lookup_insert_ne. intros Heq. apply (Ha 0%nat).
        unfold texture_addr. cbn. rewrite Ht. cbn. congruence.
      * intros j. rewrite <- texture_addr_cons with (node := node). apply Ha.
    + intros a [|l] Hl Hafter.
      * rewrite Hnone.
        -- unfold texture_addr in Hl. cbn in Hl. rewrite Ht in Hl. cbn in Hl.
           injection Hl as <-. rewrite lookup_insert_eq, Nat.add_0_r. reflexivity.
        -- intros j. rewrite <- texture_addr_cons with (node := node).
           apply Hafter. lia.
      * rewrite (Hlast a l).
        -- f_equal. f_equal. lia.
        -- exact Hl.
        -- intros l' Hlt. rewrite <- texture_addr_cons with (node := node).
           apply Hafter. lia.
Qed.

Lemma bindTexture_loop_spec (m : gmap positive TextureData) (nodes : list Node) :
  forall (i : nat) (writes : list ImageWrite),
    (forall j a, texture_addr nodes j = Some a ->
                 exists td, m !! a = Some td /\ imageView td <> 0) ->
    (forall node, In node nodes -> is_Some (m_texture node)) ->
    exists ws,
      bindTexture_loop nodes i m writes = Some (writes ++ ws)
      /\ List.length ws = List.length nodes
      /\ (forall j a td, texture_addr nodes j = Some a -> m !! a = Some td ->
                         ws !! j = Some (mkImageWrite (wrap32 (Z.of_nat (i + j)))
                                                      (imageView td))).
Proof.
  induction nodes as [|node rest IH]; intros i writes Hmap Htex;
    cbn [bindTexture_loop].
  - exists []. rewrite app_nil_r. split; [reflexivity|]. split; [reflexivity|].
    intros j a td Hj. unfold texture_addr in Hj. rewrite lookup_nil in Hj.
    discriminate.
  - destruct (Htex node (or_introl eq_refl)) as [texture Ht]. rewrite Ht.
    assert (H0 : texture_addr (node :: rest) 0 = Some (addr texture)).
    { unfold texture_addr. cbn. rewrite Ht. reflexivity. }
    destruct (Hmap 0%nat _ H0) as (td0 & Htd0 & Hview0).
    rewrite Htd0. cbn [default from_option Datatypes.id].
    destruct (Z.eqb_spec (imageView td0) 0) as [Hz|_]; [contradiction|].
    destruct (IH (S i) (writes ++ [mkImageWrite (wrap32 (Z.of_nat i))
                                                (imageView td0)]))
      as (ws & Hrun & Hlen & Hws).
    { intros j a Hj. apply (Hmap (S j)). exact Hj. }
    { intros n Hn. apply Htex. right. exact Hn. }
    exists (mkImageWrite (wrap32 (Z.of_nat i)) (imageView td0) :: ws).
    split; [rewrite Hrun, <- app_assoc; reflexivity|].
    split; [cbn [List.length]; lia|].
    intros [|j] a td Hj Ha.
    + rewrite H0 in Hj. injection Hj as <-. rewrite Htd0 in Ha.
      injection Ha as <-. rewrite Nat.add_0_r. reflexivity.
    + rewrite texture_addr_cons in Hj.
      transitivity (ws !! j); [reflexivity|].
      rewrite (Hws j a td Hj Ha). do 3 f_equal. lia.
Qed.

(** X25. [initTexture] creates one image for every node, also for nodes
    that share a texture, and the map keeps for each texture the image
    made for the last node using it.  [bindTextureDescriptorSet] then
    writes one array element per node: element [j] is written at index
    [j] and holds the view created for the last node that has the same
    texture as node [j]. *)
Theorem texture_slots (fresh : nat -> TextureData) (nodes : list Node)
        (m : gmap positive TextureData) :
  (forall node, In node nodes -> is_Some (m_texture node)) ->
  (forall k, imageView (fresh k) <> 0) ->
  exists m' log writes,
    initTexture fresh nodes m = Some (m', log)
    /\ bindTextureDescriptorSet nodes m' = Some writes
    /\ List.length log = List.length nodes
    /\ List.length writes = List.length nodes
    /\ forall j a, texture_addr nodes j = Some a ->
         exists l, (j <= l)%nat
                   /\ texture_addr nodes l = Some a
                   /\ (forall l', (l < l')%nat -> texture_addr nodes l' <> Some a)
                   /\ m' !! a = Some (fresh l)
                   /\ writes !! j
                      = Some (mkImageWrite (wrap32 (Z.of_nat j))
                                           (imageView (fresh l))).
Proof.
  intros Htex Hview. unfold initTexture, bindTextureDescriptorSet.
  destruct (initTexture_loop_spec fresh nodes 0 m [] Htex)
    as (m' & log & Hrun & Hlen & _ & Hlast).
  assert (Hfind : forall j a, texture_addr nodes j = Some a ->
            exists l, (j <= l)%nat /\ texture_addr nodes l = Some a
                      /\ (forall l', (l < l')%nat -> texture_addr nodes l' <> Some a)
                      /\ m' !! a = Some (fresh l)).
  { intros j a Hj.
    destruct (last_texture_index a nodes (ex_intro _ j Hj)) as (l & Hl & Hafter).
    exists l. split.
    - destruct (le_lt_dec j l) as [H|H]; [exact H|].
      exfalso. apply (Hafter j H). exact Hj.
    - split; [exact Hl|]. split; [exact Hafter|].
      rewrite (Hlast a l Hl Hafter). reflexivity. }
  destruct (bindTexture_loop_spec m' nodes 0 []) as (ws & Hbind & Hwlen & Hws).
  { intros j a Hj. destruct (Hfind j a Hj) as (l & _ & _ & _ & Hm).
    exists (fresh l). split; [exact Hm|apply Hview]. }
  { exact Htex. }
  exists m', log, ws. split; [exact Hrun|]. split; [exact Hbind|].
  split; [exact Hlen|]. split; [exact Hwlen|].
  intros j a Hj. destruct (Hfind j a Hj) as (l & Hle & Hl & Hafter & Hm).
  exists l. repeat (split; [assumption|]).
  apply (Hws j a (fresh l) Hj Hm).
Qed.

Lemma texture_slots_witness :
  exists m' log writes,
    initTexture TextureSamples.fresh_texture TextureSamples.textured_nodes ∅
    = Some (m', log)
    /\ bindTextureDescriptorSet TextureSamples.textured_nodes m' = Some writes
    /\ List.length log = 3%nat
    /\ writes !! 0%nat = Some (mkImageWrite 0 302).
Proof.
  destruct (texture_slots TextureSamples.fresh_texture
              TextureSamples.textured_nodes ∅)
    as (m' & log & writes & Hrun & Hbind & Hlen & _ & Hslots).
  - intros node [<-|[<-|[<-|[]]]]; eexists; reflexivity.
  - intros k. unfold TextureSamples.fresh_texture. cbn [imageView]. lia.
  - exists m', log, writes. repeat (split; [assumption|]).
    destruct (Hslots 0%nat 5%positive eq_refl) as (l & _ & Hl & Hafter & _ & Hw).
    assert (l = 2%nat) as ->.
    { destruct (lt_eq_lt_dec l 2) as [[Hlt|Heq]|Hgt]; [|exact Heq|].
      - exfalso. apply (Hafter 2%nat Hlt). reflexivity.
      - exfalso. do 3 (destruct l as [|l]; [lia|]).
        unfold texture_addr in Hl. cbn in Hl. discriminate Hl. }
    exact Hw.
Defined.

End SetupTheorems.

(** ** The fragment shader *)

Section ShaderTheorems.

Import Glm Shader.
Local Open Scope R_scope.










End ShaderTheorems.

(** ** The main loop *)

Section MainLoopTheorems.

Import Glm CameraModel MainLoop.
Local Open Scope Z_scope.

Lemma poll_spec (evs : list LoopEvent) :
  forall (r : bool) (cam : Camera),
    poll evs r cam
    = (r && forallb (fun e => negb (requests_quit e)) evs,
       handleMouseEvents cam (map camera_event evs)).
Proof.
  induction evs as [|e evs IH]; intros r cam; cbn [poll].
  - rewrite andb_true_r. reflexivity.
  - rewrite IH. unfold handleMouseEvents. cbn [map fold_left forallb].
    f_equal. destruct e; cbn [requests_quit negb andb];
      rewrite ?andb_false_r; try reflexivity.
    destruct (key =? SDLK_ESCAPE); cbn [negb andb];
      rewrite ?andb_false_r; reflexivity.
Qed.

Lemma movement_keeps_view (c : Camera) (k : Keys) (dt : R) :
  m_yaw (updateCameraMovement c k dt) = m_yaw c
  /\ m_pitch (updateCameraMovement c k dt) = m_pitch c.
Proof.
  unfold updateCameraMovement.
  destruct (key_W k), (key_S k), (key_A k), (key_D k); split; reflexivity.
Qed.

Lemma mouse_keeps_position (es : list SDL_Event) :
  forall c, m_position (handleMouseEvents c es) = m_position c.
Proof.
  unfold handleMouseEvents.
  induction es as [|e es IH]; intros c; cbn [fold_left]; [reflexivity|].
  rewrite IH. destruct e; reflexivity.
Qed.

Lemma iteration_spec (t : Tick) (s : LoopState) :
  let s' := fst (iteration t s) in
  snd (iteration t s) = [CallUpdate (m_camera s')]
  /\ running s' = running s
                  && forallb (fun e => negb (requests_quit e)) (events t)
  /\ lastTicks s' = ticks t
  /\ m_yaw (m_camera s')
     = m_yaw (handleMouseEvents (m_camera s) (map camera_event (events t)))
  /\ m_pitch (m_camera s')
     = m_pitch (handleMouseEvents (m_camera s) (map camera_event (events t)))
  /\ (lastTicks s = 0 ->
      m_camera s'
      = handleMouseEvents (m_camera s) (map camera_event (events t))).
Proof.
  unfold iteration. rewrite poll_spec. cbn [fst snd running lastTicks m_camera].
  split; [reflexivity|]. split; [reflexivity|]. split; [reflexivity|].
  destruct (Z.eqb_spec (lastTicks s) 0) as [Hz|Hz]; cbn [negb].
  - repeat split; reflexivity.
  - split; [apply movement_keeps_view|]. split; [apply movement_keeps_view|].
    intros H. contradiction.
Qed.

Lemma quiet_pass_runs (b : Tick) (s : LoopState) :
  running s = true ->
  Forall (fun e => requests_quit e = false) (events b) ->
  running (fst (iteration b s)) = true.
Proof.
  intros Hrun Hb. destruct (iteration_spec b s) as (_ & Hr & _).
  rewrite Hr, Hrun. cbn [andb]. apply forallb_forall. intros e He.
  rewrite List.Forall_forall in Hb. rewrite (Hb e He). reflexivity.
Qed.

Lemma mainLoop_from_running (before : list Tick) :
  forall (s : LoopState) (trace : list LoopCall) (rest : list Tick),
    running s = true ->
    Forall (fun b => Forall (fun e => requests_quit e = false) (events b))
           before ->
    mainLoop_from (before ++ rest) s trace
    = mainLoop_from rest (run_passes before s) (trace ++ run_calls before s)
    /\ running (run_passes before s) = true.
Proof.
  induction before as [|b before IH]; intros s trace rest Hrun Hquiet.
  - cbn [app run_passes fold_left run_calls]. rewrite app_nil_r. auto.
  - inversion Hquiet as [|? ? Hb Hrest]; subst.
    pose proof (quiet_pass_runs b s Hrun Hb) as Hrun1.
    cbn [app mainLoop_from run_passes fold_left run_calls]. rewrite Hrun.
    destruct (iteration b s) as [s1 calls1]. cbn [fst snd] in *.
    destruct (IH s1 (trace ++ calls1) rest Hrun1 Hrest) as [Heq Hrun'].
    rewrite app_assoc. split; [exact Heq|exact Hrun'].
Qed.

Lemma run_calls_updates (passes : list Tick) :
  forall s, List.length (run_calls passes s) = List.length passes
            /\ Forall is_update (run_calls passes s).
Proof.
  induction passes as [|t passes IH]; intros s; cbn [run_calls].
  - split; [reflexivity|constructor].
  - destruct (iteration_spec t s) as (Hcalls & _). rewrite Hcalls.
    destruct (IH (fst (iteration t s))) as [Hlen Hupd].
    cbn [app List.length]. split; [lia|]. constructor; [exact I|exact Hupd].
Qed.

Lemma run_calls_app (before : list Tick) (t : Tick) :
  forall s, run_calls (before ++ [t]) s
            = run_calls before s
              ++ [CallUpdate (m_camera (fst (iteration t (run_passes before s))))].
Proof.
  induction before as [|b before IH]; intros s;
    cbn [app run_calls run_passes fold_left].
  - destruct (iteration_spec t s) as (Hcalls & _). rewrite Hcalls.
    rewrite app_nil_r. reflexivity.
  - rewrite IH, app_assoc. reflexivity.
Qed.

(** X28. [mainLoop] stops at the first pass whose event queue holds a quit
    event or an Escape key press: [update] has then run once in every
    pass, the quitting one included, [vkDeviceWaitIdle] is the last call,
    and later input is never read.  A quit request does not cut the
    event loop short: the camera that the last [update] sees is the
    camera left by the earlier passes after it has handled every event
    queued in the quitting pass, before and after the request, followed
    by that pass's movement step (skipped when the previous tick count is
    zero).  The first pass never moves the camera. *)
Theorem mainLoop_quits (before : list Tick) (t : Tick) (after : list Tick)
        (cam : Camera) :
  Forall (fun b => Forall (fun e => requests_quit e = false) (events b))
         before ->
  Exists (fun e => requests_quit e = true) (events t) ->
  let start := mkLoop true 0 cam in
  let s0 := run_passes before start in
  let s := fst (iteration t s0) in
  let seen := handleMouseEvents (m_camera s0) (map camera_event (events t)) in
  let updates := run_calls (before ++ [t]) start in
  mainLoop (before ++ t :: after) cam
  = Some (s, updates ++ [CallDeviceWaitIdle])
  /\ List.length updates = S (List.length before)
  /\ Forall is_update updates
  /\ List.last updates CallDeviceWaitIdle = CallUpdate (m_camera s)
  /\ running s = false /\ lastTicks s = ticks t
  /\ m_camera s
     = (if lastTicks s0 =? 0 then seen
        else updateCameraMovement
               seen (keys t)
               (IZR (Engine.wrap64 (ticks t - lastTicks s0)) / 1000)%R)
  /\ m_yaw (m_camera s) = m_yaw seen
  /\ m_pitch (m_camera s) = m_pitch seen
  /\ (exists first more, updates = CallUpdate first :: more
                         /\ m_position first = m_position cam).
Proof.
  intros Hquiet Hquit start s0 s seen updates. unfold mainLoop. fold start.
  destruct (mainLoop_from_running before start [] (t :: after) eq_refl Hquiet)
    as [Heq Hrun0].
  fold s0 in Heq, Hrun0.
  pose proof (iteration_spec t s0) as Hit. cbv zeta in Hit. fold s seen in Hit.
  destruct Hit as (Hcalls & Hr & Hticks & Hyaw & Hpitch & Hfirst).
  assert (Hstopped : running s = false).
  { rewrite Hr, Hrun0. cbn [andb]. apply not_true_is_false. intros Hall.
    rewrite forallb_forall in Hall. apply List.Exists_exists in Hquit.
    destruct Hquit as (e & He & Hq). specialize (Hall e He).
    rewrite Hq in Hall. discriminate Hall. }
  assert (Hupdates : updates = run_calls before start ++ [CallUpdate (m_camera s)]).
  { unfold updates. rewrite run_calls_app. reflexivity. }
  split.
  { rewrite Heq. cbn [mainLoop_from app]. rewrite Hrun0.
    destruct (iteration t s0) as [s1 calls1] eqn:Eit.
    cbn [fst snd] in *. subst s. rewrite Hupdates, Hcalls.
    destruct after; cbn [mainLoop_from]; rewrite Hstopped; reflexivity. }
  destruct (run_calls_updates (before ++ [t]) start) as [Hlen Hupd].
  fold updates in Hlen, Hupd.
  split; [rewrite Hlen, length_app; cbn [List.length]; lia|].
  split; [exact Hupd|].
  split; [rewrite Hupdates; apply last_last|].
  split; [exact Hstopped|]. split; [exact Hticks|].
  split.
  { unfold s, iteration. rewrite poll_spec. cbn [fst m_camera]. fold seen.
    destruct (lastTicks s0 =? 0); reflexivity. }
  split; [exact Hyaw|]. split; [exact Hpitch|].
  destruct before as [|t0 more0].
  - exists (m_camera s), []. split; [exact Hupdates|].
    rewrite Hfirst by reflexivity. unfold seen, s0, start.
    cbn [run_passes fold_left m_camera]. apply mouse_keeps_position.
  - unfold updates. cbn [app run_calls].
    destruct (iteration_spec t0 start) as (Hc0 & _ & _ & _ & _ & Hfirst0).
    rewrite Hc0. cbn [app]. eexists. eexists. split; [reflexivity|].
    rewrite Hfirst0 by reflexivity. unfold start. cbn [m_camera].
    apply mouse_keeps_position.
Qed.

Lemma mainLoop_quits_witness :
  exists s updates,
    mainLoop [LoopSamples.quiet_pass; LoopSamples.quit_pass;
              LoopSamples.late_pass] default_camera
    = Some (s, updates ++ [CallDeviceWaitIdle])
    /\ List.length updates = 2%nat /\ lastTicks s = 33
    /\ m_yaw (m_camera s)
       = m_yaw (handleMouseEvents default_camera
                  [MouseMotion 1 1; OtherEvent; OtherEvent; MouseMotion 2 0]).
Proof.
  destruct (mainLoop_quits [LoopSamples.quiet_pass] LoopSamples.quit_pass
              [LoopSamples.late_pass] default_camera)
    as (Hrun & Hlen & _ & _ & _ & Hticks & _ & Hyaw & _).
  - repeat constructor.
  - left. reflexivity.
  - eexists. eexists. split; [exact Hrun|]. split; [exact Hlen|].
    split; [exact Hticks|]. rewrite Hyaw.
    cbn [run_passes fold_left].
    destruct (iteration_spec LoopSamples.quiet_pass (mkLoop true 0 default_camera))
      as (_ & _ & _ & _ & _ & Hfirst).
    rewrite Hfirst by reflexivity.
    unfold handleMouseEvents. cbn [m_camera]. rewrite <- fold_left_app.
    reflexivity.
Defined.

End MainLoopTheorems.

(** ** Textures *)

Section TextureTheorems.

Import NodeModel Primitives Engine Setup TextureModel.
Local Open Scope Z_scope.

Lemma store_in_range (pixels : list Z) (i v : Z) :
  0 <= i < Z.of_nat (List.length pixels) ->
  store pixels i v = Some (<[ Z.to_nat i := v ]> pixels).
Proof.
  intros Hi. unfold store.
  destruct (Z.ltb_spec i (Z.of_nat (List.length pixels))); [reflexivity|lia].
Qed.

Lemma store_length (pixels pixels' : list Z) (i v : Z) :
  store pixels i v = Some pixels' -> List.length pixels' = List.length pixels.
Proof.
  unfold store. destruct (i <? _); [|discriminate].
  intros [= <-]. apply length_insert.
Qed.

Lemma expand_pixel_length (data : list Z) (width x y : Z) (pixels pixels' : list Z) :
  expand_pixel data width x y pixels = Some pixels' ->
  List.length pixels' = List.length pixels.
Proof.
  unfold expand_pixel.
  destruct (negb _); [discriminate|]. destruct (negb _); [discriminate|].
  destruct (load data (_ + 0)) as [r|]; cbn [mbind option_bind]; [|discriminate].
  destruct (store pixels _ r) as [p1|] eqn:E1; cbn [mbind option_bind];
    [|discriminate].
  destruct (load data (_ + 1)) as [g|]; cbn [mbind option_bind]; [|discriminate].
  destruct (store p1 _ g) as [p2|] eqn:E2; cbn [mbind option_bind];
    [|discriminate].
  destruct (load data (_ + 2)) as [b|]; cbn [mbind option_bind]; [|discriminate].
  destruct (store p2 _ b) as [p3|] eqn:E3; cbn [mbind option_bind];
    [|discriminate].
  intros E4.
  apply store_length in E1, E2, E3, E4. congruence.
Qed.

Lemma row_loop_length (data : list Z) (width y : Z) (n : nat) :
  forall (x : Z) (pixels pixels' : list Z),
    row_loop data width y x n pixels = Some pixels' ->
    List.length pixels' = List.length pixels.
Proof.
  induction n as [|k IH]; intros x pixels pixels'; cbn [row_loop].
  - intros [= <-]. reflexivity.
  - destruct (expand_pixel data width x y pixels) as [p|] eqn:E; [|discriminate].
    intros H. apply IH in H. apply expand_pixel_length in E. congruence.
Qed.

Lemma rows_loop_length (data : list Z) (width : Z) (n : nat) :
  forall (y : Z) (pixels pixels' : list Z),
    rows_loop data width y n pixels = Some pixels' ->
    List.length pixels' = List.length pixels.
Proof.
  induction n as [|k IH]; intros y pixels pixels'; cbn [rows_loop].
  - intros [= <-]. reflexivity.
  - destruct (row_loop data width y 0 (Z.to_nat width) pixels) as [p|] eqn:E;
      [|discriminate].
    intros H. apply IH in H. apply row_loop_length in E. congruence.
Qed.

Lemma expand_pixel_spec (data : list Z) (width x y : Z) (pixels : list Z) :
  let q := x + y * width in
  0 <= q -> 4 * q + 4 < 2 ^ 31 ->
  4 * q + 4 <= Z.of_nat (List.length pixels) ->
  3 * q + 3 <= Z.of_nat (List.length data) ->
  expanded data pixels q ->
  exists pixels',
    expand_pixel data width x y pixels = Some pixels'
    /\ expanded data pixels' (q + 1).
Proof.
  intros q Hq Hint Hpix Hdata Hinv. unfold expand_pixel. fold q.
  assert (Hok : int_ok (q * 4) = true).
  { unfold int_ok. apply andb_true_iff. split; [apply Z.leb_le|apply Z.ltb_lt]; lia. }
  rewrite Hok. cbn [negb].
  rewrite !to_u64_small by lia.
  assert (Hdst : (q * 4 <? Z.of_nat (List.length pixels)) = true)
    by (apply Z.ltb_lt; lia).
  rewrite Hdst. cbn [negb]. unfold load.
  destruct (lookup_lt_is_Some_2 data (Z.to_nat (q * 3 + 0)) ltac:(lia)) as [r Hr].
  destruct (lookup_lt_is_Some_2 data (Z.to_nat (q * 3 + 1)) ltac:(lia)) as [g Hg].
  destruct (lookup_lt_is_Some_2 data (Z.to_nat (q * 3 + 2)) ltac:(lia)) as [b Hb].
  rewrite Hr. cbn [mbind option_bind].
  rewrite store_in_range by lia. cbn [mbind option_bind].
  rewrite Hg. cbn [mbind option_bind].
  rewrite store_in_range by (rewrite length_insert; lia).
  cbn [mbind option_bind]. rewrite Hb. cbn [mbind option_bind].
  rewrite store_in_range by (rewrite !length_insert; lia).
  cbn [mbind option_bind].
  rewrite store_in_range by (rewrite !length_insert; lia).
  eexists. split; [reflexivity|].
  intros p Hp. unfold channel.
  destruct (Z.eq_dec p q) as [->|Hne].
  - replace (Z.to_nat (4 * q + 0)) with (Z.to_nat (q * 4 + 0)) by lia.
    replace (Z.to_nat (4 * q + 1)) with (Z.to_nat (q * 4 + 1)) by lia.
    replace (Z.to_nat (4 * q + 2)) with (Z.to_nat (q * 4 + 2)) by lia.
    replace (Z.to_nat (4 * q + 3)) with (Z.to_nat (q * 4 + 3)) by lia.
    replace (Z.to_nat (3 * q + 0)) with (Z.to_nat (q * 3 + 0)) by lia.
    replace (Z.to_nat (3 * q + 1)) with (Z.to_nat (q * 3 + 1)) by lia.
    replace (Z.to_nat (3 * q + 2)) with (Z.to_nat (q * 3 + 2)) by lia.
    rewrite Hr, Hg, Hb.
    repeat split;
      rewrite ?list_lookup_insert_ne by lia;
      apply list_lookup_insert_eq; rewrite ?length_insert; lia.
  - destruct (Hinv p ltac:(lia)) as (H0 & H1 & H2 & H3).
    unfold channel in H0, H1, H2, H3.
    rewrite <- H0, <- H1, <- H2, <- H3.
    repeat split; rewrite !list_lookup_insert_ne by lia; reflexivity.
Qed.

Lemma row_loop_spec (data : list Z) (width y : Z) (n : nat) :
  forall (x : Z) (pixels : list Z),
    0 <= x -> 0 <= y -> x + Z.of_nat n <= width ->
    4 * ((y + 1) * width) < 2 ^ 31 ->
    4 * ((y + 1) * width) <= Z.of_nat (List.length pixels) ->
    3 * ((y + 1) * width) <= Z.of_nat (List.length data) ->
    expanded data pixels (x + y * width) ->
    exists pixels',
      row_loop data width y x n pixels = Some pixels'
      /\ expanded data pixels' (x + Z.of_nat n + y * width).
Proof.
  induction n as [|k IH]; intros x pixels Hx Hy Hn Hint Hpix Hdata Hinv;
    cbn [row_loop].
  - exists pixels. split; [reflexivity|].
    replace (x + Z.of_nat 0 + y * width) with (x + y * width) by lia. exact Hinv.
  - destruct (expand_pixel_spec data width x y pixels) as (p1 & Hrun & Hinv1);
      try assumption; try nia.
    rewrite Hrun.
    pose proof (expand_pixel_length _ _ _ _ _ _ Hrun) as Hlen.
    destruct (IH (x + 1) p1) as (p2 & Hrun2 & Hinv2); try lia.
    + replace (x + 1 + y * width) with (x + y * width + 1) by lia. exact Hinv1.
    + exists p2. split; [exact Hrun2|].
      replace (x + Z.of_nat (S k) + y * width)
        with (x + 1 + Z.of_nat k + y * width) by lia.
      exact Hinv2.
Qed.

Lemma rows_loop_spec (data : list Z) (width height : Z) (n : nat) :
  forall (y : Z) (pixels : list Z),
    0 <= width -> 0 <= y -> y + Z.of_nat n = height ->
    4 * (height * width) < 2 ^ 31 ->
    4 * (height * width) <= Z.of_nat (List.length pixels) ->
    3 * (height * width) <= Z.of_nat (List.length data) ->
    expanded data pixels (y * width) ->
    exists pixels',
      rows_loop data width y n pixels = Some pixels'
      /\ expanded data pixels' (height * width).
Proof.
  induction n as [|k IH]; intros y pixels Hw Hy Hn Hint Hpix Hdata Hinv;
    cbn [rows_loop].
  - exists pixels. split; [reflexivity|].
    replace height with y by lia. exact Hinv.
  - destruct (row_loop_spec data width y (Z.to_nat width) 0 pixels)
      as (p1 & Hrun & Hinv1); try lia; try nia.
    + replace (0 + y * width) with (y * width) by lia. exact Hinv.
    + rewrite Hrun.
      pose proof (row_loop_length _ _ _ _ _ _ _ Hrun) as Hlen.
      destruct (IH (y + 1) p1) as (p2 & Hrun2 & Hinv2); try lia.
      * replace ((y + 1) * width)
          with (0 + Z.of_nat (Z.to_nat width) + y * width) by lia.
        exact Hinv1.
      * exists p2. split; assumption.
Qed.

Lemma channel_restride (bytes : list Z) (p c : Z) :
  0 <= p -> 0 <= c ->
  channel bytes 3 p c = channel bytes 4 ((3 * p + c) / 4) ((3 * p + c) mod 4).
Proof.
  intros Hp Hc. unfold channel. f_equal. f_equal.
  apply Z.div_mod. lia.
Qed.

(** X29. On the buffer [stbi_load] returns when asked for four channels
    (four bytes per pixel, whatever the file holds), the branch for
    [nComponents == 3] reads the buffer at a stride of three: the
    constructor succeeds, and output pixel [p] holds buffer bytes [3p],
    [3p+1], [3p+2] followed by 255.  So channel [c] of output pixel [p]
    is channel [(3p+c) mod 4] of loaded pixel [(3p+c) / 4]: only pixel 0
    receives its own colour, the red of output pixel 1 is the alpha byte
    of loaded pixel 0, and the last quarter of the buffer is never
    read. *)
Theorem Texture_rgb_expansion (l : Loaded) (sRGB : bool) :
  stbi_rgba l -> ld_nComponents l = 3 ->
  ld_width l * ld_height l * 4 < 2 ^ 31 ->
  exists t,
    Texture_from_file (Some l) sRGB = Ok t
    /\ t_width t = ld_width l /\ t_height t = ld_height l /\ t_sRGB t = sRGB
    /\ Z.of_nat (List.length (m_pixels t)) = 4 * (ld_width l * ld_height l)
    /\ expanded (ld_data l) (m_pixels t) (ld_width l * ld_height l)
    /\ (forall p c, 0 <= p < ld_width l * ld_height l -> 0 <= c < 3 ->
          channel (m_pixels t) 4 p c
          = channel (ld_data l) 4 ((3 * p + c) / 4) ((3 * p + c) mod 4)
          /\ (3 * p + c) / 4 <= p
          /\ 4 * ((3 * p + c) / 4) + (3 * p + c) mod 4
             < 3 * (ld_width l * ld_height l))
    /\ (2 <= ld_width l * ld_height l ->
        channel (m_pixels t) 4 1 0 = channel (ld_data l) 4 0 3).
Proof.
  intros (Hw & Hh & Hlen) Hn Hint.
  destruct l as [width height n data].
  cbn [ld_width ld_height ld_nComponents ld_data] in *. subst n.
  unfold Texture_from_file.
  cbn [ld_width ld_height ld_nComponents ld_data]. rewrite Z.eqb_refl.
  assert (Hwh : 0 <= width * height) by nia.
  assert (Hok : int_ok (width * height) && int_ok (width * height * 4) = true).
  { unfold int_ok. rewrite !andb_true_iff.
    repeat split; try apply Z.leb_le; try apply Z.ltb_lt; lia. }
  rewrite Hok. cbn [negb].
  destruct (Z.ltb_spec (width * height * 4) 0) as [Hneg|_]; [lia|].
  destruct (rows_loop_spec data width height (Z.to_nat height) 0
              (replicate (Z.to_nat (width * height * 4)) 0))
    as (pixels & Hrun & Hinv); try lia.
  - rewrite length_replicate. lia.
  - intros p Hp. lia.
  - rewrite Hrun. eexists. split; [reflexivity|].
    cbn [t_width t_height t_sRGB m_pixels].
    rewrite !to_u32_small by lia.
    split; [reflexivity|]. split; [reflexivity|]. split; [reflexivity|].
    assert (Hexp : expanded data pixels (width * height)).
    { replace (width * height) with (height * width) by lia. exact Hinv. }
    split.
    { rewrite (rows_loop_length _ _ _ _ _ _ Hrun), length_replicate. lia. }
    split; [exact Hexp|]. split.
    + intros p c Hp Hc. destruct (Hexp p Hp) as (H0 & H1 & H2 & _).
      assert (Hch : channel pixels 4 p c = channel data 3 p c).
      { assert (Hcases : c = 0 \/ c = 1 \/ c = 2) by lia.
        destruct Hcases as [-> | [-> | ->]]; assumption. }
      rewrite Hch, channel_restride by lia.
      split; [reflexivity|].
      pose proof (Z.div_mod (3 * p + c) 4 ltac:(lia)) as Hdm.
      pose proof (Z.mod_pos_bound (3 * p + c) 4 ltac:(lia)) as Hmod.
      split; lia.
    + intros H2. destruct (Hexp 1 ltac:(lia)) as (H0 & _).
      rewrite H0. unfold channel. reflexivity.
Qed.

Lemma Texture_rgb_expansion_witness :
  exists t,
    Texture_from_file (Some TextureFileSamples.rgb_file) true = Ok t
    /\ m_pixels t = [10; 20; 30; 255; 255; 40; 50; 255].
Proof.
  destruct (Texture_rgb_expansion TextureFileSamples.rgb_file true)
    as (t & Hrun & _).
  - unfold stbi_rgba. cbn. lia.
  - reflexivity.
  - cbn. lia.
  - exists t. split; [exact Hrun|].
    unfold TextureFileSamples.rgb_file in Hrun. vm_compute in Hrun.
    injection Hrun as <-. reflexivity.
Defined.

Lemma staging_bytes_exact (width height : Z) :
  0 <= width * height * 4 < 2 ^ 32 ->
  staging_bytes (mkTexture (to_u32 width) (to_u32 height) true)
  = width * height * 4.
Proof.
  intros H. unfold staging_bytes, wrap32, to_u32. cbn [m_width m_height].
  rewrite <- Z.mul_mod by lia. rewrite Z.mul_mod_idemp_l by lia.
  apply Z.mod_small. exact H.
Qed.

(** X30. Whenever the constructor succeeds, for three or four components,
    the byte count [initTexture] later copies out of [pixels()],
    [width() * height() * 4] in 32-bit arithmetic, is exactly the size of
    the pixel vector, so the staging copy reads the whole buffer and
    nothing beyond it; the flag is stored as given.  With four
    components the vector is the first [width * height * 4] bytes of the
    loaded data.  The constructor throws when nothing was loaded or the
    component count is neither three nor four. *)
Theorem texture_staging_matches_pixels (loaded : option Loaded) (sRGB : bool) :
  (forall t, Texture_from_file loaded sRGB = Ok t ->
     staging_bytes (as_texture t) = Z.of_nat (List.length (m_pixels t))
     /\ t_sRGB t = sRGB
     /\ (forall l, loaded = Some l -> ld_nComponents l = 4 ->
           m_pixels t
           = take (Z.to_nat (ld_width l * ld_height l * 4)) (ld_data l)))
  /\ (loaded = None
      \/ (exists l, loaded = Some l /\ ld_nComponents l <> 3
                    /\ ld_nComponents l <> 4) ->
      Texture_from_file loaded sRGB = Thrown).
Proof.
  split.
  - intros t Hrun. unfold Texture_from_file in Hrun.
    destruct loaded as [[width height n data]|]; [|discriminate].
    cbn [ld_width ld_height ld_nComponents ld_data] in *.
    assert (Hstage : forall px,
              int_ok (width * height) && int_ok (width * height * 4) = true ->
              0 <= width * height * 4 ->
              staging_bytes (as_texture (mkTextureObj (to_u32 width)
                                           (to_u32 height) sRGB px))
              = width * height * 4).
    { intros px Hok Hpos. unfold int_ok in Hok.
      rewrite !andb_true_iff, !Z.leb_le, !Z.ltb_lt in Hok.
      rewrite <- (staging_bytes_exact width height) by lia. reflexivity. }
    destruct (Z.eqb_spec n 3) as [->|Hn3].
    + destruct (int_ok (width * height) && int_ok (width * height * 4)) eqn:Hok;
        cbn [negb] in Hrun; [|discriminate].
      destruct (Z.ltb_spec (width * height * 4) 0) as [|Hpos]; [discriminate|].
      destruct (rows_loop data width 0 (Z.to_nat height) _) as [pixels|] eqn:Hloop;
        [|discriminate].
      injection Hrun as <-. rewrite Hstage by (try reflexivity; assumption).
      cbn [m_pixels t_sRGB].
      rewrite (rows_loop_length _ _ _ _ _ _ Hloop), length_replicate.
      split; [lia|]. split; [reflexivity|]. intros l [= <-]. discriminate.
    + destruct (Z.eqb_spec n 4) as [->|Hn4]; [|discriminate].
      destruct (int_ok (width * height) && int_ok (width * height * 4)) eqn:Hok;
        cbn [negb] in Hrun; [|discriminate].
      destruct (Z.ltb_spec (width * height * 4) 0) as [|Hpos]; [discriminate|].
      destruct (Z.ltb_spec (Z.of_nat (List.length data)) (width * height * 4))
        as [|Hlen]; [discriminate|].
      injection Hrun as <-. rewrite Hstage by (try reflexivity; assumption).
      cbn [m_pixels t_sRGB]. rewrite length_take.
      split; [lia|]. split; [reflexivity|]. intros l [= <-] _. reflexivity.
  - intros [->|(l & -> & H3 & H4)]; [reflexivity|].
    unfold Texture_from_file.
    destruct (Z.eqb_spec (ld_nComponents l) 3); [contradiction|].
    destruct (Z.eqb_spec (ld_nComponents l) 4); [contradiction|]. reflexivity.
Qed.

End TextureTheorems.
